(** * Jupiter Perpetuals trade history: request validation and pipeline

    A shallow embedding of the two Next.js API routes documented in
    [INTEGRATION.md] (the App Router [GET] and the Pages Router [handler]),
    of the front end documented with them (the hook [useTrades], the
    component [TradesList] and the server component [TradesPage]), of the
    JavaScript operations they rely on, and of the fetcher, the signature
    retrieval and the lifecycle reconstruction behind
    [analyzeTradeHistoryJson]. *)

From Stdlib Require Import ZArith List String Ascii Bool Lia Arith.
From Stdlib Require Import Sorting.Sorted Sorting.Permutation.
From Stdlib Require DecimalString QArith.
Import ListNotations.

Set Implicit Arguments.

(* ================================================================== *)
(** * JavaScript operations used by the route handlers *)
(* ================================================================== *)

Module JS.

(** ** Numbers

    Every number the handlers compute is an integer far below 2^53 or NaN,
    so a JS number is modelled as NaN or an exact integer. *)
Inductive number := NaN | Num (z : Z).

(** [a < b]: false as soon as one side is NaN. *)
Definition lt (a b : number) : bool :=
  match a, b with
  | Num x, Num y => (x <? y)%Z
  | _, _ => false
  end.

(** [a > b] *)
Definition gt (a b : number) : bool := lt b a.

(** [a >= b] *)
Definition ge (a b : number) : bool :=
  match a, b with
  | Num x, Num y => (y <=? x)%Z
  | _, _ => false
  end.

(** [a - b] *)
Definition sub (a b : number) : number :=
  match a, b with
  | Num x, Num y => Num (x - y)
  | _, _ => NaN
  end.

Definition isNaN (a : number) : bool :=
  match a with NaN => true | Num _ => false end.

(** ** Strings

    A JS string is modelled by [string]. A character outside ASCII shows up
    as bytes above 127, which none of the character classes below accepts,
    just as the classes reject the corresponding UTF-16 code units. *)

(** Truthiness of a string: only the empty string is falsy. *)
Definition truthy (s : string) : bool :=
  match s with EmptyString => false | String _ _ => true end.

(** [s.includes(needle)] *)
Fixpoint includes (s needle : string) : bool :=
  String.prefix needle s
  || match s with
     | EmptyString => false
     | String _ s' => includes s' needle
     end.

(** [s.split(sep)] for a separator of one character. *)
Fixpoint split (sep : ascii) (s : string) : list string :=
  match s with
  | EmptyString => [EmptyString]
  | String c s' =>
      if Ascii.eqb c sep then EmptyString :: split sep s'
      else match split sep s' with
           | piece :: rest => String c piece :: rest
           | [] => [String c EmptyString]
           end
  end.

(** Every character of [s] satisfies [p]. *)
Fixpoint every (p : ascii -> bool) (s : string) : bool :=
  match s with
  | EmptyString => true
  | String c s' => p c && every p s'
  end.

Definition is_digit (c : ascii) : bool :=
  (48 <=? nat_of_ascii c) && (nat_of_ascii c <=? 57).

Definition digit_value (c : ascii) : Z := Z.of_nat (nat_of_ascii c) - 48.

Definition all_digits (s : string) : bool := every is_digit s.

(** Value of a string of decimal digits, most significant first. *)
Fixpoint decimal_value (acc : Z) (s : string) : Z :=
  match s with
  | EmptyString => acc
  | String c s' => decimal_value (10 * acc + digit_value c) s'
  end.

(** [Number(s)], exact on non-empty strings of decimal digits. Every other
    string is sent to NaN: that is JavaScript's answer for text that is not a
    numeric literal, but not for the empty string, blanks, signs, exponents,
    radix prefixes or [Infinity]. The handlers reach [Number] only with
    pieces of a string accepted by [validateDateFormat], which are non-empty
    digit strings. *)
Definition Number (s : string) : number :=
  if truthy s && all_digits s then Num (decimal_value 0 s) else NaN.

(** Array destructuring [[a, b, c] = xs] of numbers: a missing element is
    [undefined], which every later numeric use converts to NaN. *)
Definition element (xs : list number) (i : nat) : number := nth i xs NaN.

(** ** Regular expressions

    The fragment the two patterns need: character classes given by ranges,
    concatenation, and bounded repetition [r{lo,hi}], with alternation and
    the empty word to unfold the repetition. *)
Inductive regex :=
| Void
| Eps
| Class (ranges : list (ascii * ascii))
| Cat (r1 r2 : regex)
| Alt (r1 r2 : regex).

Definition in_range (c : ascii) (rg : ascii * ascii) : bool :=
  (nat_of_ascii (fst rg) <=? nat_of_ascii c)
  && (nat_of_ascii c <=? nat_of_ascii (snd rg)).

Definition in_class (ranges : list (ascii * ascii)) (c : ascii) : bool :=
  existsb (in_range c) ranges.

Fixpoint nullable (r : regex) : bool :=
  match r with
  | Void => false
  | Eps => true
  | Class _ => false
  | Cat r1 r2 => nullable r1 && nullable r2
  | Alt r1 r2 => nullable r1 || nullable r2
  end.

(** Brzozowski derivative of [r] by the character [c]. *)
Fixpoint deriv (c : ascii) (r : regex) : regex :=
  match r with
  | Void => Void
  | Eps => Void
  | Class ranges => if in_class ranges c then Eps else Void
  | Cat r1 r2 =>
      if nullable r1 then Alt (Cat (deriv c r1) r2) (deriv c r2)
      else Cat (deriv c r1) r2
  | Alt r1 r2 => Alt (deriv c r1) (deriv c r2)
  end.

(** [/^r$/.test(s)]: the whole string has to match. *)
Fixpoint test (r : regex) (s : string) : bool :=
  match s with
  | EmptyString => nullable r
  | String c s' => test (deriv c r) s'
  end.

(** [r{n}] *)
Fixpoint power (r : regex) (n : nat) : regex :=
  match n with
  | O => Eps
  | S k => Cat r (power r k)
  end.

(** [r{0,n}] *)
Fixpoint upto (r : regex) (n : nat) : regex :=
  match n with
  | O => Eps
  | S k => Alt Eps (Cat r (upto r k))
  end.

(** [r{lo,hi}] *)
Definition Repeat (r : regex) (lo hi : nat) : regex :=
  Cat (power r lo) (upto r (hi - lo)).

(** [\d] and [\.] *)
Definition digit : regex := Class [("0", "9")]%char.
Definition dot : regex := Class [(".", ".")]%char.

(** The words of a regular expression. *)
Inductive lang : regex -> string -> Prop :=
| lang_eps : lang Eps EmptyString
| lang_class ranges c :
    in_class ranges c = true -> lang (Class ranges) (String c EmptyString)
| lang_cat r1 r2 s1 s2 :
    lang r1 s1 -> lang r2 s2 -> lang (Cat r1 r2) (s1 ++ s2)
| lang_alt_l r1 r2 s : lang r1 s -> lang (Alt r1 r2) s
| lang_alt_r r1 r2 s : lang r2 s -> lang (Alt r1 r2) s.

(** ** Dates (ECMAScript, Date objects)

    Time values are milliseconds since the epoch. The local time zone is a
    fixed offset [LocalTZA] from UTC. *)

Definition msPerDay : Z := 86400000.

Definition DaysInYear (y : Z) : Z :=
  if negb (y mod 4 =? 0)%Z then 365
  else if negb (y mod 100 =? 0)%Z then 366
  else if negb (y mod 400 =? 0)%Z then 365
  else 366.

Definition DayFromYear (y : Z) : Z :=
  365 * (y - 1970) + (y - 1969) / 4 - (y - 1901) / 100 + (y - 1601) / 400.

Definition InLeapYear (y : Z) : Z := if (DaysInYear y =? 366)%Z then 1 else 0.

(** Number of days of the year [y] that precede its month [m] (0 = January). *)
Definition DaysBeforeMonth (y m : Z) : Z :=
  let leap := InLeapYear y in
  match m with
  | 0 => 0
  | 1 => 31
  | 2 => 59 + leap
  | 3 => 90 + leap
  | 4 => 120 + leap
  | 5 => 151 + leap
  | 6 => 181 + leap
  | 7 => 212 + leap
  | 8 => 243 + leap
  | 9 => 273 + leap
  | 10 => 304 + leap
  | _ => 334 + leap
  end%Z.

(** Number of days of month [m] (0 = January) of year [y]. *)
Definition DaysInMonth (y m : Z) : Z :=
  match m with
  | 1 => 28 + InLeapYear y
  | 3 | 5 | 8 | 10 => 30
  | _ => 31
  end%Z.

Definition MakeFullYear (year : number) : number :=
  match year with
  | NaN => NaN
  | Num y => if (0 <=? y)%Z && (y <=? 99)%Z then Num (1900 + y) else Num y
  end.

(** [MakeDay(year, month, date)]: the day number of the first day of the
    month, found [month / 12] years away from [year], plus [date - 1]. *)
Definition MakeDay (year month date : number) : number :=
  match year, month, date with
  | Num y, Num m, Num dt =>
      let ym := (y + m / 12)%Z in
      let mn := (m mod 12)%Z in
      Num (DayFromYear ym + DaysBeforeMonth ym mn + dt - 1)
  | _, _, _ => NaN
  end.

Definition MakeTime (hour min sec ms : Z) : number :=
  Num (hour * 3600000 + min * 60000 + sec * 1000 + ms).

Definition MakeDate (day time : number) : number :=
  match day, time with
  | Num d, Num t => Num (d * msPerDay + t)
  | _, _ => NaN
  end.

Definition TimeClip (t : number) : number :=
  match t with
  | NaN => NaN
  | Num v => if (Z.abs v <=? 8640000000000000)%Z then Num v else NaN
  end.

Section LocalTime.

Variable LocalTZA : Z.

Definition UTC (t : number) : number :=
  match t with NaN => NaN | Num v => Num (v - LocalTZA) end.


(** A Date object is its time value. *)
Record Date := mkDate { getTime : number }.

(** [new Date(year, monthIndex, day)] *)
Definition new_Date (year monthIndex day : number) : Date :=
  let yr := MakeFullYear year in
  let finalDate := MakeDate (MakeDay yr monthIndex day) (MakeTime 0 0 0 0) in
  mkDate (TimeClip (UTC finalDate)).

(** [a >= b] on Date objects compares the time values. *)
Definition Date_ge (a b : Date) : bool := ge (getTime a) (getTime b).

End LocalTime.


(** The largest [y], at most [start], with [DayFromYear y <= day]. *)
Fixpoint year_at_or_before (fuel : nat) (start day : Z) : Z :=
  match fuel with
  | O => start
  | S fuel' =>
      if (DayFromYear start <=? day)%Z then start
      else year_at_or_before fuel' (start - 1) day
  end.

(** The year of a day number: the largest year whose first day is not after
    it. The search starts one year above the estimate [1970 + day / 365] and
    is exact for the days of the years 1970 to 2200. *)
Definition YearFromDay (day : Z) : Z :=
  year_at_or_before 4 (1970 + day / 365 + 1) day.

(** The month of a day number, 0 = January. *)
Definition MonthFromDay (day : Z) : Z :=
  let y := YearFromDay day in
  let d := (day - DayFromYear y)%Z in
  if (d <? DaysBeforeMonth y 1)%Z then 0
  else if (d <? DaysBeforeMonth y 2)%Z then 1
  else if (d <? DaysBeforeMonth y 3)%Z then 2
  else if (d <? DaysBeforeMonth y 4)%Z then 3
  else if (d <? DaysBeforeMonth y 5)%Z then 4
  else if (d <? DaysBeforeMonth y 6)%Z then 5
  else if (d <? DaysBeforeMonth y 7)%Z then 6
  else if (d <? DaysBeforeMonth y 8)%Z then 7
  else if (d <? DaysBeforeMonth y 9)%Z then 8
  else if (d <? DaysBeforeMonth y 10)%Z then 9
  else if (d <? DaysBeforeMonth y 11)%Z then 10
  else 11.

(** The day of the month of a day number, from 1. *)
Definition DateFromDay (day : Z) : Z :=
  let y := YearFromDay day in
  (day - DayFromYear y - DaysBeforeMonth y (MonthFromDay day) + 1)%Z.





(** ** Exceptions *)

(** What a [throw] can carry: an [Error] with its message, or anything else. *)
Inductive thrown := ErrorObject (message : string) | NotAnError.

(** A computation that returns or throws. *)
Inductive completion (A : Type) :=
| Return (a : A)
| Throw (e : thrown).

Arguments Return {A} a.
Arguments Throw {A} e.

(** An offset from UTC that a time zone can have: less than a day. *)
Definition plausible_offset (LocalTZA : Z) : Prop :=
  (Z.abs LocalTZA < msPerDay)%Z.

End JS.

(* ================================================================== *)
(** * Base58 text, the form of a wallet address *)
(* ================================================================== *)

Module Base58.

(** The Bitcoin alphabet: digits and letters without [0], [O], [I], [l]. *)
Definition alphabet : string :=
  "123456789ABCDEFGHJKLMNPQRSTUVWXYZabcdefghijkmnopqrstuvwxyz".

Definition is_base58 (c : ascii) : bool :=
  existsb (Ascii.eqb c) (list_ascii_of_string alphabet).

(** A base58 string of 32 to 44 characters. *)
Definition is_address (s : string) : bool :=
  (32 <=? String.length s) && (String.length s <=? 44)
  && JS.every is_base58 s.

End Base58.

(* ================================================================== *)
(** * Data model of the trade report *)
(* ================================================================== *)

Module Model.

(** Modelled from the spec: the opaque identifiers of section 3, an account
    key and a transaction signature ([output.ts], which handles them, is not
    among the sources). *)
Definition Address := string.

Definition Signature := string.

Inductive EventKind :=
| Open | Increase | Decrease | InstantIncrease | InstantDecrease
| Liquidate | RequestCreated | RequestCancelled.

Inductive Side := Long | Short.

Inductive RequestType := Market | Limit | StopLoss | TakeProfit | Liquidation.

(** Modelled from the spec: the decoded program event of section 3, absent
    from the sources. Amounts are fixed-point integers in the exchange's
    native decimals; the size delta is a magnitude, signed by the kind of
    the event. *)
Record RawEvent := mkEvent {
  kind : EventKind;
  position_key : Address;
  timestamp : Z;
  signature : Signature;
  side : Side;
  size_delta : Z;
  price : Z;
  fee : Z;
  collateral_delta : Z;
  request_type : RequestType
}.

Inductive Status := Active | Closed | Liquidated.

Inductive Warning := InconsistentLifecycle.

(** Modelled from the spec: the position lifecycle of section 3, absent
    from the sources, with the size and collateral at the exposure peak for
    the leverage and the sum of the realized contributions for the PnL. *)
Record PositionLifecycle := mkLifecycle {
  lc_key : Address;
  lc_events : list RawEvent;
  lc_status : Status;
  lc_direction : Side;
  lc_size : Z;
  lc_collateral : Z;
  lc_peak_size : Z;
  lc_peak_collateral : Z;
  lc_entry_price : Z;
  lc_exit_price : option Z;
  lc_pnl_contributions : Z;
  lc_total_fees : Z;
  lc_entry_time : Z;
  lc_exit_time : option Z;
  lc_warnings : list Warning
}.

(** Modelled from the spec: the trade report of sections 3 and 6, the JSON
    that [analyzeTradeHistoryJson] resolves to. *)
Record TradeReport := mkReport {
  wallet_address : string;
  sync_timestamp : Z;
  positions : list PositionLifecycle
}.

End Model.

(* ================================================================== *)
(** * HTTP responses and the one external call of the handlers *)
(* ================================================================== *)

Module Http.

Import JS Model.

(** The JSON body of a response: [{ error: ... }] or the trade report. *)
Inductive json :=
| ErrorJson (error : string)
| TradesJson (trades : TradeReport).

Record response := mkResponse {
  status : Z;
  body : json;
  headers : list (string * string)
}.

(** What a handler does with a request: it answers at once, or it awaits
    [analyzeTradeHistoryJson(fromDate, wallet, toDate)] and answers from the
    way that call completes. *)
Inductive handling :=
| Respond (r : response)
| Await_analyzeTradeHistoryJson
    (fromDate : option string) (wallet : string) (toDate : option string)
    (k : completion TradeReport -> response).

(** The arguments of one call of [analyzeTradeHistoryJson]. *)
Definition call := (option string * string * option string)%type.

(** The calls of [analyzeTradeHistoryJson] a handling makes. *)
Definition calls (h : handling) : list call :=
  match h with
  | Respond _ => []
  | Await_analyzeTradeHistoryJson fromDate wallet toDate _ =>
      [(fromDate, wallet, toDate)]
  end.

(** The response, given how [analyzeTradeHistoryJson] behaves. *)
Definition run
    (analyze : option string -> string -> option string
               -> completion TradeReport)
    (h : handling) : response :=
  match h with
  | Respond r => r
  | Await_analyzeTradeHistoryJson fromDate wallet toDate k =>
      k (analyze fromDate wallet toDate)
  end.

(** Control flow inside a [try] block: go on with a value, [return] a
    response, or [throw]. *)
Inductive flow (A : Type) :=
| Next (a : A)
| Exit (r : response)
| Raise (e : thrown).

Arguments Next {A} a.
Arguments Exit {A} r.
Arguments Raise {A} e.

Definition bind {A B : Type} (m : flow A) (k : A -> flow B) : flow B :=
  match m with
  | Next a => k a
  | Exit r => Exit r
  | Raise e => Raise e
  end.

(** A call outside any inner [try]: its exception propagates. *)
Definition call_ {A : Type} (c : completion A) : flow A :=
  match c with
  | Return a => Next a
  | Throw e => Raise e
  end.

(** [error instanceof Error ? error.message : 'Unknown error'] *)
Definition message_or_unknown (e : thrown) : string :=
  match e with
  | ErrorObject message => message
  | NotAnError => "Unknown error"
  end.

End Http.

Declare Scope flow_scope.
Delimit Scope flow_scope with flow.
Notation "x <- m ;; k" := (Http.bind m (fun x => k))
  (at level 61, m at next level, right associativity) : flow_scope.
Notation "m ;; k" := (Http.bind m (fun _ => k))
  (at level 61, right associativity) : flow_scope.

(* ================================================================== *)
(** * App Router: [app/api/trades/[wallet]/route.ts] *)
(* ================================================================== *)

Module AppRouter.

Import JS Model Http.
Local Open Scope string_scope.
Local Open Scope flow_scope.

(** [/^[1-9A-HJ-NP-Za-km-z]{32,44}$/.test(wallet)] *)
Definition validateWalletAddress (wallet : string) : bool :=
  test (Repeat (Class [("1", "9"); ("A", "H"); ("J", "N"); ("P", "Z");
                       ("a", "k"); ("m", "z")]%char) 32 44)
       wallet.

(** [/^\d{1,2}\.\d{1,2}\.\d{4}$/.test(date)] *)
Definition validateDateFormat (date : string) : bool :=
  test (Cat (Repeat digit 1 2)
         (Cat dot (Cat (Repeat digit 1 2) (Cat dot (Repeat digit 4 4)))))
       date.

Section Route.

Variable LocalTZA : Z.

Definition parseAndValidateDate (dateString : string) : completion Date :=
  let parts := map Number (split "." dateString) in
  let day := element parts 0 in
  let month := element parts 1 in
  let year := element parts 2 in
  if lt day (Num 1) || gt day (Num 31)
  then Throw (ErrorObject "Invalid day")
  else if lt month (Num 1) || gt month (Num 12)
  then Throw (ErrorObject "Invalid month")
  else if lt year (Num 2020) || gt year (Num 2030)
  then Throw (ErrorObject "Invalid year")
  else
    let date := new_Date LocalTZA year (sub month (Num 1)) day in
    if isNaN (getTime date) then Throw (ErrorObject "Invalid date")
    else Return date.

(** [NextResponse.json({ error }, { status })] *)
Definition error_response (error : string) (status : Z) : response :=
  mkResponse status (ErrorJson error) [].

(** The outer [catch] block, its [console.error] aside. *)
Definition on_error (error : thrown) : response :=
  match error with
  | ErrorObject message =>
      if includes message "rate limit" || includes message "429"
      then error_response "Rate limited. Please try again later." 429
      else if includes message "Invalid"
      then error_response message 400
      else error_response "Internal server error" 500
  | NotAnError => error_response "Internal server error" 500
  end.

(** The statements of the [try] block up to the call of
    [analyzeTradeHistoryJson]; the result is the pair [fromDate], [toDate]. *)
Definition validate (wallet : string) (from_date to_date : option string)
  : flow (option string * option string) :=
  (if negb (truthy wallet)
   then Exit (error_response "Wallet address is required" 400)
   else Next tt) ;;
  (if negb (validateWalletAddress wallet)
   then Exit (error_response "Invalid wallet address format" 400)
   else Next tt) ;;
  fromDate <-
    match from_date with
    | Some s =>
        if truthy s then
          if negb (validateDateFormat s)
          then Exit (error_response "Invalid from_date format. Use DD.MM.YYYY"
                                    400)
          else match parseAndValidateDate s with
               | Return _ => Next (Some s)
               | Throw error =>
                   Exit (error_response
                           ("Invalid from_date: " ++ message_or_unknown error)
                           400)
               end
        else Next None
    | None => Next None
    end ;;
  toDate <-
    match to_date with
    | Some s =>
        if truthy s then
          if negb (validateDateFormat s)
          then Exit (error_response "Invalid to_date format. Use DD.MM.YYYY"
                                    400)
          else match parseAndValidateDate s with
               | Return _ => Next (Some s)
               | Throw error =>
                   Exit (error_response
                           ("Invalid to_date: " ++ message_or_unknown error)
                           400)
               end
        else Next None
    | None => Next None
    end ;;
  match fromDate, toDate with
  | Some f, Some t =>
      if truthy f && truthy t then
        from <- call_ (parseAndValidateDate f) ;;
        to <- call_ (parseAndValidateDate t) ;;
        if Date_ge from to
        then Exit (error_response "from_date must be earlier than to_date" 400)
        else Next tt
      else Next tt
  | _, _ => Next tt
  end ;;
  Next (fromDate, toDate).

(** [GET(request, { params })], with [wallet = params.wallet] and
    [from_date], [to_date] the values of [searchParams.get], [None] for
    [null]. *)
Definition GET (wallet : string) (from_date to_date : option string)
  : handling :=
  match validate wallet from_date to_date with
  | Exit r => Respond r
  | Raise error => Respond (on_error error)
  | Next (fromDate, toDate) =>
      Await_analyzeTradeHistoryJson fromDate wallet toDate
        (fun outcome =>
           match outcome with
           | Return trades =>
               mkResponse 200 (TradesJson trades)
                 [("Cache-Control",
                   "public, s-maxage=60, stale-while-revalidate=300")]
           | Throw error => on_error error
           end)
  end.

End Route.

End AppRouter.

(* ================================================================== *)
(** * Pages Router: [pages/api/trades/[wallet].ts] *)
(* ================================================================== *)

Module PagesRouter.

Import JS Model Http.
Local Open Scope string_scope.
Local Open Scope flow_scope.

(** A value of [req.query]: [string | string[] | undefined], with [None]
    for [undefined]. *)
Inductive query_value :=
| QString (s : string)
| QArray (items : list string).

(** Truthiness of a query value: an array is truthy, even when empty. *)
Definition truthy_query (q : option query_value) : bool :=
  match q with
  | None => false
  | Some (QString s) => truthy s
  | Some (QArray _) => true
  end.

(** [/^[1-9A-HJ-NP-Za-km-z]{32,44}$/.test(wallet)] *)
Definition validateWalletAddress (wallet : string) : bool :=
  test (Repeat (Class [("1", "9"); ("A", "H"); ("J", "N"); ("P", "Z");
                       ("a", "k"); ("m", "z")]%char) 32 44)
       wallet.

(** [/^\d{1,2}\.\d{1,2}\.\d{4}$/.test(date)] *)
Definition validateDateFormat (date : string) : bool :=
  test (Cat (Repeat digit 1 2)
         (Cat dot (Cat (Repeat digit 1 2) (Cat dot (Repeat digit 4 4)))))
       date.

Section Route.

Variable LocalTZA : Z.

Definition parseAndValidateDate (dateString : string) : completion Date :=
  let parts := map Number (split "." dateString) in
  let day := element parts 0 in
  let month := element parts 1 in
  let year := element parts 2 in
  if lt day (Num 1) || gt day (Num 31)
  then Throw (ErrorObject "Invalid day")
  else if lt month (Num 1) || gt month (Num 12)
  then Throw (ErrorObject "Invalid month")
  else if lt year (Num 2020) || gt year (Num 2030)
  then Throw (ErrorObject "Invalid year")
  else
    let date := new_Date LocalTZA year (sub month (Num 1)) day in
    if isNaN (getTime date) then Throw (ErrorObject "Invalid date")
    else Return date.

(** [res.status(status).json({ error })] *)
Definition error_response (status : Z) (error : string) : response :=
  mkResponse status (ErrorJson error) [].

(** The [catch] block, its [console.error] aside. *)
Definition on_error (error : thrown) : response :=
  match error with
  | ErrorObject message =>
      if includes message "rate limit" || includes message "429"
      then error_response 429 "Rate limited. Please try again later."
      else if includes message "Invalid"
      then error_response 400 message
      else error_response 500 "Internal server error"
  | NotAnError => error_response 500 "Internal server error"
  end.

(** The statements of the [try] block up to the call of
    [analyzeTradeHistoryJson]; the result is the validated [wallet] with
    [fromDate] and [toDate]. *)
Definition validate (wallet from_date to_date : option query_value)
  : flow (string * option string * option string) :=
  wallet <-
    match wallet with
    | Some (QString w) =>
        if negb (truthy w)
        then Exit (error_response 400 "Wallet address is required")
        else Next w
    | Some (QArray _) | None =>
        Exit (error_response 400 "Wallet address is required")
    end ;;
  (if negb (validateWalletAddress wallet)
   then Exit (error_response 400 "Invalid wallet address format")
   else Next tt) ;;
  fromDate <-
    (if truthy_query from_date then
       match from_date with
       | Some (QString s) =>
           if negb (validateDateFormat s)
           then Exit (error_response 400
                        "Invalid from_date format. Use DD.MM.YYYY")
           else match parseAndValidateDate s with
                | Return _ => Next (Some s)
                | Throw error =>
                    Exit (error_response 400
                            ("Invalid from_date: "
                             ++ message_or_unknown error))
                end
       | Some (QArray _) | None =>
           Exit (error_response 400 "Invalid from_date format. Use DD.MM.YYYY")
       end
     else Next None) ;;
  toDate <-
    (if truthy_query to_date then
       match to_date with
       | Some (QString s) =>
           if negb (validateDateFormat s)
           then Exit (error_response 400
                        "Invalid to_date format. Use DD.MM.YYYY")
           else match parseAndValidateDate s with
                | Return _ => Next (Some s)
                | Throw error =>
                    Exit (error_response 400
                            ("Invalid to_date: " ++ message_or_unknown error))
                end
       | Some (QArray _) | None =>
           Exit (error_response 400 "Invalid to_date format. Use DD.MM.YYYY")
       end
     else Next None) ;;
  match fromDate, toDate with
  | Some f, Some t =>
      if truthy f && truthy t then
        from <- call_ (parseAndValidateDate f) ;;
        to <- call_ (parseAndValidateDate t) ;;
        if Date_ge from to
        then Exit (error_response 400 "from_date must be earlier than to_date")
        else Next tt
      else Next tt
  | _, _ => Next tt
  end ;;
  Next (wallet, fromDate, toDate).

(** [handler(req, res)], with [method = req.method] and the three entries of
    [req.query]. The response is what [res] has been given when the handler
    finishes. *)
Definition handler (method : option string)
    (wallet from_date to_date : option query_value) : handling :=
  if negb (match method with
           | Some m => String.eqb m "GET"
           | None => false
           end)
  then Respond (error_response 405 "Method not allowed")
  else
    match validate wallet from_date to_date with
    | Exit r => Respond r
    | Raise error => Respond (on_error error)
    | Next (wallet, fromDate, toDate) =>
        Await_analyzeTradeHistoryJson fromDate wallet toDate
          (fun outcome =>
             match outcome with
             | Return trades =>
                 mkResponse 200 (TradesJson trades)
                   [("Cache-Control",
                     "public, s-maxage=60, stale-while-revalidate=300")]
             | Throw error => on_error error
             end)
    end.

End Route.

End PagesRouter.

(* ================================================================== *)
(** * RateLimitedFetcher *)
(* ================================================================== *)

Module RateLimitedFetcher.

(** Modelled from the spec: the fetcher of section 4.1, with the retry policy
    object of section 9 and the failure taxonomy of section 7 ([output.ts],
    where the fetcher lives, is not among the sources). The requests of a
    batch are sent one after the other in batch order, which is one of the
    schedules any concurrency limit allows; the limit itself, which only
    bounds how many requests are in flight, does not appear. *)
Inductive Failure := RateLimited | TransientNetwork | NotFound | Malformed.

(** Modelled from the spec: the retriable-error predicate of the fetcher,
    which is not among the sources. Rate limits and transient network
    failures are retried; a malformed request or a missing item fails
    fast. *)
Definition is_retriable (f : Failure) : bool :=
  match f with
  | RateLimited | TransientNetwork => true
  | NotFound | Malformed => false
  end.

(** Modelled from the spec: the retry policy object of section 9, absent
    from the sources: maximum attempts, base delay, backoff factor and
    retriable-error predicate. *)
Record RetryPolicy := mkPolicy {
  max_attempts : nat;
  base_delay : Z;
  backoff_factor : Z;
  retriable : Failure -> bool
}.

(** Modelled from the spec: the default of the absent fetcher, three
    attempts. *)
Definition default_policy (base factor : Z) : RetryPolicy :=
  mkPolicy 3 base factor is_retriable.

(** A pause of the fetcher: the backoff before a retry, or the minimum
    delay between two requests of a batch. Durations in milliseconds. *)
Inductive Pause := Backoff (ms : Z) | Spacing (ms : Z).

(** [k] delays growing by [factor] from [delay]. *)
Fixpoint geometric (delay factor : Z) (k : nat) : list Z :=
  match k with
  | O => []
  | S k' => delay :: geometric (delay * factor) factor k'
  end.

(** The pauses of [k] retries under a policy. *)
Definition backoff_schedule (policy : RetryPolicy) (k : nat) : list Pause :=
  map Backoff (geometric (base_delay policy) (backoff_factor policy) k).

Section Fetcher.

Variables Request Data Provider : Type.

(** One network call: the provider answers with the data or a failure, and
    is a provider that has seen that call. *)
Variable send : Provider -> Request -> (Data + Failure) * Provider.

(** The network as the fetcher sees it: the provider, the number of calls
    made and the pauses taken so far. *)
Record World := mkWorld {
  provider : Provider;
  sent : nat;
  pauses : list Pause
}.

(** A computation that talks to the network. *)
Definition net (A : Type) : Type := World -> A * World.

Definition ret {A : Type} (a : A) : net A := fun w => (a, w).

Definition bind {A B : Type} (m : net A) (k : A -> net B) : net B :=
  fun w => let (a, w') := m w in k a w'.

Definition call (r : Request) : net (Data + Failure) :=
  fun w =>
    let (answer, p) := send (provider w) r in
    (answer, mkWorld p (S (sent w)) (pauses w)).

Definition sleep (p : Pause) : net unit :=
  fun w => (tt, mkWorld (provider w) (sent w) (pauses w ++ [p])).

(** What the fetcher hands back for one request. *)
Inductive ItemResult :=
| Fetched (d : Data)
| Failed (f : Failure).

(** Modelled from the spec: the retry loop of the absent fetcher. One
    attempt, followed on a retriable failure by a backoff and the next
    attempt while retries are left; the delay is multiplied by the factor of
    the policy from one retry to the next; a failure that is not retriable
    ends the loop at once. *)
Fixpoint attempt (policy : RetryPolicy) (retries_left : nat) (delay : Z)
    (r : Request) : net ItemResult :=
  bind (call r) (fun answer =>
    match answer with
    | inl d => ret (Fetched d)
    | inr f =>
        match retries_left with
        | S k =>
            if retriable policy f then
              bind (sleep (Backoff delay)) (fun _ =>
                attempt policy k (delay * backoff_factor policy) r)
            else ret (Failed f)
        | O => ret (Failed f)
        end
    end).

(** Modelled from the spec: a request of the absent fetcher under the retry
    policy, at most [max_attempts] attempts. *)
Definition fetch (policy : RetryPolicy) (r : Request) : net ItemResult :=
  attempt policy (max_attempts policy - 1) (base_delay policy) r.

(** Modelled from the spec: [execute] of the absent fetcher. Every request
    of the batch goes under the retry policy, with a minimum delay between
    two requests, and gets one result, in batch order. *)
Fixpoint execute (policy : RetryPolicy) (min_delay : Z)
    (batch : list Request) : net (list ItemResult) :=
  match batch with
  | [] => ret []
  | r :: rest =>
      bind (fetch policy r) (fun x =>
        bind (match rest with
              | [] => ret tt
              | _ :: _ => sleep (Spacing min_delay)
              end) (fun _ =>
          bind (execute policy min_delay rest) (fun xs =>
            ret (x :: xs))))
  end.

(** The data of the requests that succeeded, in batch order. *)
Definition fetched (results : list ItemResult) : list Data :=
  flat_map (fun x => match x with Fetched d => [d] | Failed _ => [] end)
           results.

End Fetcher.

Arguments Fetched {Data} d.
Arguments Failed {Data} f.
Arguments ret {Provider A} a.
Arguments bind {Provider A B} m k.

End RateLimitedFetcher.

(* ================================================================== *)
(** * List operations shared by the pipeline stages *)
(* ================================================================== *)

Module ListOps.

Section Sorting.

Variable A : Type.
Variable le : A -> A -> bool.

(** Insertion into a sorted list that keeps [x] after the elements it ties
    with. *)
Fixpoint insert (x : A) (l : list A) : list A :=
  match l with
  | [] => [x]
  | y :: l' => if le y x then y :: insert x l' else x :: y :: l'
  end.

(** The stable sort by [le] used wherever the spec asks for a stable order:
    elements that tie keep their order of arrival. *)
Definition sort (l : list A) : list A :=
  fold_left (fun sorted x => insert x sorted) l [].

End Sorting.

Section Dedup.

Variable A : Type.
Variable key : A -> string.

(** Keeps the first element of every key not yet [seen]. *)
Fixpoint dedup (seen : list string) (l : list A) : list A :=
  match l with
  | [] => []
  | x :: l' =>
      if existsb (String.eqb (key x)) seen then dedup seen l'
      else x :: dedup (key x :: seen) l'
  end.

End Dedup.

End ListOps.

(* ================================================================== *)
(** * The RPC provider *)
(* ================================================================== *)

Module Rpc.

Import Model.

(** Modelled from the spec: the RPC provider interface of section 6, an
    external collaborator of which the sources hold no code. A raw
    transaction body and the data of an account are opaque to the pipeline. *)
Record SignatureInfo := mkSignatureInfo {
  sig : Signature;
  block_time : Z
}.

Record Transaction := mkTransaction {
  tx_signature : Signature;
  tx_body : string
}.

Inductive Request :=
| AccountLookup (a : Address)
| SignaturesForAddress (a : Address) (before : option Signature) (limit : nat)
| TransactionBody (s : Signature).

Inductive Response :=
| AccountInfo (data : string)
| SignaturePage (items : list SignatureInfo)
| Body (tx : Transaction).

End Rpc.

(* ================================================================== *)
(** * The retrieval-and-reconstruction pipeline *)
(* ================================================================== *)

Module Pipeline.

Import Model Rpc RateLimitedFetcher.

Declare Scope net_scope.
Delimit Scope net_scope with net.
Notation "x <- m ;; k" := (bind m (fun x => k))
  (at level 61, m at next level, right associativity) : net_scope.
Local Open Scope net_scope.

(** ** LifecycleReconstructor *)

(** The reconstructor of section 4.5 of the spec, with the lifecycle of its
    section 3 and the [InconsistentLifecycle] warning of its section 7. Where
    the spec names no transition for an event, the event is skipped: an event
    that cannot open a lifecycle while none is open, and an [Open] or a
    request event while one is active. A decrease that brings the size to
    zero and is flagged as a liquidation ends the lifecycle as liquidated. *)

(** Modelled from the spec: the order of the absent reconstructor, by
    timestamp with the signature breaking ties. *)
Definition event_le (a b : RawEvent) : bool :=
  (timestamp a <? timestamp b)%Z
  || ((timestamp a =? timestamp b)%Z && String.leb (signature a) (signature b)).

(** The events that take a position from Uninitialized to Active. *)
Definition opens (e : RawEvent) : bool :=
  match kind e with
  | Open | InstantIncrease => true
  | _ => false
  end.

(** The events that add to the size of an active position. *)
Definition increases (e : RawEvent) : bool :=
  match kind e with
  | Increase | InstantIncrease => true
  | _ => false
  end.

(** The events that take off the size of an active position. *)
Definition decreases (e : RawEvent) : bool :=
  match kind e with
  | Decrease | InstantDecrease => true
  | _ => false
  end.

(** The liquidation events. *)
Definition liquidates (e : RawEvent) : bool :=
  match kind e with
  | Liquidate => true
  | _ => false
  end.

(** An event whose request type marks it as a liquidation. *)
Definition flagged_liquidation (e : RawEvent) : bool :=
  match request_type e with
  | Liquidation => true
  | _ => false
  end.

(** The size delta of an event with its sign: what it adds to the size. *)
Definition signed_delta (e : RawEvent) : Z :=
  match kind e with
  | Open | Increase | InstantIncrease => size_delta e
  | Decrease | InstantDecrease | Liquidate => - size_delta e
  | RequestCreated | RequestCancelled => 0
  end.

Definition side_sign (s : Side) : Z :=
  match s with Long => 1 | Short => -1 end.

(** The first event of a lifecycle establishes entry price, time, side and
    collateral. *)
Definition enter (e : RawEvent) : PositionLifecycle :=
  {| lc_key := position_key e;
     lc_events := [e];
     lc_status := Active;
     lc_direction := side e;
     lc_size := size_delta e;
     lc_collateral := collateral_delta e;
     lc_peak_size := size_delta e;
     lc_peak_collateral := collateral_delta e;
     lc_entry_price := price e;
     lc_exit_price := None;
     lc_pnl_contributions := 0;
     lc_total_fees := fee e;
     lc_entry_time := timestamp e;
     lc_exit_time := None;
     lc_warnings := [] |}.

(** An increase: running size, size-weighted average entry price, fees, and
    the exposure peak with the collateral at that point. *)
Definition increase (lc : PositionLifecycle) (e : RawEvent)
  : PositionLifecycle :=
  let size := (lc_size lc + size_delta e)%Z in
  let collateral := (lc_collateral lc + collateral_delta e)%Z in
  let higher := (lc_peak_size lc <? size)%Z in
  {| lc_key := lc_key lc;
     lc_events := lc_events lc ++ [e];
     lc_status := Active;
     lc_direction := lc_direction lc;
     lc_size := size;
     lc_collateral := collateral;
     lc_peak_size := if higher then size else lc_peak_size lc;
     lc_peak_collateral := if higher then collateral
                           else lc_peak_collateral lc;
     lc_entry_price :=
       ((lc_size lc * lc_entry_price lc + size_delta e * price e) / size)%Z;
     lc_exit_price := None;
     lc_pnl_contributions := lc_pnl_contributions lc;
     lc_total_fees := (lc_total_fees lc + fee e)%Z;
     lc_entry_time := lc_entry_time lc;
     lc_exit_time := None;
     lc_warnings := lc_warnings lc |}.

(** The realized contribution of reducing the size by the delta of [e]:
    the price delta against the running average entry price. *)
Definition contribution (lc : PositionLifecycle) (e : RawEvent) : Z :=
  ((price e - lc_entry_price lc) * size_delta e
   * side_sign (lc_direction lc))%Z.

(** An event that reduces the size, leaving the lifecycle in [status]. *)
Definition reduce (status : Status) (lc : PositionLifecycle) (e : RawEvent)
  : PositionLifecycle :=
  let size := (lc_size lc - size_delta e)%Z in
  let ends := match status with Active => false | _ => true end in
  {| lc_key := lc_key lc;
     lc_events := lc_events lc ++ [e];
     lc_status := status;
     lc_direction := lc_direction lc;
     lc_size := size;
     lc_collateral := (lc_collateral lc - collateral_delta e)%Z;
     lc_peak_size := lc_peak_size lc;
     lc_peak_collateral := lc_peak_collateral lc;
     lc_entry_price := lc_entry_price lc;
     lc_exit_price := if ends then Some (price e) else None;
     lc_pnl_contributions := (lc_pnl_contributions lc + contribution lc e)%Z;
     lc_total_fees := (lc_total_fees lc + fee e)%Z;
     lc_entry_time := lc_entry_time lc;
     lc_exit_time := if ends then Some (timestamp e) else None;
     lc_warnings :=
       if ends && negb (size =? 0)%Z
       then lc_warnings lc ++ [InconsistentLifecycle]
       else lc_warnings lc |}.

(** Modelled from the spec: the transitions of the state machine of section
    4.5, whose code is not among the sources. The state is [None] for
    Uninitialized, or the lifecycle with its status. The transition
    [transition_forced_close] completes the spec: a decrease to zero that is
    flagged as a liquidation. *)
Inductive transition
  : option PositionLifecycle -> RawEvent -> PositionLifecycle -> Prop :=
| transition_open e :
    opens e = true ->
    transition None e (enter e)
| transition_increase lc e :
    lc_status lc = Active -> increases e = true ->
    (lc_size lc + size_delta e)%Z <> 0%Z ->
    transition (Some lc) e (increase lc e)
| transition_decrease lc e :
    lc_status lc = Active -> decreases e = true ->
    (lc_size lc - size_delta e)%Z <> 0%Z ->
    transition (Some lc) e (reduce Active lc e)
| transition_close lc e :
    lc_status lc = Active -> decreases e = true ->
    (lc_size lc - size_delta e)%Z = 0%Z ->
    flagged_liquidation e = false ->
    transition (Some lc) e (reduce Closed lc e)
| transition_forced_close lc e :
    lc_status lc = Active -> decreases e = true ->
    (lc_size lc - size_delta e)%Z = 0%Z ->
    flagged_liquidation e = true ->
    transition (Some lc) e (reduce Liquidated lc e)
| transition_liquidate lc e :
    lc_status lc = Active -> liquidates e = true ->
    transition (Some lc) e (reduce Liquidated lc e).

(** Modelled from the spec: the state machine of section 4.5 as a function,
    the transition an event takes from a state, if it has one. *)
Definition step (state : option PositionLifecycle) (e : RawEvent)
  : option PositionLifecycle :=
  match state with
  | None => if opens e then Some (enter e) else None
  | Some lc =>
      match lc_status lc with
      | Active =>
          if increases e then
            if (lc_size lc + size_delta e =? 0)%Z then None
            else Some (increase lc e)
          else if decreases e then
            if (lc_size lc - size_delta e =? 0)%Z then
              if flagged_liquidation e then Some (reduce Liquidated lc e)
              else Some (reduce Closed lc e)
            else Some (reduce Active lc e)
          else if liquidates e then Some (reduce Liquidated lc e)
          else None
      | Closed | Liquidated => None
      end
  end.

(** Closed and Liquidated are terminal. *)
Definition terminal (lc : PositionLifecycle) : bool :=
  match lc_status lc with
  | Active => false
  | Closed | Liquidated => true
  end.

(** The lifecycles of one position key: the finished instances in order,
    and the instance that is still open, if any. *)
Record Group := mkGroup {
  finished : list PositionLifecycle;
  current : option PositionLifecycle
}.

Definition empty_group : Group := mkGroup [] None.

(** Modelled from the spec: folding one event into the lifecycles of its
    key, as the absent reconstructor does. A lifecycle that becomes terminal
    is finished and never touched again: the key is Uninitialized for the
    next instance. An event without transition is skipped. *)
Definition feed (g : Group) (e : RawEvent) : Group :=
  match step (current g) e with
  | Some lc =>
      if terminal lc then mkGroup (finished g ++ [lc]) None
      else mkGroup (finished g) (Some lc)
  | None => g
  end.

(** The lifecycles of a group: the finished ones, then the open one. *)
Definition lifecycles (g : Group) : list PositionLifecycle :=
  finished g ++ match current g with Some lc => [lc] | None => [] end.

(** The events of one position key, in timestamp order. *)
Definition events_of (key : Address) (events : list RawEvent)
  : list RawEvent :=
  ListOps.sort event_le
    (filter (fun e => String.eqb (position_key e) key) events).

(** The position keys of the events, each once, in order of first
    appearance. *)
Definition position_keys (events : list RawEvent) : list Address :=
  map position_key (ListOps.dedup position_key [] events).

(** Modelled from the spec: [reconstruct] of section 4.5, absent from the
    sources. Group by position key, sort each group, run the state machine
    over it. *)
Definition reconstruct (events : list RawEvent) : list PositionLifecycle :=
  flat_map
    (fun key => lifecycles (fold_left feed (events_of key events) empty_group))
    (position_keys events).

(** The signed size deltas of a sequence of events, summed. *)
Definition sum_deltas (events : list RawEvent) : Z :=
  fold_right (fun e acc => (signed_delta e + acc)%Z) 0%Z events.

(** The running size of an active lifecycle is accounted for: it is the
    size at entry plus the signed deltas of the events folded since. *)
Definition running_size_accounted (lc : PositionLifecycle) : Prop :=
  lc_status lc = Active
  /\ exists entry later,
       lc_events lc = entry :: later
       /\ opens entry = true
       /\ lc_size lc = (size_delta entry + sum_deltas later)%Z.

(** The size of a lifecycle by its status. An active lifecycle has its
    running size accounted for. A closed one comes from such a lifecycle by
    a decrease that leaves exactly zero. A liquidated one comes from such a
    lifecycle by an event whose delta is taken off the running size, and a
    remainder other than zero is reported by the warning. *)
Definition size_invariant (lc : PositionLifecycle) : Prop :=
  match lc_status lc with
  | Active => running_size_accounted lc
  | Closed =>
      exists before last,
        running_size_accounted before
        /\ lc = reduce Closed before last
        /\ decreases last = true
        /\ lc_size lc = 0%Z
  | Liquidated =>
      exists before last,
        running_size_accounted before
        /\ lc = reduce Liquidated before last
        /\ lc_size lc = (lc_size before - size_delta last)%Z
        /\ (lc_size lc <> 0%Z -> In InconsistentLifecycle (lc_warnings lc))
  end.

(** A group whose lifecycles all satisfy the size invariant. *)
Definition sizes_hold (g : Group) : Prop :=
  Forall size_invariant (finished g)
  /\ forall lc, current g = Some lc -> running_size_accounted lc.

(** ** The stages that talk to the provider *)

(** Block time ascending. *)
Definition by_block_time (a b : SignatureInfo) : Prop :=
  (block_time a <= block_time b)%Z.

Section Stages.

Variable Provider : Type.
Variable send : Provider -> Request -> (Response + Failure) * Provider.

Variable policy : RetryPolicy.
Variable min_delay : Z.
Variable page_size : nat.

(** A bound on the pages read for one address. *)
Variable max_pages : nat.

Local Abbreviation net := (net Provider).

(** One computation per element, in order. *)
Fixpoint for_each {A B : Type} (f : A -> net B) (l : list A)
  : net (list B) :=
  match l with
  | [] => ret []
  | a :: l' => b <- f a ;; bs <- for_each f l' ;; ret (b :: bs)
  end.

(** *** SignatureRetriever *)

(** The date bounds of section 4.3: an item exactly at a bound is kept. *)
Definition not_older (from : option Z) (i : SignatureInfo) : bool :=
  match from with
  | Some t => (t <=? block_time i)%Z
  | None => true
  end.

(** An item newer than [to] is left out. *)
Definition not_newer (to : option Z) (i : SignatureInfo) : bool :=
  match to with
  | Some t => (block_time i <=? t)%Z
  | None => true
  end.

(** Modelled from the spec: the pagination of section 4.3, absent from the
    sources. Backward from the most recent transaction of an address; it
    stops at an empty page, at a page whose oldest item is older than
    [from], at a page that could not be fetched, and at the page bound. An
    item exactly at [from] is kept. *)
Fixpoint paginate (pages_left : nat) (from : option Z) (a : Address)
    (before : option Signature) : net (list SignatureInfo) :=
  match pages_left with
  | O => ret []
  | S k =>
      x <- fetch send policy (SignaturesForAddress a before page_size) ;;
      match x with
      | Fetched (SignaturePage (i :: items)) =>
          let oldest := last items i in
          let kept := filter (not_older from) (i :: items) in
          if not_older from oldest then
            _ <- sleep (Spacing min_delay) ;;
            older <- paginate k from a (Some (sig oldest)) ;;
            ret (kept ++ older)
          else ret kept
      | _ => ret []
      end
  end.

(** Modelled from the spec: the merge of section 4.3, absent from the
    sources. The per-address sequences become one sequence, deduplicated by
    signature and ordered by block time ascending. *)
Definition merge (per_address : list (list SignatureInfo))
  : list SignatureInfo :=
  ListOps.sort (fun a b => (block_time a <=? block_time b)%Z)
    (ListOps.dedup sig [] (List.concat per_address)).

(** Modelled from the spec: [retrieve] of section 4.3, absent from the
    sources. Items newer than [to] are filtered out of the merge. *)
Definition retrieve (addresses : list Address) (from to : option Z)
  : net (list SignatureInfo) :=
  per_address <- for_each (fun a => paginate max_pages from a None)
                   addresses ;;
  ret (filter (not_newer to) (merge per_address)).

(** The sequences that [paginate] yields for the addresses of a list, one
    address after the other, each from the world that the pagination of the
    address before it has left. *)
Inductive paginated (from : option Z)
  : World Provider -> list Address -> list (list SignatureInfo)
    -> World Provider -> Prop :=
| paginated_nil w : paginated from w [] [] w
| paginated_cons w a items w1 rest per_address w2 :
    paginate max_pages from a None w = (items, w1) ->
    paginated from w1 rest per_address w2 ->
    paginated from w (a :: rest) (items :: per_address) w2.

End Stages.

End Pipeline.

(* ================================================================== *)
(** * The front end: [useTrades], [TradesList] and [TradesPage] *)
(* ================================================================== *)

Module Client.

Import JS.
Local Open Scope string_scope.

(** ** Platform operations of the hook *)

(** A number inside a template literal: the decimal digits of an integer. *)
Definition ToString (z : Z) : string :=
  DecimalString.NilZero.string_of_int (Z.to_int z).

Definition is_alphanumeric (c : ascii) : bool :=
  let n := nat_of_ascii c in
  (((48 <=? n) && (n <=? 57)) || ((65 <=? n) && (n <=? 90))
   || ((97 <=? n) && (n <=? 122)))%nat.

(** The bytes the [application/x-www-form-urlencoded] serializer writes as
    they are: alphanumerics and [*], [-], [.], [_]. *)
Definition form_safe (c : ascii) : bool :=
  is_alphanumeric c || Ascii.eqb c "*" || Ascii.eqb c "-"
  || Ascii.eqb c "." || Ascii.eqb c "_".

Definition hex_digit (n : nat) : ascii :=
  nth n (list_ascii_of_string "0123456789ABCDEF") "0"%char.

(** [%HH], in upper case. *)
Definition percent_encode (c : ascii) : string :=
  String "%"
    (String (hex_digit (nat_of_ascii c / 16))
       (String (hex_digit (nat_of_ascii c mod 16)) "")).

Definition form_encode_byte (c : ascii) : string :=
  if Ascii.eqb c " " then "+"
  else if form_safe c then String c ""
  else percent_encode c.

(** The serializer on the bytes of a name or a value. *)
Fixpoint form_encode (s : string) : string :=
  match s with
  | EmptyString => ""
  | String c s' => form_encode_byte c ++ form_encode s'
  end.

(** A [URLSearchParams] object is its list of name-value pairs. *)
Definition URLSearchParams := list (string * string).

(** [params.append(name, value)] *)
Definition append (params : URLSearchParams) (name value : string)
  : URLSearchParams :=
  (params ++ [(name, value)])%list.

(** [params.toString()]: the encoded pairs [name=value], joined by [&]. *)
Fixpoint toString (params : URLSearchParams) : string :=
  match params with
  | [] => ""
  | [(name, value)] => form_encode name ++ "=" ++ form_encode value
  | (name, value) :: rest =>
      form_encode name ++ "=" ++ form_encode value ++ "&" ++ toString rest
  end.


(** The [Response] of [fetch], as far as the hook reads it; [json] is what
    [response.json()] completes with. *)
Record Response (A : Type) := mkResponse {
  status : Z;
  statusText : string;
  json : completion A
}.

(** [response.ok]: the status is in the range 200 to 299. *)
Definition ok {A : Type} (response : Response A) : bool :=
  (200 <=? status response)%Z && (status response <=? 299)%Z.

(** ** [useTrades]

    The hook is generic in the type [A] of the parsed response body, which
    TypeScript calls [TradeData] and erases. *)

(** The three state variables of the hook, which it returns. *)
Record state (A : Type) := mkState {
  data : option A;
  loading : bool;
  error : option string
}.

Section UseTrades.

Variable A : Type.

(** The values of [useState] at the first render. *)
Definition initial : state A := mkState None false None.

Definition setData (d : A) (s : state A) : state A :=
  mkState (Some d) (loading s) (error s).

Definition setLoading (l : bool) (s : state A) : state A :=
  mkState (data s) l (error s).

Definition setError (e : option string) (s : state A) : state A :=
  mkState (data s) (loading s) e.

(** The URL that [fetchTrades] requests. *)
Definition request_url (walletAddress : string)
    (fromDate toDate : option string) : string :=
  let params : URLSearchParams := [] in
  let params :=
    match fromDate with
    | Some f => if truthy f then append params "from_date" f else params
    | None => params
    end in
  let params :=
    match toDate with
    | Some t => if truthy t then append params "to_date" t else params
    | None => params
    end in
  "/api/trades/" ++ walletAddress
  ++ (if truthy (toString params) then "?" ++ toString params else "").

(** [fetchTrades] up to its [await fetch(url)]. *)
Definition started (s : state A) : state A :=
  setError None (setLoading true s).

(** The rest of the [try] block, given how [fetch] completed. *)
Definition received (outcome : completion (Response A)) : completion A :=
  match outcome with
  | Throw e => Throw e
  | Return response =>
      if negb (ok response)
      then Throw (ErrorObject ("HTTP " ++ ToString (status response) ++ ": "
                               ++ statusText response))
      else json response
  end.

(** [fetchTrades] from the completion of [fetch] on: the [try] block, its
    [catch] and its [finally]. *)
Definition finished (outcome : completion (Response A)) (s : state A)
  : state A :=
  setLoading false
    (match received outcome with
     | Return d => setData d s
     | Throw err => setError (Some (Http.message_or_unknown err)) s
     end).

(** What happens to the state of the hook: a run of [fetchTrades] reaches
    its [await], or the [fetch] of an earlier run completes. *)
Inductive event :=
| Started
| Finished (outcome : completion (Response A)).

Definition react (s : state A) (e : event) : state A :=
  match e with
  | Started => started s
  | Finished outcome => finished outcome s
  end.

(** The state after a sequence of events. *)
Definition after (s : state A) (events : list event) : state A :=
  fold_left react events s.



End UseTrades.

(** ** [TradesList] *)

(** A field that the component reads and the [TradeData] interface leaves
    among its other fields: any parsed JSON value, or nothing when the
    field is missing. A finite number is given by its value, a rational, a
    zero of either sign by 0; [Infinite] is what a literal beyond the range
    of the numbers is parsed to; JSON has no NaN. An array or an object is
    [Structured], whatever it holds. *)
Inductive any :=
| Missing
| Null
| Boolean (b : bool)
| Numeric (x : QArith_base.Q)
| Infinite
| Text (s : string)
| Structured.



(** The [TradeData] interface: the fields it declares, with their declared
    types, and the two other fields the component reads. *)
Record Position := mkPosition {
  trade_id : string;
  symbol : string;
  direction : string;
  position_status : string;
  size_usd : any;
  realized_pnl : any
}.

Record TradeData := mkTradeData {
  wallet_address : string;
  sync_timestamp : string;
  positions : list Position
}.






(** ** [TradesPage] *)

Record SearchParams := mkSearchParams {
  wallet : option string;
  from_date : option string;
  to_date : option string
}.

(** What the server component does with a request: it returns a message at
    once, or it awaits [analyzeTradeHistoryJson] with what it was given. *)
Inductive page :=
| Message (text : string)
| Await_analyzeTradeHistoryJson
    (fromDate : option string) (wallet : string) (toDate : option string).

Definition TradesPage (searchParams : SearchParams) : page :=
  match wallet searchParams with
  | Some w =>
      if negb (truthy w) then Message "Please provide a wallet address"
      else Await_analyzeTradeHistoryJson
             (from_date searchParams) w (to_date searchParams)
  | None => Message "Please provide a wallet address"
  end.

(** The calls of [analyzeTradeHistoryJson] the page makes. *)
Definition page_calls (p : page) : list Http.call :=
  match p with
  | Message _ => []
  | Await_analyzeTradeHistoryJson fromDate wallet toDate =>
      [(fromDate, wallet, toDate)]
  end.

(** What the page completes with: the message, the report handed to
    [TradesList], or the exception of [analyzeTradeHistoryJson], which the
    page does not catch. *)
Definition page_result (A : Type)
    (analyze : option string -> string -> option string -> completion A)
    (p : page) : completion (string + A) :=
  match p with
  | Message text => Return (inl text)
  | Await_analyzeTradeHistoryJson fromDate wallet toDate =>
      match analyze fromDate wallet toDate with
      | Return report => Return (inr report)
      | Throw e => Throw e
      end
  end.

End Client.

(* ================================================================== *)
(** * Day numbers and sample inputs *)
(* ================================================================== *)

Module Samples.

Import JS.

(** The day number [MakeDay] gives day [d] of month [m] (1 = January) of
    year [y]. *)
Definition day_number (y m d : Z) : Z :=
  (DayFromYear y + DaysBeforeMonth y (m - 1) + d - 1)%Z.

(** A provider that rate-limits its first two calls and then answers
    request [r] with [r + 1000]; its state is the number of calls seen. *)
Definition flaky_send (p r : nat)
  : (nat + RateLimitedFetcher.Failure) * nat :=
  if p <? 2 then (inr RateLimitedFetcher.RateLimited, S p)
  else (inl (r + 1000), S p).

(** An event of the position of the response example of [INTEGRATION.md]:
    a long position, price 150, fee 1, market request. *)
Definition example_event (k : Model.EventKind) (time : Z)
    (signature : string) (size : Z) : Model.RawEvent :=
  Model.mkEvent k "76USLRvRMwDoGsK2Bj4RXV2CnuAUxgpVhJy7496Fz4M1"%string time
    signature Model.Long size 150 1 0 Model.Market.

(** A provider with two accounts whose transactions overlap: the account
    [position] has the transactions [shared] and [first], the account
    [request] the transactions [second] and [shared], newest first; there
    is nothing before the oldest of either. *)
Definition two_accounts (p : unit) (r : Rpc.Request)
  : (Rpc.Response + RateLimitedFetcher.Failure) * unit :=
  match r with
  | Rpc.SignaturesForAddress a None _ =>
      if String.eqb a "position"%string
      then (inl (Rpc.SignaturePage
                   [Rpc.mkSignatureInfo "shared"%string 20;
                    Rpc.mkSignatureInfo "first"%string 10]), p)
      else if String.eqb a "request"%string
      then (inl (Rpc.SignaturePage
                   [Rpc.mkSignatureInfo "second"%string 30;
                    Rpc.mkSignatureInfo "shared"%string 20]), p)
      else (inl (Rpc.SignaturePage []), p)
  | Rpc.SignaturesForAddress _ (Some _) _ => (inl (Rpc.SignaturePage []), p)
  | _ => (inr RateLimitedFetcher.NotFound, p)
  end.

End Samples.

(* ================================================================== *)
(** * The query of a request, as each router shows it *)
(* ================================================================== *)

Module Query.

Import PagesRouter.

(** The query of a URL: its name-value pairs, in the order they are
    written. *)
Definition pairs := list (string * string).

(** [searchParams.getAll(name)]: the values given for a name, in order. *)
Definition getAll (q : pairs) (name : string) : list string :=
  map snd (filter (fun p => String.eqb (fst p) name) q).

(** [searchParams.get(name)], what the App Router reads: the first value
    given for the name, [None] for [null] when there is none. *)
Fixpoint get (q : pairs) (name : string) : option string :=
  match q with
  | [] => None
  | (n, v) :: rest => if String.eqb n name then Some v else get rest name
  end.

(** [req.query[name]], what the Pages Router reads: a string for a name
    given once, the array of the values for a name given more than once,
    [None] for [undefined] when there is none. *)
Definition query_entry (q : pairs) (name : string) : option query_value :=
  match getAll q name with
  | [] => None
  | [v] => Some (QString v)
  | v :: vs => Some (QArray (v :: vs))
  end.

End Query.

(* ================================================================== *)
(** * Vocabulary of the statements about the routes *)
(* ================================================================== *)

Module Outcome.

Import JS Http.

(** The handler answers with status 400 without calling
    [analyzeTradeHistoryJson]. *)
Definition rejected (h : handling) : Prop :=
  exists r, h = Respond r /\ status r = 400%Z /\ calls h = [].

(** The rejection carries this error message. *)
Definition rejected_with (error : string) (h : handling) : Prop :=
  h = Respond (mkResponse 400 (ErrorJson error) []).

(** The three numeric fields of a date string. *)
Definition fields (date : string) : list number :=
  map Number (split "." date).

(** Day, month and year within the bounds [parseAndValidateDate] checks. *)
Definition in_bounds (d m y : Z) : Prop :=
  (1 <= d <= 31 /\ 1 <= m <= 12 /\ 2020 <= y <= 2030)%Z.

(** How a date parameter [q] is taken over as [fromDate] or [toDate]: an
    absent or empty parameter leaves it undefined; any other parameter is
    kept as it is, and then has the date format and is parsed without
    error. *)
Definition taken_over (parse : string -> completion Date)
    (format : string -> bool) (q d : option string) : Prop :=
  match q with
  | Some s =>
      if truthy s
      then d = Some s /\ format s = true /\ exists D, parse s = Return D
      else d = None
  | None => d = None
  end.

(** The wallet of the usage examples of [INTEGRATION.md]. *)
Definition example_wallet : string :=
  "GFexHU2EkUcmcKbj3GyiuNQoa7TreCxLkAxMb2xeLHgS".

(** [needle] occurs in [s]. *)
Definition mentions (s needle : string) : Prop :=
  exists pre post, s = (pre ++ needle ++ post)%string.

(** A date parameter as the handlers pass it on: undefined when it is
    absent or empty. *)
Definition supplied (q : option string) : option string :=
  match q with
  | Some s => if truthy s then Some s else None
  | None => None
  end.

(** The day number a date string of three numeric fields stands for. *)
Definition day_of (date : string) : Z :=
  match fields date with
  | [Num d; Num m; Num y] => Samples.day_number y m d
  | _ => 0%Z
  end.

(** The date format with day, month and year within the bounds. *)
Definition well_formed (date : string) : Prop :=
  AppRouter.validateDateFormat date = true
  /\ exists d m y, fields date = [Num d; Num m; Num y] /\ in_bounds d m y.

(** Both dates given: the first stands for an earlier day than the second. *)
Definition in_order (fromDate toDate : option string) : Prop :=
  match fromDate, toDate with
  | Some f, Some t => (day_of f < day_of t)%Z
  | _, _ => True
  end.

(** Day [d] of month [m] (1 = January) of year [y] is in the calendar. *)
Definition in_calendar (d m y : Z) : Prop :=
  (1 <= m <= 12 /\ 1 <= d <= DaysInMonth y (m - 1))%Z.

(** Calendar order of two dates given as day, month, year. *)
Definition earlier (d1 m1 y1 d2 m2 y2 : Z) : Prop :=
  (y1 < y2 \/ (y1 = y2 /\ (m1 < m2 \/ (m1 = m2 /\ d1 < d2))))%Z.

(** The response of both handlers once [analyzeTradeHistoryJson] has
    completed. *)
Definition answer (outcome : completion Model.TradeReport) : response :=
  match outcome with
  | Return trades =>
      mkResponse 200 (TradesJson trades)
        [("Cache-Control"%string,
          "public, s-maxage=60, stale-while-revalidate=300"%string)]
  | Throw error => AppRouter.on_error error
  end.

(** The first fault of a supplied date, as the end of the error message
    that follows [Invalid from_date] or [Invalid to_date]: the format, then
    the day, then the month, then the year. *)
Definition first_fault (date fault : string) : Prop :=
  (AppRouter.validateDateFormat date = false
   /\ fault = " format. Use DD.MM.YYYY"%string)
  \/ (AppRouter.validateDateFormat date = true
      /\ exists d m y,
           fields date = [Num d; Num m; Num y]
           /\ ((~ (1 <= d <= 31)%Z /\ fault = ": Invalid day"%string)
               \/ ((1 <= d <= 31)%Z /\ ~ (1 <= m <= 12)%Z
                   /\ fault = ": Invalid month"%string)
               \/ ((1 <= d <= 31)%Z /\ (1 <= m <= 12)%Z
                   /\ ~ (2020 <= y <= 2030)%Z
                   /\ fault = ": Invalid year"%string))).

(** The error a supplied date is rejected with, read without Date objects;
    [name] is [from_date] or [to_date]. *)
Definition date_rejection (name date : string) : option string :=
  if negb (AppRouter.validateDateFormat date)
  then Some ("Invalid " ++ name ++ " format. Use DD.MM.YYYY")%string
  else
    match fields date with
    | [Num d; Num m; Num y] =>
        if ((d <? 1) || (31 <? d))%Z
        then Some ("Invalid " ++ name ++ ": Invalid day")%string
        else if ((m <? 1) || (12 <? m))%Z
        then Some ("Invalid " ++ name ++ ": Invalid month")%string
        else if ((y <? 2020) || (2030 <? y))%Z
        then Some ("Invalid " ++ name ++ ": Invalid year")%string
        else None
    | _ => None
    end.

(** The error a request is rejected with, read without Date objects and
    without a time zone; [None] when the request is let through. *)
Definition rejection (wallet : string) (from_date to_date : option string)
  : option string :=
  if negb (truthy wallet) then Some "Wallet address is required"%string
  else if negb (Base58.is_address wallet)
  then Some "Invalid wallet address format"%string
  else
    match supplied from_date, supplied to_date with
    | Some f, Some t =>
        match date_rejection "from_date" f, date_rejection "to_date" t with
        | Some e, _ => Some e
        | None, Some e => Some e
        | None, None =>
            if (day_of t <=? day_of f)%Z
            then Some "from_date must be earlier than to_date"%string
            else None
        end
    | Some f, None => date_rejection "from_date" f
    | None, Some t => date_rejection "to_date" t
    | None, None => None
    end.

(** The handling that goes with [rejection]. *)
Definition verdict (wallet : string) (from_date to_date : option string)
  : handling :=
  match rejection wallet from_date to_date with
  | Some e => Respond (mkResponse 400 (ErrorJson e) [])
  | None =>
      Await_analyzeTradeHistoryJson (supplied from_date) wallet
        (supplied to_date) answer
  end.

(** The response of a handler as [fetch] shows it to the hook: the status,
    a status text chosen by the server software, and the JSON body. *)
Definition over_http (statusText : string) (r : response)
  : Client.Response json :=
  Client.mkResponse (status r) statusText (Return (body r)).

(** A query value of the Pages Router as its handler tells it apart: a
    wallet that is not a string counts as the empty string, a date that is
    an array as a string without the date format. *)
Definition as_wallet (q : option PagesRouter.query_value) : string :=
  match q with
  | Some (PagesRouter.QString s) => s
  | Some (PagesRouter.QArray _) | None => ""%string
  end.

Definition as_date (q : option PagesRouter.query_value) : option string :=
  match q with
  | Some (PagesRouter.QString s) => Some s
  | Some (PagesRouter.QArray _) => Some "[]"%string
  | None => None
  end.

(** The bytes the form serializer can write: the safe ones, [+] and [%]. *)
Definition form_output (c : ascii) : bool :=
  Client.form_safe c || Ascii.eqb c "+" || Ascii.eqb c "%".

(** How often the byte [c] occurs in [s]. *)
Definition occurrences (c : ascii) (s : string) : nat :=
  List.length (filter (Ascii.eqb c) (list_ascii_of_string s)).

(** How many of the two dates are supplied. *)
Definition dates_supplied (fromDate toDate : option string) : nat :=
  match supplied fromDate, supplied toDate with
  | Some _, Some _ => 2
  | Some _, None | None, Some _ => 1
  | None, None => 0
  end.

(** An event of the hook that is the success of a request. *)
Definition success (A : Type) (e : Client.event A) : Prop :=
  match e with
  | Client.Finished outcome => exists d, Client.received outcome = Return d
  | Client.Started _ => False
  end.

End Outcome.

(** Case analysis on the kind of an event: the kinds exclude one another. *)
Ltac by_kind e :=
  unfold Pipeline.opens, Pipeline.increases, Pipeline.decreases,
    Pipeline.liquidates in *;
  destruct (Model.kind e); try discriminate; try reflexivity.

(* ================================================================== *)
(** * Facts about strings and regular expressions *)
(* ================================================================== *)

Unset Implicit Arguments.

Section StringFacts.

Local Open Scope string_scope.


Lemma append_assoc (a b c : string) : (a ++ b) ++ c = a ++ (b ++ c).
Proof. induction a as [|x a IH]; simpl; [reflexivity | now rewrite IH]. Qed.

Lemma length_append (a b : string) :
  String.length (a ++ b) = String.length a + String.length b.
Proof. induction a as [|x a IH]; simpl; [reflexivity | now rewrite IH]. Qed.

Lemma append_eq_empty (a b : string) : a ++ b = "" -> a = "" /\ b = "".
Proof. destruct a; simpl; [auto | discriminate]. Qed.

(** How a word that starts with [c] splits into two words. *)
Lemma append_eq_cons (a b : string) (c : ascii) (s : string) :
  a ++ b = String c s ->
  (a = "" /\ b = String c s) \/ (exists a', a = String c a' /\ s = a' ++ b).
Proof.
  destruct a as [|x a]; simpl; intros H.
  - left; auto.
  - right. injection H as -> <-. now exists a.
Qed.

Lemma every_append (p : ascii -> bool) (a b : string) :
  JS.every p (a ++ b) = JS.every p a && JS.every p b.
Proof.
  induction a as [|x a IH]; simpl; [reflexivity|].
  now rewrite IH, andb_assoc.
Qed.

Lemma split_at (n : nat) (s : string) :
  n <= String.length s ->
  exists a b, s = a ++ b /\ String.length a = n.
Proof.
  revert s. induction n as [|n IH]; intros s L.
  - now exists "", s.
  - destruct s as [|c s]; simpl in L; [lia|].
    destruct (IH s) as (a & b & -> & La); [lia|].
    exists (String c a), b. simpl. now rewrite La.
Qed.

Lemma every_ext (p q : ascii -> bool) (s : string) :
  (forall c, p c = q c) -> JS.every p s = JS.every q s.
Proof.
  intros E; induction s as [|c s IH]; simpl; [reflexivity|].
  now rewrite E, IH.
Qed.

End StringFacts.

Section RegexFacts.

Import JS.
Local Open Scope string_scope.

Lemma lang_empty_nullable (r : regex) (s : string) :
  lang r s -> s = "" -> nullable r = true.
Proof.
  induction 1 as [| | r1 r2 s1 s2 _ IH1 _ IH2 | r1 r2 s _ IH | r1 r2 s _ IH];
    intros E; simpl.
  - reflexivity.
  - discriminate.
  - apply append_eq_empty in E as [E1 E2].
    now rewrite IH1, IH2.
  - now rewrite IH.
  - rewrite IH by assumption. apply orb_true_r.
Qed.

Lemma nullable_lang (r : regex) : nullable r = true <-> lang r "".
Proof.
  split.
  - induction r as [| | ranges | r1 IH1 r2 IH2 | r1 IH1 r2 IH2]; simpl;
      intros H; try discriminate.
    + constructor.
    + apply andb_prop in H as [H1 H2].
      change "" with ("" ++ ""). constructor; auto.
    + apply orb_prop in H as [H|H];
        [apply lang_alt_l | apply lang_alt_r]; auto.
  - intros H. now apply lang_empty_nullable with (s := "").
Qed.

(** The derivative recognises the rests of the words that start with [c]. *)
Lemma lang_cons_deriv (r : regex) (w : string) :
  lang r w -> forall c s, w = String c s -> lang (deriv c r) s.
Proof.
  induction 1 as [| ranges x Hx | r1 r2 s1 s2 H1 IH1 H2 IH2
                  | r1 r2 s0 H IH | r1 r2 s0 H IH];
    intros c s E; simpl.
  - discriminate.
  - injection E as -> <-. rewrite Hx. constructor.
  - apply append_eq_cons in E as [[-> ->] | (a' & -> & ->)].
    + rewrite (lang_empty_nullable _ _ H1 eq_refl).
      apply lang_alt_r. now apply IH2.
    + destruct (nullable r1).
      * apply lang_alt_l. constructor; auto.
      * constructor; auto.
  - apply lang_alt_l; auto.
  - apply lang_alt_r; auto.
Qed.

Lemma deriv_lang_cons (c : ascii) (r : regex) (s : string) :
  lang (deriv c r) s -> lang r (String c s).
Proof.
  revert s.
  induction r as [| | ranges | r1 IH1 r2 IH2 | r1 IH1 r2 IH2]; simpl;
    intros s H.
  - inversion H.
  - inversion H.
  - destruct (in_class ranges c) eqn:Hc; inversion H; subst.
    now constructor.
  - destruct (nullable r1) eqn:N.
    + inversion H as [| | | ? ? ? H' | ? ? ? H']; subst.
      * inversion H' as [| | ? ? s1 s2 Ha Hb | |]; subst.
        change (String c (s1 ++ s2)) with (String c s1 ++ s2).
        constructor; auto.
      * change (String c s) with ("" ++ String c s).
        constructor; [now apply nullable_lang | auto].
    + inversion H as [| | ? ? s1 s2 Ha Hb | |]; subst.
      change (String c (s1 ++ s2)) with (String c s1 ++ s2).
      constructor; auto.
  - inversion H; subst; [apply lang_alt_l | apply lang_alt_r]; auto.
Qed.

(** The matcher decides membership in the language. *)
Lemma test_lang (r : regex) (s : string) : test r s = true <-> lang r s.
Proof.
  revert r. induction s as [|c s IH]; intros r; simpl.
  - apply nullable_lang.
  - rewrite IH. split.
    + apply deriv_lang_cons.
    + intros H. now apply lang_cons_deriv with (w := String c s).
Qed.

Lemma lang_cat_inv (r1 r2 : regex) (s : string) :
  lang (Cat r1 r2) s <->
  exists s1 s2, s = s1 ++ s2 /\ lang r1 s1 /\ lang r2 s2.
Proof.
  split.
  - inversion 1 as [| | ? ? s1 s2 Ha Hb | |]; subst. now exists s1, s2.
  - intros (s1 & s2 & -> & Ha & Hb). now constructor.
Qed.

Lemma lang_class_inv (ranges : list (ascii * ascii)) (s : string) :
  lang (Class ranges) s <->
  exists c, s = String c "" /\ in_class ranges c = true.
Proof.
  split.
  - inversion 1 as [| ? c Hc | | |]; subst. now exists c.
  - intros (c & -> & Hc). now constructor.
Qed.

(** Words of [cls{n}]: [n] characters of the class. *)
Lemma lang_power_class (ranges : list (ascii * ascii)) (n : nat) (s : string) :
  lang (power (Class ranges) n) s <->
  String.length s = n /\ every (in_class ranges) s = true.
Proof.
  revert s. induction n as [|n IH]; intros s; simpl.
  - split.
    + inversion 1. auto.
    + intros [L _]. destruct s; [constructor | discriminate].
  - split.
    + inversion 1 as [| | ? ? s1 s2 Ha Hb | |]; subst.
      inversion Ha; subst. apply IH in Hb as [L E]. simpl.
      rewrite L. split; [reflexivity|]. now apply andb_true_intro.
    + intros [L E]. destruct s as [|c s]; [discriminate|].
      simpl in L, E. apply andb_prop in E as [Ec E].
      change (String c s) with (String c "" ++ s).
      constructor; [now constructor|].
      apply IH. split; [congruence | assumption].
Qed.

(** Words of [cls{0,n}]: at most [n] characters of the class. *)
Lemma lang_upto_class (ranges : list (ascii * ascii)) (n : nat) (s : string) :
  lang (upto (Class ranges) n) s <->
  String.length s <= n /\ every (in_class ranges) s = true.
Proof.
  revert s. induction n as [|n IH]; intros s; simpl.
  - split.
    + inversion 1. auto.
    + intros [L _]. destruct s; [constructor | simpl in L; lia].
  - split.
    + inversion 1 as [| | | ? ? ? H' | ? ? ? H']; subst.
      * inversion H'; subst. simpl. split; [lia | reflexivity].
      * inversion H' as [| | ? ? s1 s2 Ha Hb | |]; subst.
        inversion Ha; subst. apply IH in Hb as [L E]. simpl.
        split; [lia|]. now apply andb_true_intro.
    + intros [L E]. destruct s as [|c s].
      * apply lang_alt_l. constructor.
      * simpl in L, E. apply andb_prop in E as [Ec E].
        apply lang_alt_r.
        change (String c s) with (String c "" ++ s).
        constructor; [now constructor|].
        apply IH. split; [lia | assumption].
Qed.

(** Words of [cls{lo,hi}]. *)
Lemma lang_Repeat_class (ranges : list (ascii * ascii)) (lo hi : nat)
    (s : string) :
  lo <= hi ->
  (lang (Repeat (Class ranges) lo hi) s <->
   (lo <= String.length s <= hi) /\ every (in_class ranges) s = true).
Proof.
  intros Hle. unfold Repeat. split.
  - inversion 1 as [| | ? ? s1 s2 Ha Hb | |]; subst.
    apply lang_power_class in Ha as [La Ea].
    apply lang_upto_class in Hb as [Lb Eb].
    rewrite length_append, every_append, Ea, Eb. split; [lia | reflexivity].
  - intros [[L1 L2] E].
    destruct (split_at _ s L1) as (a & b & -> & La).
    rewrite every_append in E. apply andb_prop in E as [Ea Eb].
    rewrite length_append in L2.
    constructor.
    + now apply lang_power_class.
    + apply lang_upto_class. split; [lia | assumption].
Qed.

(** [s.split(sep)] cuts at the first separator; a piece without separator
    is kept whole. *)
Lemma split_whole (sep : ascii) (a : string) :
  every (fun c => negb (Ascii.eqb c sep)) a = true -> split sep a = [a].
Proof.
  induction a as [|c a IH]; simpl; [reflexivity|].
  intros H. apply andb_prop in H as [Hc Ha].
  apply negb_true_iff in Hc. rewrite Hc, (IH Ha). reflexivity.
Qed.

Lemma split_first (sep : ascii) (a rest : string) :
  every (fun c => negb (Ascii.eqb c sep)) a = true ->
  split sep (a ++ String sep rest) = a :: split sep rest.
Proof.
  induction a as [|c a IH]; simpl.
  - now rewrite Ascii.eqb_refl.
  - intros H. apply andb_prop in H as [Hc Ha].
    apply negb_true_iff in Hc. rewrite Hc, (IH Ha). reflexivity.
Qed.

Lemma every_impl (p q : ascii -> bool) (s : string) :
  (forall c, p c = true -> q c = true) ->
  every p s = true -> every q s = true.
Proof.
  intros I. induction s as [|c s IH]; simpl; [reflexivity|].
  intros H. apply andb_prop in H as [Hc Hs].
  now rewrite (I c Hc), (IH Hs).
Qed.

Lemma digit_is_not_dot (c : ascii) :
  is_digit c = true -> negb (Ascii.eqb c ".") = true.
Proof. destruct c as [[] [] [] [] [] [] [] []]; simpl; auto. Qed.

(** [Number] reads a non-empty digit string as its decimal value. *)
Lemma Number_digits (a : string) :
  1 <= String.length a -> every is_digit a = true ->
  Number a = Num (decimal_value 0 a).
Proof.
  intros L E. unfold Number, all_digits. rewrite E.
  destruct a; [simpl in L; lia | reflexivity].
Qed.

Lemma decimal_value_nonneg (a : string) (acc : Z) :
  (0 <= acc)%Z -> every is_digit a = true -> (0 <= decimal_value acc a)%Z.
Proof.
  revert acc. induction a as [|c a IH]; cbn [decimal_value every];
    intros acc Hacc E; [lia|].
  apply andb_prop in E as [Hc Ha]. apply IH; [|assumption].
  unfold is_digit in Hc. apply andb_prop in Hc as [H1 _].
  apply Nat.leb_le in H1. unfold digit_value. lia.
Qed.

End RegexFacts.

(* ================================================================== *)
(** * Facts about dates *)
(* ================================================================== *)

Section DateFacts.

Import JS.
Local Open Scope Z_scope.

(** [YearFromDay] finds the year of a day number, from 1970 on for more
    than two centuries. *)
Lemma YearFromDay_exact day : 0 <= day <= 100000 ->
  DayFromYear (YearFromDay day) <= day < DayFromYear (YearFromDay day + 1).
Proof.
  intros H. unfold YearFromDay, year_at_or_before.
  set (s := 1970 + day / 365 + 1).
  assert (Hs : s = 1970 + day / 365 + 1) by reflexivity.
  clearbody s.
  destruct (Z.leb_spec (DayFromYear s) day) as [L0|L0].
  { unfold DayFromYear in *. Z.div_mod_to_equations. lia. }
  destruct (Z.leb_spec (DayFromYear (s-1)) day) as [L1|L1].
  { replace (s - 1 + 1) with s by lia. lia. }
  destruct (Z.leb_spec (DayFromYear (s-1-1)) day) as [L2|L2].
  { replace (s - 1 - 1 + 1) with (s-1) by lia. lia. }
  exfalso. unfold DayFromYear in *. Z.div_mod_to_equations. lia.
Qed.

Lemma DayFromYear_next y : DayFromYear (y + 1) = DayFromYear y + DaysInYear y.
Proof.
  unfold DayFromYear, DaysInYear.
  destruct (Z.eqb_spec (y mod 4) 0); destruct (Z.eqb_spec (y mod 100) 0);
    destruct (Z.eqb_spec (y mod 400) 0); cbn [negb];
    Z.div_mod_to_equations; lia.
Qed.

Lemma DayFromYear_mono a b : a <= b -> DayFromYear a <= DayFromYear b.
Proof.
  intros H. unfold DayFromYear. Z.div_mod_to_equations. lia.
Qed.

Lemma YearFromDay_unique y n :
  1970 <= y <= 2200 -> DayFromYear y <= n < DayFromYear (y + 1) ->
  YearFromDay n = y.
Proof.
  intros Hy Hn.
  assert (B : 0 <= n <= 100000).
  { pose proof (DayFromYear_mono 1970 y ltac:(lia)) as L.
    pose proof (DayFromYear_mono (y + 1) 2201 ltac:(lia)) as U.
    change (DayFromYear 1970) with 0 in L.
    change (DayFromYear 2201) with 84371 in U. lia. }
  pose proof (YearFromDay_exact n B) as E.
  set (Y := YearFromDay n) in *. clearbody Y.
  destruct (Z.lt_trichotomy Y y) as [L | [L | L]]; [|assumption|].
  - pose proof (DayFromYear_mono (Y + 1) y ltac:(lia)). lia.
  - pose proof (DayFromYear_mono (y + 1) Y ltac:(lia)). lia.
Qed.

(** The day number of day [d] of the month of index [k] reads back as that
    date when the month has [d] days, and otherwise as a day of the month
    after. *)
Lemma calendar_general k d y :
  0 <= k <= 11 -> 1 <= d <= 31 -> 1970 <= y <= 2200 ->
  let n := DayFromYear y + DaysBeforeMonth y k + d - 1 in
  YearFromDay n = y
  /\ MonthFromDay n = (if d <=? DaysInMonth y k then k else k + 1)
  /\ DateFromDay n = (if d <=? DaysInMonth y k then d
                      else d - DaysInMonth y k)
  /\ 0 <= n <= 100000.
Proof.
  intros Hk Hd Hy n.
  assert (Leap : InLeapYear y = 0 \/ InLeapYear y = 1).
  { unfold InLeapYear. destruct (DaysInYear y =? 366); auto. }
  assert (Len : DaysInYear y = 365 + InLeapYear y).
  { unfold InLeapYear, DaysInYear.
    destruct (negb (y mod 4 =? 0)); [reflexivity|].
    destruct (negb (y mod 100 =? 0)); [reflexivity|].
    destruct (negb (y mod 400 =? 0)); reflexivity. }
  pose proof (DayFromYear_next y) as Nx.
  pose proof (DayFromYear_mono 1970 y ltac:(lia)) as L0.
  pose proof (DayFromYear_mono y 2200 ltac:(lia)) as U0.
  change (DayFromYear 1970) with 0 in L0.
  change (DayFromYear 2200) with 84006 in U0.
  assert (K : k = 0 \/ k = 1 \/ k = 2 \/ k = 3 \/ k = 4 \/ k = 5 \/ k = 6
              \/ k = 7 \/ k = 8 \/ k = 9 \/ k = 10 \/ k = 11) by lia.
  clear Hk.
  assert (Hn : n - DayFromYear y = DaysBeforeMonth y k + d - 1)
    by (unfold n; lia).
  assert (Range : 0 <= DaysBeforeMonth y k + d - 1 < DaysInYear y).
  { rewrite Len. unfold DaysBeforeMonth.
    repeat (destruct K as [-> | K]); try subst k; lia. }
  assert (Yr : YearFromDay n = y).
  { apply YearFromDay_unique; lia. }
  split; [exact Yr|]. split; [|split; [|lia]].
  - unfold MonthFromDay. rewrite Yr, Hn. clear Hn Yr Range. clearbody n.
    unfold DaysInMonth, DaysBeforeMonth.
    repeat (destruct K as [-> | K]); try subst k;
      repeat match goal with
             | |- context [(?a <? ?b)] => destruct (Z.ltb_spec a b); try lia
             | |- context [(?a <=? ?b)] => destruct (Z.leb_spec a b); try lia
             end.
  - unfold DateFromDay, MonthFromDay. rewrite Yr, Hn.
    clear Hn Yr Range. clearbody n.
    unfold DaysInMonth, DaysBeforeMonth.
    repeat (destruct K as [-> | K]); try subst k;
      repeat match goal with
             | |- context [(?a <? ?b)] => destruct (Z.ltb_spec a b); try lia
             | |- context [(?a <=? ?b)] => destruct (Z.leb_spec a b); try lia
             end.
Qed.

End DateFacts.

(* ================================================================== *)
(** * The validators of the routes *)
(* ================================================================== *)

Section Validators.

Import JS Http.
Local Open Scope string_scope.

Lemma base58_class (c : ascii) :
  in_class [("1", "9"); ("A", "H"); ("J", "N"); ("P", "Z");
            ("a", "k"); ("m", "z")]%char c
  = Base58.is_base58 c.
Proof. destruct c as [[] [] [] [] [] [] [] []]; reflexivity. Qed.

Lemma digit_class (c : ascii) : in_class [("0", "9")]%char c = is_digit c.
Proof. unfold in_class, in_range, is_digit. simpl. apply orb_false_r. Qed.

Lemma dot_class (c : ascii) :
  in_class [(".", ".")]%char c = true <-> c = "."%char.
Proof.
  split.
  - destruct c as [[] [] [] [] [] [] [] []]; simpl; intros H;
      try discriminate; reflexivity.
  - intros ->. reflexivity.
Qed.

(** The wallet pattern accepts the base58 strings of 32 to 44 characters. *)
Lemma validateWalletAddress_spec (wallet : string) :
  AppRouter.validateWalletAddress wallet = Base58.is_address wallet.
Proof.
  unfold AppRouter.validateWalletAddress, Base58.is_address.
  apply eq_true_iff_eq.
  rewrite test_lang, lang_Repeat_class by lia.
  rewrite (every_ext _ _ wallet base58_class).
  rewrite !andb_true_iff, !Nat.leb_le. tauto.
Qed.

(** The date pattern accepts [D.M.YYYY]: one or two digits, a dot, one or two
    digits, a dot, four digits. *)
Lemma validateDateFormat_shape (date : string) :
  AppRouter.validateDateFormat date = true <->
  exists a b c,
    date = a ++ "." ++ b ++ "." ++ c
    /\ (1 <= String.length a <= 2 /\ every is_digit a = true)
    /\ (1 <= String.length b <= 2 /\ every is_digit b = true)
    /\ (String.length c = 4 /\ every is_digit c = true).
Proof.
  unfold AppRouter.validateDateFormat. rewrite test_lang.
  unfold digit, dot. split.
  - intros H.
    apply lang_cat_inv in H as (a & r1 & -> & Ha & H).
    apply lang_cat_inv in H as (x & r2 & -> & Hx & H).
    apply lang_cat_inv in H as (b & r3 & -> & Hb & H).
    apply lang_cat_inv in H as (y & c & -> & Hy & Hc).
    apply lang_class_inv in Hx as (cx & -> & Hcx).
    apply lang_class_inv in Hy as (cy & -> & Hcy).
    apply dot_class in Hcx, Hcy. subst cx cy.
    apply lang_Repeat_class in Ha as [La Ea]; [|lia].
    apply lang_Repeat_class in Hb as [Lb Eb]; [|lia].
    apply lang_Repeat_class in Hc as [Lc Ec]; [|lia].
    rewrite (every_ext _ _ a digit_class) in Ea.
    rewrite (every_ext _ _ b digit_class) in Eb.
    rewrite (every_ext _ _ c digit_class) in Ec.
    exists a, b, c. repeat split; (assumption || lia).
  - intros (a & b & c & -> & [La Ea] & [Lb Eb] & [Lc Ec]).
    rewrite <- (every_ext _ _ a digit_class) in Ea.
    rewrite <- (every_ext _ _ b digit_class) in Eb.
    rewrite <- (every_ext _ _ c digit_class) in Ec.
    assert (Hdot : lang (Class [(".", ".")]%char) ".").
    { apply lang_class_inv. exists "."%char. split; [reflexivity|].
      now apply dot_class. }
    assert (R : forall s lo hi, lo <= String.length s <= hi ->
                every (in_class [("0", "9")]%char) s = true ->
                lang (Repeat (Class [("0", "9")]%char) lo hi) s).
    { intros s lo hi L E. apply lang_Repeat_class; [lia | now split]. }
    apply lang_cat; [apply R; (assumption || lia)|].
    apply (lang_cat Hdot).
    apply lang_cat; [apply R; (assumption || lia)|].
    apply (lang_cat Hdot).
    apply R; (assumption || lia).
Qed.

(** A string of the form [D.M.YYYY] splits into three numeric fields. *)
Lemma date_fields (date : string) :
  AppRouter.validateDateFormat date = true ->
  exists d m y,
    map Number (split "." date) = [Num d; Num m; Num y]
    /\ (0 <= d)%Z /\ (0 <= m)%Z /\ (0 <= y)%Z.
Proof.
  intros H. apply validateDateFormat_shape in H
    as (a & b & c & -> & [La Ea] & [Lb Eb] & [Lc Ec]).
  pose proof (every_impl _ _ a digit_is_not_dot Ea) as Na.
  pose proof (every_impl _ _ b digit_is_not_dot Eb) as Nb.
  pose proof (every_impl _ _ c digit_is_not_dot Ec) as Nc.
  exists (decimal_value 0 a), (decimal_value 0 b), (decimal_value 0 c).
  split.
  - change (a ++ "." ++ b ++ "." ++ c)
      with (a ++ String "." (b ++ String "." c)).
    rewrite !split_first, split_whole by assumption.
    simpl. rewrite !Number_digits by (assumption || lia). reflexivity.
  - repeat split; apply decimal_value_nonneg; (assumption || lia).
Qed.

End Validators.

(* ================================================================== *)
(** * The App Router handler *)
(* ================================================================== *)

Section AppRouterFacts.

Import JS Http Outcome Samples.
Local Open Scope string_scope.

Variable LocalTZA : Z.

Local Abbreviation parse := (AppRouter.parseAndValidateDate LocalTZA).
Local Abbreviation validate := (AppRouter.validate LocalTZA).
Local Abbreviation GET := (AppRouter.GET LocalTZA).

(** [parseAndValidateDate] on a string whose three fields are numbers. *)
Lemma parse_of_fields (date : string) (d m y : Z) :
  fields date = [Num d; Num m; Num y] ->
  parse date =
    if ((d <? 1) || (31 <? d))%Z then Throw (ErrorObject "Invalid day")
    else if ((m <? 1) || (12 <? m))%Z then Throw (ErrorObject "Invalid month")
    else if ((y <? 2020) || (2030 <? y))%Z
    then Throw (ErrorObject "Invalid year")
    else
      let date := new_Date LocalTZA (Num y) (Num (m - 1)) (Num d) in
      if isNaN (getTime date) then Throw (ErrorObject "Invalid date")
      else Return date.
Proof.
  unfold fields. intros F. unfold AppRouter.parseAndValidateDate.
  rewrite F. reflexivity.
Qed.

(** A date that parses has its fields within the bounds. *)
Lemma parse_returns_in_bounds (date : string) (d m y : Z) (D : Date) :
  fields date = [Num d; Num m; Num y] ->
  parse date = Return D -> in_bounds d m y.
Proof.
  intros F P. rewrite (parse_of_fields _ _ _ _ F) in P. unfold in_bounds.
  destruct ((d <? 1) || (31 <? d))%Z eqn:Hd; [discriminate|].
  destruct ((m <? 1) || (12 <? m))%Z eqn:Hm; [discriminate|].
  destruct ((y <? 2020) || (2030 <? y))%Z eqn:Hy; [discriminate|].
  apply orb_false_elim in Hd as [? ?], Hm as [? ?], Hy as [? ?]. lia.
Qed.

(** The Date that parsing returns is never an invalid Date. *)
Lemma parse_returns_time (date : string) (D : Date) :
  parse date = Return D -> exists v, getTime D = Num v.
Proof.
  unfold AppRouter.parseAndValidateDate. cbv zeta. intros P.
  repeat match type of P with
         | (if ?c then Throw _ else _) = _ =>
             destruct c eqn:?; [discriminate|]
         end.
  injection P as <-.
  match goal with
  | H : isNaN (getTime ?X) = false |- _ =>
      destruct (getTime X) as [|v]; [discriminate | now exists v]
  end.
Qed.

(** A date with a field out of bounds throws. *)
Lemma parse_out_of_bounds (date : string) (d m y : Z) :
  fields date = [Num d; Num m; Num y] ->
  ~ in_bounds d m y ->
  exists message, parse date = Throw (ErrorObject message).
Proof.
  intros F N. rewrite (parse_of_fields _ _ _ _ F).
  destruct ((d <? 1) || (31 <? d))%Z eqn:Hd; [eauto|].
  destruct ((m <? 1) || (12 <? m))%Z eqn:Hm; [eauto|].
  destruct ((y <? 2020) || (2030 <? y))%Z eqn:Hy; [eauto|].
  exfalso. apply N. unfold in_bounds.
  apply orb_false_elim in Hd as [? ?], Hm as [? ?], Hy as [? ?]. lia.
Qed.

(** The Date built from fields within the bounds: local midnight of the day
    number, never NaN. *)
Lemma new_Date_in_bounds (d m y : Z) :
  plausible_offset LocalTZA -> in_bounds d m y ->
  new_Date LocalTZA (Num y) (Num (m - 1)) (Num d)
  = mkDate (Num (day_number y m d * msPerDay - LocalTZA)).
Proof.
  intros Hz (Hd & Hm & Hy).
  destruct (calendar_general (m - 1) d y) as (_ & _ & _ & Lo & Hi);
    try lia.
  unfold new_Date, MakeFullYear, MakeDay, MakeTime, MakeDate, UTC, TimeClip.
  replace ((0 <=? y)%Z && (y <=? 99)%Z) with false
    by (symmetry; apply andb_false_iff; right; apply Z.leb_gt; lia).
  rewrite (Z.div_small (m - 1) 12), (Z.mod_small (m - 1) 12) by lia.
  rewrite !Z.add_0_r. fold (day_number y m d) in *.
  generalize dependent (day_number y m d). intros n Lo Hi.
  unfold plausible_offset, msPerDay in *.
  replace (Z.abs _ <=? 8640000000000000)%Z with true
    by (symmetry; apply Z.leb_le; lia).
  reflexivity.
Qed.



(** What [validate] can do: never throw, exit only with status 400, and go
    on only for a valid wallet with dates taken over and in strict order. *)
Lemma validate_cases (wallet : string) (from_date to_date : option string) :
  match validate wallet from_date to_date with
  | Exit r => status r = 400%Z
  | Raise _ => False
  | Next (fromDate, toDate) =>
      Base58.is_address wallet = true
      /\ taken_over parse AppRouter.validateDateFormat from_date fromDate
      /\ taken_over parse AppRouter.validateDateFormat to_date toDate
      /\ (forall f t Df Dt,
            fromDate = Some f -> toDate = Some t ->
            parse f = Return Df -> parse t = Return Dt ->
            Date_ge Df Dt = false)
  end.
Proof.
  unfold AppRouter.validate, bind, call_, taken_over.
  rewrite validateWalletAddress_spec.
  destruct (truthy wallet); simpl; [|reflexivity].
  destruct (Base58.is_address wallet); simpl; [|reflexivity].
  destruct from_date as [f|]; [destruct (truthy f) eqn:Tf|];
    [destruct (AppRouter.validateDateFormat f) eqn:Ff; simpl; [|reflexivity];
     destruct (parse f) as [Df|ef] eqn:Pf; [|reflexivity] | |];
    (destruct to_date as [t|]; [destruct (truthy t) eqn:Tt|];
     [destruct (AppRouter.validateDateFormat t) eqn:Ft; simpl; [|reflexivity];
      destruct (parse t) as [Dt|et] eqn:Pt; [|reflexivity] | |]);
    try rewrite Tf; try rewrite Tt; simpl;
    try rewrite Pf; try rewrite Pt; simpl;
    try (destruct (Date_ge Df Dt) eqn:G; [reflexivity|]);
    repeat split; eauto; try discriminate.
  intros f' t' Df' Dt' [= <-] [= <-]. rewrite Pf, Pt.
  now intros [= <-] [= <-].
Qed.

(** [GET] rejects whenever [validate] cannot go on. *)
Lemma GET_rejected (wallet : string) (from_date to_date : option string) :
  (forall fromDate toDate,
     validate wallet from_date to_date <> Next (fromDate, toDate)) ->
  rejected (GET wallet from_date to_date).
Proof.
  intros N. unfold rejected, AppRouter.GET.
  pose proof (validate_cases wallet from_date to_date) as C.
  destruct (validate wallet from_date to_date) as [[fd td]|r|e].
  - now destruct (N fd td).
  - exists r. auto.
  - destruct C.
Qed.

(** [GET] calls [analyzeTradeHistoryJson] only when [validate] goes on, and
    then with the dates [validate] took over. *)
Lemma GET_calls (wallet : string) (from_date to_date : option string) :
  calls (GET wallet from_date to_date) =
  match validate wallet from_date to_date with
  | Next (fromDate, toDate) => [(fromDate, wallet, toDate)]
  | _ => []
  end.
Proof.
  unfold AppRouter.GET.
  destruct (validate wallet from_date to_date) as [[fd td]|r|e];
    reflexivity.
Qed.

(** A supplied, non-empty date that [validate] lets through has the date
    format and parses. *)
Lemma validate_next_date (wallet : string) (from_date to_date : option string)
    (fromDate toDate : option string) (s : string) :
  validate wallet from_date to_date = Next (fromDate, toDate) ->
  from_date = Some s \/ to_date = Some s ->
  s <> "" ->
  AppRouter.validateDateFormat s = true /\ exists D, parse s = Return D.
Proof.
  intros V S Ne.
  pose proof (validate_cases wallet from_date to_date) as C.
  rewrite V in C. destruct C as (_ & Tf & Tt & _).
  assert (T : truthy s = true) by (destruct s; [congruence | reflexivity]).
  unfold taken_over in Tf, Tt.
  destruct S as [-> | ->]; [rewrite T in Tf | rewrite T in Tt]; tauto.
Qed.

End AppRouterFacts.

(* ================================================================== *)
(** * The Pages Router handler does what the App Router handler does *)
(* ================================================================== *)

Section PagesRouterFacts.

Import JS Http Outcome.
Import PagesRouter.
Local Open Scope string_scope.

Variable LocalTZA : Z.

Lemma pages_validateWalletAddress (wallet : string) :
  PagesRouter.validateWalletAddress wallet
  = AppRouter.validateWalletAddress wallet.
Proof. reflexivity. Qed.

Lemma pages_validateDateFormat (date : string) :
  PagesRouter.validateDateFormat date = AppRouter.validateDateFormat date.
Proof. reflexivity. Qed.

Lemma pages_parseAndValidateDate (date : string) :
  PagesRouter.parseAndValidateDate LocalTZA date
  = AppRouter.parseAndValidateDate LocalTZA date.
Proof. reflexivity. Qed.

Lemma pages_on_error (error : thrown) :
  PagesRouter.on_error error = AppRouter.on_error error.
Proof. reflexivity. Qed.

(** On a wallet and dates that are single strings or absent, the two
    validations go the same way. *)
Lemma pages_validate (wallet : string) (from_date to_date : option string) :
  PagesRouter.validate LocalTZA (Some (QString wallet))
    (option_map QString from_date) (option_map QString to_date)
  = match AppRouter.validate LocalTZA wallet from_date to_date with
    | Next (fromDate, toDate) => Next (wallet, fromDate, toDate)
    | Exit r => Exit r
    | Raise e => Raise e
    end.
Proof.
  unfold PagesRouter.validate, AppRouter.validate, bind, call_.
  change PagesRouter.validateWalletAddress
    with AppRouter.validateWalletAddress.
  change PagesRouter.validateDateFormat with AppRouter.validateDateFormat.
  change (PagesRouter.parseAndValidateDate LocalTZA)
    with (AppRouter.parseAndValidateDate LocalTZA).
  destruct (truthy wallet); simpl; [|reflexivity].
  destruct (AppRouter.validateWalletAddress wallet); simpl; [|reflexivity].
  destruct from_date as [f|]; simpl; [destruct (truthy f) eqn:Tf|];
    [destruct (AppRouter.validateDateFormat f); simpl; [|reflexivity];
     destruct (AppRouter.parseAndValidateDate LocalTZA f) as [Df|ef] eqn:Pf;
     [|reflexivity] | |];
    (destruct to_date as [t|]; simpl; [destruct (truthy t) eqn:Tt|];
     [destruct (AppRouter.validateDateFormat t); simpl; [|reflexivity];
      destruct (AppRouter.parseAndValidateDate LocalTZA t) as [Dt|et] eqn:Pt;
      [|reflexivity] | |]);
    try rewrite Tf; try rewrite Tt; simpl;
    try rewrite Pf; try rewrite Pt; simpl;
    try (destruct (Date_ge Df Dt)); reflexivity.
Qed.

(** For a GET request with single-valued parameters, [handler] handles the
    request exactly as [GET] does. *)
Lemma handler_as_GET (wallet : string) (from_date to_date : option string) :
  PagesRouter.handler LocalTZA (Some "GET") (Some (QString wallet))
    (option_map QString from_date) (option_map QString to_date)
  = AppRouter.GET LocalTZA wallet from_date to_date.
Proof.
  unfold PagesRouter.handler, AppRouter.GET.
  rewrite pages_validate. simpl.
  destruct (AppRouter.validate LocalTZA wallet from_date to_date)
    as [[fd td]|r|e]; reflexivity.
Qed.

End PagesRouterFacts.

(* ================================================================== *)
(** * The validation read without Date objects *)
(* ================================================================== *)

Section MentionFacts.

Import JS Http Outcome.
Local Open Scope string_scope.

Lemma prefix_append (n s : string) :
  String.prefix n s = true <-> exists post, s = n ++ post.
Proof.
  revert s. induction n as [|a n IH]; intros s.
  - split; [intros _; now exists s | now destruct s].
  - destruct s as [|b s]; simpl.
    + split; [discriminate | intros [post E]; discriminate E].
    + destruct (ascii_dec a b) as [<-|N].
      * rewrite IH. split; intros [post E]; exists post.
        -- now rewrite E.
        -- now injection E.
      * split; [discriminate|]. intros [post E]. injection E as E1 E2.
        now destruct N.
Qed.

Lemma includes_mentions (s needle : string) :
  includes s needle = true <-> mentions s needle.
Proof.
  unfold mentions. induction s as [|c s IH].
  - cbn [includes]. rewrite orb_false_r, prefix_append. split.
    + intros [post E]. now exists "", post.
    + intros (pre & post & E). symmetry in E.
      apply append_eq_empty in E as [_ E].
      apply append_eq_empty in E as [-> ->]. now exists "".
  - cbn [includes]. rewrite orb_true_iff, prefix_append, IH. split.
    + intros [[post E] | (pre & post & E)].
      * now exists "", post.
      * exists (String c pre), post. now rewrite E.
    + intros (pre & post & E). destruct pre as [|c' pre].
      * left. now exists post.
      * right. injection E as _ E. now exists pre, post.
Qed.

End MentionFacts.

Section FieldFacts.

Import JS Http Outcome.
Local Open Scope string_scope.

(** A string of [n] digits stands for a number below [10 ^ n]. *)
Lemma decimal_value_below (a : string) (acc : Z) :
  (0 <= acc)%Z -> every is_digit a = true ->
  (decimal_value acc a < (acc + 1) * 10 ^ Z.of_nat (String.length a))%Z.
Proof.
  revert acc. induction a as [|c a IH]; cbn [decimal_value every String.length];
    intros acc Hacc E; [simpl; lia|].
  apply andb_prop in E as [Hc Ha].
  assert (D : (0 <= digit_value c <= 9)%Z).
  { unfold is_digit in Hc. apply andb_prop in Hc as [H1 H2].
    apply Nat.leb_le in H1, H2. unfold digit_value. lia. }
  specialize (IH (10 * acc + digit_value c)%Z ltac:(lia) Ha).
  rewrite Nat2Z.inj_succ, Z.pow_succ_r by lia.
  set (P := (10 ^ Z.of_nat (String.length a))%Z) in *.
  assert (0 < P)%Z by (apply Z.pow_pos_nonneg; lia).
  nia.
Qed.

(** The three numbers of a string of the date format: two of at most two
    digits and one of four. *)
Lemma date_fields_bounded (date : string) :
  AppRouter.validateDateFormat date = true ->
  exists d m y,
    fields date = [Num d; Num m; Num y]
    /\ (0 <= d <= 99)%Z /\ (0 <= m <= 99)%Z /\ (0 <= y <= 9999)%Z.
Proof.
  intros H. apply validateDateFormat_shape in H
    as (a & b & c & -> & [La Ea] & [Lb Eb] & [Lc Ec]).
  pose proof (every_impl _ _ a digit_is_not_dot Ea) as Na.
  pose proof (every_impl _ _ b digit_is_not_dot Eb) as Nb.
  pose proof (every_impl _ _ c digit_is_not_dot Ec) as Nc.
  exists (decimal_value 0 a), (decimal_value 0 b), (decimal_value 0 c).
  assert (B : forall s n,
             String.length s <= n -> every is_digit s = true ->
             (0 <= decimal_value 0 s <= 10 ^ Z.of_nat n - 1)%Z).
  { intros s n L E. split; [apply decimal_value_nonneg; (assumption || lia)|].
    pose proof (decimal_value_below s 0 ltac:(lia) E) as U.
    assert (10 ^ Z.of_nat (String.length s) <= 10 ^ Z.of_nat n)%Z
      by (apply Z.pow_le_mono_r; lia).
    lia. }
  split; [|split; [|split]].
  - unfold fields.
    change (a ++ "." ++ b ++ "." ++ c)
      with (a ++ String "." (b ++ String "." c)).
    rewrite !split_first, split_whole by assumption.
    simpl. rewrite !Number_digits by (assumption || lia). reflexivity.
  - apply (B a 2); (assumption || lia).
  - apply (B b 2); (assumption || lia).
  - apply (B c 4); (assumption || lia).
Qed.

End FieldFacts.

Section DecisionFacts.

Import JS Http Outcome Samples.
Local Open Scope string_scope.

Variable LocalTZA : Z.
Hypothesis offset : plausible_offset LocalTZA.

Local Abbreviation parse := (AppRouter.parseAndValidateDate LocalTZA).

(** The day a string of three numeric fields stands for. *)
Lemma day_of_fields (date : string) (d m y : Z) :
  fields date = [Num d; Num m; Num y] -> day_of date = day_number y m d.
Proof. unfold day_of. now intros ->. Qed.

(** On a string of the date format, [parseAndValidateDate] throws one of
    its first three errors or returns local midnight of the day the string
    stands for: its last error cannot occur. *)
Lemma parse_vs_rejection (name date : string) :
  AppRouter.validateDateFormat date = true ->
  match date_rejection name date with
  | Some e =>
      exists message,
        parse date = Throw (ErrorObject message)
        /\ e = "Invalid " ++ name ++ ": " ++ message
        /\ In message ["Invalid day"; "Invalid month"; "Invalid year"]
  | None =>
      well_formed date
      /\ parse date
         = Return (mkDate (Num (day_of date * msPerDay - LocalTZA)))
  end.
Proof.
  intros F. unfold date_rejection. rewrite F. cbn [negb].
  destruct (date_fields _ F) as (d & m & y & Fs & _).
  change (map Number (split "." date)) with (fields date) in Fs.
  rewrite Fs, (parse_of_fields LocalTZA _ _ _ _ Fs).
  destruct ((d <? 1) || (31 <? d))%Z eqn:Hd;
    [exists "Invalid day"; split; [reflexivity|];
     split; [reflexivity | simpl; tauto]|].
  destruct ((m <? 1) || (12 <? m))%Z eqn:Hm;
    [exists "Invalid month"; split; [reflexivity|];
     split; [reflexivity | simpl; tauto]|].
  destruct ((y <? 2020) || (2030 <? y))%Z eqn:Hy;
    [exists "Invalid year"; split; [reflexivity|];
     split; [reflexivity | simpl; tauto]|].
  assert (B : in_bounds d m y).
  { unfold in_bounds.
    apply orb_false_elim in Hd as [? ?], Hm as [? ?], Hy as [? ?]. lia. }
  split.
  - split; [assumption|]. now exists d, m, y.
  - rewrite (new_Date_in_bounds LocalTZA _ _ _ offset B).
    now rewrite (day_of_fields _ _ _ _ Fs).
Qed.

(** Two local midnights compare as their day numbers do. *)
Lemma Date_ge_days (a b : Z) :
  Date_ge (mkDate (Num (a * msPerDay - LocalTZA)))
          (mkDate (Num (b * msPerDay - LocalTZA)))
  = (b <=? a)%Z.
Proof.
  unfold Date_ge, ge, getTime, msPerDay.
  apply eq_true_iff_eq. rewrite !Z.leb_le. lia.
Qed.

(** One date block of the [try] block, as a function of the parameter. *)
Lemma date_block (name : string) (q : option string) :
  match q with
  | Some s =>
      if truthy s then
        if negb (AppRouter.validateDateFormat s)
        then Exit (AppRouter.error_response
                     ("Invalid " ++ name ++ " format. Use DD.MM.YYYY") 400)
        else match parse s with
             | Return _ => Next (Some s)
             | Throw error =>
                 Exit (AppRouter.error_response
                         ("Invalid " ++ name ++ ": "
                          ++ message_or_unknown error) 400)
             end
      else Next None
  | None => Next None
  end
  = match supplied q with
    | Some s =>
        match date_rejection name s with
        | Some e => Exit (AppRouter.error_response e 400)
        | None => Next (Some s)
        end
    | None => Next None
    end.
Proof.
  unfold supplied. destruct q as [s|]; [|reflexivity].
  destruct (truthy s); [|reflexivity].
  destruct (AppRouter.validateDateFormat s) eqn:F; cbn [negb].
  - pose proof (parse_vs_rejection name s F) as P.
    destruct (date_rejection name s) as [e|].
    + destruct P as (message & -> & -> & _). reflexivity.
    + destruct P as (_ & ->). reflexivity.
  - unfold date_rejection. rewrite F. reflexivity.
Qed.

(** A supplied date is not empty. *)
Lemma supplied_truthy (q : option string) (s : string) :
  supplied q = Some s -> truthy s = true.
Proof.
  unfold supplied. destruct q as [x|]; [|discriminate].
  destruct (truthy x) eqn:T; [|discriminate]. now intros [= <-].
Qed.

(** [validate] decides as [rejection] does. *)
Lemma validate_rejection (wallet : string) (from_date to_date : option string) :
  AppRouter.validate LocalTZA wallet from_date to_date
  = match rejection wallet from_date to_date with
    | Some e => Exit (mkResponse 400 (ErrorJson e) [])
    | None => Next (supplied from_date, supplied to_date)
    end.
Proof.
  unfold AppRouter.validate, rejection.
  rewrite validateWalletAddress_spec.
  destruct (truthy wallet); [|reflexivity].
  destruct (Base58.is_address wallet); [|reflexivity].
  cbn [negb bind].
  pose proof (date_block "from_date" from_date) as Bf.
  pose proof (date_block "to_date" to_date) as Bt.
  cbn [String.append] in Bf, Bt |- *. rewrite Bf, Bt. clear Bf Bt.
  destruct (supplied from_date) as [f|] eqn:Sf;
    destruct (supplied to_date) as [t|] eqn:St; cbn [bind].
  - pose proof (parse_vs_rejection "from_date" f) as Pf.
    pose proof (parse_vs_rejection "to_date" t) as Pt.
    destruct (date_rejection "from_date" f) as [e|] eqn:Rf; [reflexivity|].
    destruct (date_rejection "to_date" t) as [e|] eqn:Rt; [reflexivity|].
    cbn [bind].
    rewrite (supplied_truthy _ _ Sf), (supplied_truthy _ _ St). cbn [andb].
    assert (Ff : AppRouter.validateDateFormat f = true).
    { unfold date_rejection in Rf.
      destruct (AppRouter.validateDateFormat f); [reflexivity|discriminate]. }
    assert (Ft : AppRouter.validateDateFormat t = true).
    { unfold date_rejection in Rt.
      destruct (AppRouter.validateDateFormat t); [reflexivity|discriminate]. }
    destruct (Pf Ff) as (_ & ->). destruct (Pt Ft) as (_ & ->).
    cbn [call_ bind]. rewrite Date_ge_days.
    destruct (day_of t <=? day_of f)%Z; reflexivity.
  - destruct (date_rejection "from_date" f); reflexivity.
  - destruct (date_rejection "to_date" t); reflexivity.
  - reflexivity.
Qed.

(** [GET] decides as [verdict] does. *)
Lemma GET_verdict (wallet : string) (from_date to_date : option string) :
  AppRouter.GET LocalTZA wallet from_date to_date
  = verdict wallet from_date to_date.
Proof.
  unfold AppRouter.GET, verdict. rewrite validate_rejection.
  destruct (rejection wallet from_date to_date); reflexivity.
Qed.

End DecisionFacts.

Section ResponseFacts.

Import JS Http Outcome.
Import PagesRouter.
Local Open Scope string_scope.

Variable LocalTZA : Z.

(** A response with an error body and no header, as the handlers build it
    everywhere but on success. *)
Lemma validate_exits (wallet : string) (from_date to_date : option string) :
  match AppRouter.validate LocalTZA wallet from_date to_date with
  | Exit r => exists e, r = mkResponse 400 (ErrorJson e) []
  | Raise _ => False
  | Next _ => True
  end.
Proof.
  unfold AppRouter.validate, bind, call_, AppRouter.error_response.
  destruct (truthy wallet); simpl; [|eauto].
  destruct (AppRouter.validateWalletAddress wallet); simpl; [|eauto].
  destruct from_date as [f|]; [destruct (truthy f) eqn:Tf|];
    [destruct (AppRouter.validateDateFormat f) eqn:Ff; simpl; [|eauto];
     destruct (AppRouter.parseAndValidateDate LocalTZA f) as [Df|ef] eqn:Pf;
     [|eauto] | |];
    (destruct to_date as [t|]; [destruct (truthy t) eqn:Tt|];
     [destruct (AppRouter.validateDateFormat t) eqn:Ft; simpl; [|eauto];
      destruct (AppRouter.parseAndValidateDate LocalTZA t) as [Dt|et] eqn:Pt;
      [|eauto] | |]);
    try rewrite Tf; try rewrite Tt; simpl;
    try rewrite Pf; try rewrite Pt; simpl;
    try (destruct (Date_ge Df Dt) eqn:G); eauto.
Qed.

(** What [on_error] can answer. *)
Lemma on_error_cases (error : thrown) :
  exists e,
    AppRouter.on_error error = mkResponse 429 (ErrorJson e) []
    \/ AppRouter.on_error error = mkResponse 400 (ErrorJson e) []
    \/ AppRouter.on_error error = mkResponse 500 (ErrorJson e) [].
Proof.
  unfold AppRouter.on_error, AppRouter.error_response.
  destruct error as [message|]; [|eauto].
  destruct (includes message "rate limit" || includes message "429");
    [eauto|].
  destruct (includes message "Invalid"); eauto.
Qed.

(** The responses [GET] can give. *)
Lemma GET_run_cases
    (analyze : option string -> string -> option string
               -> completion Model.TradeReport)
    (wallet : string) (from_date to_date : option string) :
  let r := run analyze (AppRouter.GET LocalTZA wallet from_date to_date) in
  (exists trades,
     r = mkResponse 200 (TradesJson trades)
           [("Cache-Control",
             "public, s-maxage=60, stale-while-revalidate=300")])
  \/ (exists e,
        r = mkResponse 429 (ErrorJson e) []
        \/ r = mkResponse 400 (ErrorJson e) []
        \/ r = mkResponse 500 (ErrorJson e) []).
Proof.
  unfold AppRouter.GET.
  pose proof (validate_exits wallet from_date to_date) as E.
  destruct (AppRouter.validate LocalTZA wallet from_date to_date)
    as [[fd td]|r|e]; cbn [run].
  - destruct (analyze fd wallet td) as [trades|error]; [left; eauto|].
    right. apply on_error_cases.
  - destruct E as [e ->]. right. exists e. tauto.
  - destruct E.
Qed.

(** An array among the query values makes [validate] exit; without one,
    [validate] is the validation of the App Router. *)
Lemma pages_validate_cases (wallet from_date to_date : option query_value) :
  match PagesRouter.validate LocalTZA wallet from_date to_date with
  | Exit r => exists e, r = mkResponse 400 (ErrorJson e) []
  | Raise _ => False
  | Next (w, fromDate, toDate) =>
      wallet = Some (QString w)
      /\ exists fq tq,
           from_date = option_map QString fq
           /\ to_date = option_map QString tq
           /\ AppRouter.validate LocalTZA w fq tq = Next (fromDate, toDate)
  end.
Proof.
  destruct wallet as [[w|ws]|];
    [|unfold PagesRouter.validate, PagesRouter.error_response; simpl;
      eauto ..].
  assert (Arr : forall items,
             from_date = Some (QArray items) \/ to_date = Some (QArray items) ->
             match PagesRouter.validate LocalTZA (Some (QString w))
                     from_date to_date with
             | Exit r => exists e, r = mkResponse 400 (ErrorJson e) []
             | _ => False
             end).
  { intros items H.
    unfold PagesRouter.validate, bind, call_, PagesRouter.error_response.
    destruct (truthy w); simpl; [|eauto].
    destruct (PagesRouter.validateWalletAddress w); simpl; [|eauto].
    destruct from_date as [[f|fs]|]; simpl; [| eauto |].
    - destruct H as [H|H]; [discriminate|]. subst to_date.
      destruct (truthy f); simpl; [|eauto].
      destruct (PagesRouter.validateDateFormat f); simpl; [|eauto].
      destruct (PagesRouter.parseAndValidateDate LocalTZA f); simpl; eauto.
    - destruct H as [H|H]; [discriminate|]. subst to_date. simpl. eauto. }
  assert (Str : forall fq tq,
             from_date = option_map QString fq ->
             to_date = option_map QString tq ->
             match PagesRouter.validate LocalTZA (Some (QString w))
                     from_date to_date with
             | Exit r => exists e, r = mkResponse 400 (ErrorJson e) []
             | Raise _ => False
             | Next (w', fromDate, toDate) =>
                 Some (QString w) = Some (QString w')
                 /\ exists fq tq,
                      from_date = option_map QString fq
                      /\ to_date = option_map QString tq
                      /\ AppRouter.validate LocalTZA w' fq tq
                         = Next (fromDate, toDate)
             end).
  { intros fq tq -> ->. rewrite pages_validate.
    pose proof (validate_exits w fq tq) as E.
    destruct (AppRouter.validate LocalTZA w fq tq) as [[fd td]|r|e] eqn:V;
      [|assumption ..].
    split; [reflexivity|]. now exists fq, tq. }
  destruct from_date as [[f|fs]|], to_date as [[t|ts]|].
  - exact (Str (Some f) (Some t) eq_refl eq_refl).
  - specialize (Arr ts (or_intror eq_refl)).
    destruct (PagesRouter.validate _ _ _ _) as [[[? ?] ?]|r|e];
      [destruct Arr | assumption | assumption].
  - exact (Str (Some f) None eq_refl eq_refl).
  - specialize (Arr fs (or_introl eq_refl)).
    destruct (PagesRouter.validate _ _ _ _) as [[[? ?] ?]|r|e];
      [destruct Arr | assumption | assumption].
  - specialize (Arr fs (or_introl eq_refl)).
    destruct (PagesRouter.validate _ _ _ _) as [[[? ?] ?]|r|e];
      [destruct Arr | assumption | assumption].
  - specialize (Arr fs (or_introl eq_refl)).
    destruct (PagesRouter.validate _ _ _ _) as [[[? ?] ?]|r|e];
      [destruct Arr | assumption | assumption].
  - exact (Str None (Some t) eq_refl eq_refl).
  - specialize (Arr ts (or_intror eq_refl)).
    destruct (PagesRouter.validate _ _ _ _) as [[[? ?] ?]|r|e];
      [destruct Arr | assumption | assumption].
  - exact (Str None None eq_refl eq_refl).
Qed.

(** On any query values, the validation of the Pages Router is that of the
    App Router on what [as_wallet] and [as_date] make of them. *)
Lemma pages_validate_any (wallet from_date to_date : option query_value) :
  PagesRouter.validate LocalTZA wallet from_date to_date
  = match AppRouter.validate LocalTZA (as_wallet wallet) (as_date from_date)
            (as_date to_date) with
    | Next (fromDate, toDate) => Next (as_wallet wallet, fromDate, toDate)
    | Exit r => Exit r
    | Raise e => Raise e
    end.
Proof.
  assert (Bad : AppRouter.validateDateFormat "[]" = false) by reflexivity.
  unfold PagesRouter.validate, AppRouter.validate, bind, call_.
  change PagesRouter.validateWalletAddress
    with AppRouter.validateWalletAddress.
  change PagesRouter.validateDateFormat with AppRouter.validateDateFormat.
  change (PagesRouter.parseAndValidateDate LocalTZA)
    with (AppRouter.parseAndValidateDate LocalTZA).
  destruct wallet as [[w|ws]|]; cbn [as_wallet]; [|reflexivity ..].
  destruct (truthy w); simpl; [|reflexivity].
  destruct (AppRouter.validateWalletAddress w); simpl; [|reflexivity].
  destruct from_date as [[f|fs]|]; cbn [as_date truthy_query];
    [destruct (truthy f) eqn:Tf;
     [destruct (AppRouter.validateDateFormat f); simpl; [|reflexivity];
      destruct (AppRouter.parseAndValidateDate LocalTZA f) as [Df|ef] eqn:Pf;
      [|reflexivity] |]
    | rewrite Bad; reflexivity |];
    (destruct to_date as [[t|ts]|]; cbn [as_date truthy_query];
     [destruct (truthy t) eqn:Tt;
      [destruct (AppRouter.validateDateFormat t); simpl; [|reflexivity];
       destruct (AppRouter.parseAndValidateDate LocalTZA t) as [Dt|et] eqn:Pt;
       [|reflexivity] |]
     | rewrite Bad; reflexivity |]);
    try rewrite Tf; try rewrite Tt; simpl;
    try rewrite Pf; try rewrite Pt; simpl;
    try (destruct (Date_ge Df Dt)); reflexivity.
Qed.

(** A GET request with any query values is handled as the App Router
    handles what [as_wallet] and [as_date] make of them. *)
Lemma handler_as_GET_any (wallet from_date to_date : option query_value) :
  PagesRouter.handler LocalTZA (Some "GET") wallet from_date to_date
  = AppRouter.GET LocalTZA (as_wallet wallet) (as_date from_date)
      (as_date to_date).
Proof.
  unfold PagesRouter.handler, AppRouter.GET.
  rewrite pages_validate_any. simpl.
  destruct (AppRouter.validate LocalTZA (as_wallet wallet)
              (as_date from_date) (as_date to_date))
    as [[fd td]|r|e]; reflexivity.
Qed.

(** A date that is an array makes [handler] answer 400 without a call. *)
Lemma handler_rejects_array_date
    (wallet from_date to_date : option query_value) (items : list string) :
  from_date = Some (QArray items) \/ to_date = Some (QArray items) ->
  rejected (PagesRouter.handler LocalTZA (Some "GET") wallet from_date
              to_date).
Proof.
  intros H. unfold rejected, PagesRouter.handler. cbn [String.eqb negb].
  change (("GET" =? "GET")%string) with true. cbn [negb].
  pose proof (pages_validate_cases wallet from_date to_date) as E.
  destruct (PagesRouter.validate LocalTZA wallet from_date to_date)
    as [[[w fd] td]|r|e].
  - destruct E as (_ & fq & tq & Ef & Et & _). exfalso.
    destruct H as [H|H]; [rewrite H in Ef; now destruct fq
                         | rewrite H in Et; now destruct tq].
  - destruct E as [e ->]. eexists. split; [reflexivity|]. now split.
  - destruct E.
Qed.

End ResponseFacts.

Section QueryFacts.

Import Query PagesRouter.
Local Open Scope string_scope.

(** [get] is the first of the values [getAll] gives. *)
Lemma get_first (q : pairs) (name : string) :
  get q name = hd_error (getAll q name).
Proof.
  unfold getAll. induction q as [|[n v] q IH]; [reflexivity|].
  cbn [get filter fst]. destruct (n =? name); [reflexivity | exact IH].
Qed.

(** For a name given at most once, the Pages Router reads what the App
    Router reads. *)
Lemma entry_single (q : pairs) (name : string) :
  List.length (getAll q name) <= 1 ->
  query_entry q name = option_map QString (get q name).
Proof.
  rewrite get_first. unfold query_entry.
  destruct (getAll q name) as [|v [|v' vs]]; simpl; intros L;
    [reflexivity | reflexivity | lia].
Qed.

(** For a name given more than once, the Pages Router reads an array and
    the App Router the first value. *)
Lemma entry_repeated (q : pairs) (name : string) :
  1 < List.length (getAll q name) ->
  exists v vs,
    query_entry q name = Some (QArray (v :: vs)) /\ get q name = Some v.
Proof.
  rewrite get_first. unfold query_entry.
  destruct (getAll q name) as [|v [|v' vs]]; simpl; intros L;
    [lia | lia |]. now exists v, (v' :: vs).
Qed.

End QueryFacts.

Section CalendarFacts.

Import JS Outcome Samples.
Local Open Scope Z_scope.

Lemma leap_cases y :
  (InLeapYear y = 0 \/ InLeapYear y = 1)
  /\ DaysInYear y = 365 + InLeapYear y.
Proof.
  unfold InLeapYear, DaysInYear.
  destruct (negb (y mod 4 =? 0)); [auto|].
  destruct (negb (y mod 100 =? 0)); [auto|].
  destruct (negb (y mod 400 =? 0)); auto.
Qed.

(** The position of a calendar date inside its year. *)
Lemma in_calendar_in_year d m y :
  in_calendar d m y ->
  0 <= DaysBeforeMonth y (m - 1) + d - 1 < DaysInYear y.
Proof.
  intros [Hm Hd]. destruct (leap_cases y) as [Leap ->].
  remember (m - 1) as k eqn:Ek.
  assert (K : k = 0 \/ k = 1 \/ k = 2 \/ k = 3 \/ k = 4 \/ k = 5 \/ k = 6
              \/ k = 7 \/ k = 8 \/ k = 9 \/ k = 10 \/ k = 11) by lia.
  clear Hm Ek. revert Hd. unfold DaysBeforeMonth, DaysInMonth.
  repeat (destruct K as [-> | K]); try subst k; lia.
Qed.

(** Within a year, the months follow one another. *)
Lemma months_in_order d1 m1 d2 m2 y :
  in_calendar d1 m1 y -> in_calendar d2 m2 y -> m1 < m2 ->
  DaysBeforeMonth y (m1 - 1) + d1 < DaysBeforeMonth y (m2 - 1) + d2.
Proof.
  intros [Hm1 Hd1] [Hm2 Hd2] L. destruct (leap_cases y) as [Leap _].
  remember (m1 - 1) as k1 eqn:E1. remember (m2 - 1) as k2 eqn:E2.
  assert (L' : k1 < k2) by lia.
  assert (K1 : k1 = 0 \/ k1 = 1 \/ k1 = 2 \/ k1 = 3 \/ k1 = 4 \/ k1 = 5
               \/ k1 = 6 \/ k1 = 7 \/ k1 = 8 \/ k1 = 9 \/ k1 = 10
               \/ k1 = 11) by lia.
  assert (K2 : k2 = 0 \/ k2 = 1 \/ k2 = 2 \/ k2 = 3 \/ k2 = 4 \/ k2 = 5
               \/ k2 = 6 \/ k2 = 7 \/ k2 = 8 \/ k2 = 9 \/ k2 = 10
               \/ k2 = 11) by lia.
  clear Hm1 Hm2 E1 E2 L. revert Hd1 Hd2 L'.
  unfold DaysBeforeMonth, DaysInMonth.
  repeat (destruct K1 as [-> | K1]); try subst k1;
    repeat (destruct K2 as [-> | K2]); try subst k2; lia.
Qed.

(** Day numbers grow with the calendar. *)
Lemma day_number_grows d1 m1 y1 d2 m2 y2 :
  in_calendar d1 m1 y1 -> in_calendar d2 m2 y2 ->
  earlier d1 m1 y1 d2 m2 y2 ->
  day_number y1 m1 d1 < day_number y2 m2 d2.
Proof.
  intros C1 C2 E. unfold day_number.
  pose proof (in_calendar_in_year _ _ _ C1) as R1.
  pose proof (in_calendar_in_year _ _ _ C2) as R2.
  destruct E as [Y | [<- [M | [<- D]]]].
  - pose proof (DayFromYear_next y1) as Nx.
    pose proof (DayFromYear_mono (y1 + 1) y2 ltac:(lia)). lia.
  - pose proof (months_in_order _ _ _ _ _ C1 C2 M). lia.
  - lia.
Qed.

(** On dates of the calendar, the order of the day numbers is the order of
    the calendar. *)
Lemma day_number_order d1 m1 y1 d2 m2 y2 :
  in_calendar d1 m1 y1 -> in_calendar d2 m2 y2 ->
  day_number y1 m1 d1 < day_number y2 m2 d2 <-> earlier d1 m1 y1 d2 m2 y2.
Proof.
  intros C1 C2. split; [|apply day_number_grows; assumption].
  intros L.
  assert (T : earlier d1 m1 y1 d2 m2 y2
              \/ (d1 = d2 /\ m1 = m2 /\ y1 = y2)
              \/ earlier d2 m2 y2 d1 m1 y1) by (unfold earlier; lia).
  destruct T as [E | [(-> & -> & ->) | E]]; [assumption | lia |].
  pose proof (day_number_grows _ _ _ _ _ _ C2 C1 E). lia.
Qed.

(** No month has more than 31 days. *)
Lemma DaysInMonth_at_most_31 y k : DaysInMonth y k <= 31.
Proof.
  destruct (leap_cases y) as [Leap _]. unfold DaysInMonth.
  repeat match goal with
         | |- context [match ?x with _ => _ end] => destruct x
         end; lia.
Qed.

(** A date of the calendar in one of the years 2020 to 2030 is within the
    bounds. *)
Lemma in_calendar_in_bounds d m y :
  in_calendar d m y -> 2020 <= y <= 2030 -> in_bounds d m y.
Proof.
  intros [Hm Hd] Hy. pose proof (DaysInMonth_at_most_31 y (m - 1)).
  unfold in_bounds. lia.
Qed.

(** A day past the end of its month has the day number of the day of the
    next month it runs over to. *)
Lemma day_number_rolls_over d m y :
  1 <= m <= 11 ->
  day_number y m d = day_number y (m + 1) (d - DaysInMonth y (m - 1)).
Proof.
  intros Hm. unfold day_number.
  remember (m - 1) as k eqn:Ek. remember (m + 1 - 1) as k' eqn:Ek'.
  assert (E : k' = k + 1) by lia.
  assert (K : k = 0 \/ k = 1 \/ k = 2 \/ k = 3 \/ k = 4 \/ k = 5 \/ k = 6
              \/ k = 7 \/ k = 8 \/ k = 9 \/ k = 10) by lia.
  clear Hm Ek Ek'.
  repeat (destruct K as [-> | K]); try subst k; cbn in E; subst k';
    unfold DaysBeforeMonth, DaysInMonth; lia.
Qed.

End CalendarFacts.

Section RejectionFacts.

Import JS Http Outcome Samples.
Local Open Scope string_scope.

(** A date has no fault exactly when it is well formed. *)
Lemma date_rejection_none (name date : string) :
  date_rejection name date = None <-> well_formed date.
Proof.
  unfold date_rejection, well_formed. split.
  - destruct (AppRouter.validateDateFormat date) eqn:F; [|discriminate].
    cbn [negb]. destruct (date_fields _ F) as (d & m & y & Fs & _).
    change (map Number (split "." date)) with (fields date) in Fs.
    rewrite Fs.
    destruct ((d <? 1) || (31 <? d))%Z eqn:Hd; [discriminate|].
    destruct ((m <? 1) || (12 <? m))%Z eqn:Hm; [discriminate|].
    destruct ((y <? 2020) || (2030 <? y))%Z eqn:Hy; [discriminate|].
    intros _. split; [reflexivity|]. exists d, m, y. split; [reflexivity|].
    unfold in_bounds.
    apply orb_false_elim in Hd as [? ?], Hm as [? ?], Hy as [? ?]. lia.
  - intros (F & d & m & y & Fs & Hd & Hm & Hy). rewrite F, Fs. cbn [negb].
    replace ((d <? 1) || (31 <? d))%Z with false
      by (symmetry; apply orb_false_intro; apply Z.ltb_ge; lia).
    replace ((m <? 1) || (12 <? m))%Z with false
      by (symmetry; apply orb_false_intro; apply Z.ltb_ge; lia).
    replace ((y <? 2020) || (2030 <? y))%Z with false
      by (symmetry; apply orb_false_intro; apply Z.ltb_ge; lia).
    reflexivity.
Qed.

(** The error of a date names its first fault. *)
Lemma date_rejection_fault (name date e : string) :
  date_rejection name date = Some e <->
  exists fault, first_fault date fault /\ e = "Invalid " ++ name ++ fault.
Proof.
  unfold date_rejection, first_fault. split.
  - destruct (AppRouter.validateDateFormat date) eqn:F; cbn [negb].
    + destruct (date_fields _ F) as (d & m & y & Fs & _).
      change (map Number (split "." date)) with (fields date) in Fs.
      rewrite Fs.
      destruct ((d <? 1) || (31 <? d))%Z eqn:Hd.
      { intros [= <-]. exists ": Invalid day". split; [|reflexivity].
        right. split; [reflexivity|]. exists d, m, y.
        split; [reflexivity|]. left. split; [|reflexivity].
        apply orb_true_iff in Hd as [H|H]; apply Z.ltb_lt in H; lia. }
      apply orb_false_elim in Hd as [Hd1 Hd2].
      apply Z.ltb_ge in Hd1, Hd2.
      destruct ((m <? 1) || (12 <? m))%Z eqn:Hm.
      { intros [= <-]. exists ": Invalid month". split; [|reflexivity].
        right. split; [reflexivity|]. exists d, m, y.
        split; [reflexivity|]. right. left.
        split; [lia|]. split; [|reflexivity].
        apply orb_true_iff in Hm as [H|H]; apply Z.ltb_lt in H; lia. }
      apply orb_false_elim in Hm as [Hm1 Hm2].
      apply Z.ltb_ge in Hm1, Hm2.
      destruct ((y <? 2020) || (2030 <? y))%Z eqn:Hy; [|discriminate].
      intros [= <-]. exists ": Invalid year". split; [|reflexivity].
      right. split; [reflexivity|]. exists d, m, y.
      split; [reflexivity|]. right. right.
      split; [lia|]. split; [lia|]. split; [|reflexivity].
      apply orb_true_iff in Hy as [H|H]; apply Z.ltb_lt in H; lia.
    + intros [= <-]. exists " format. Use DD.MM.YYYY".
      split; [|reflexivity]. left. now split.
  - intros (fault & [[F ->] | (F & d & m & y & Fs & C)] & ->);
      rewrite F; cbn [negb]; [reflexivity|]. rewrite Fs.
    destruct C as [[Hd ->] | [(Hd & Hm & ->) | (Hd & Hm & Hy & ->)]].
    + replace ((d <? 1) || (31 <? d))%Z with true; [reflexivity|].
      symmetry. apply orb_true_iff. rewrite !Z.ltb_lt. lia.
    + replace ((d <? 1) || (31 <? d))%Z with false
        by (symmetry; apply orb_false_intro; apply Z.ltb_ge; lia).
      replace ((m <? 1) || (12 <? m))%Z with true; [reflexivity|].
      symmetry. apply orb_true_iff. rewrite !Z.ltb_lt. lia.
    + replace ((d <? 1) || (31 <? d))%Z with false
        by (symmetry; apply orb_false_intro; apply Z.ltb_ge; lia).
      replace ((m <? 1) || (12 <? m))%Z with false
        by (symmetry; apply orb_false_intro; apply Z.ltb_ge; lia).
      replace ((y <? 2020) || (2030 <? y))%Z with true; [reflexivity|].
      symmetry. apply orb_true_iff. rewrite !Z.ltb_lt. lia.
Qed.

(** An address is not empty. *)
Lemma address_truthy (wallet : string) :
  Base58.is_address wallet = true -> truthy wallet = true.
Proof. now destruct wallet. Qed.

(** The requests that are let through. *)
Lemma rejection_none (wallet : string) (from_date to_date : option string) :
  rejection wallet from_date to_date = None <->
  Base58.is_address wallet = true
  /\ (forall s, supplied from_date = Some s \/ supplied to_date = Some s ->
                well_formed s)
  /\ in_order (supplied from_date) (supplied to_date).
Proof.
  unfold rejection, in_order.
  destruct (Base58.is_address wallet) eqn:W.
  2:{ destruct (truthy wallet); cbn [negb];
        (split; [discriminate | now intros [? _]]). }
  rewrite (address_truthy _ W). cbn [negb].
  destruct (supplied from_date) as [f|], (supplied to_date) as [t|].
  - destruct (date_rejection "from_date" f) as [e|] eqn:Rf.
    { split; [discriminate|]. intros (_ & H & _).
      specialize (H f (or_introl eq_refl)).
      apply (date_rejection_none "from_date") in H. congruence. }
    destruct (date_rejection "to_date" t) as [e|] eqn:Rt.
    { split; [discriminate|]. intros (_ & H & _).
      specialize (H t (or_intror eq_refl)).
      apply (date_rejection_none "to_date") in H. congruence. }
    apply date_rejection_none in Rf, Rt.
    destruct (Z.leb_spec (day_of t) (day_of f)) as [L|L].
    + split; [discriminate|]. intros (_ & _ & O). lia.
    + split; [|reflexivity]. intros _. split; [reflexivity|].
      split; [|assumption]. now intros s [[= <-] | [= <-]].
  - rewrite date_rejection_none. split.
    + intros H. split; [reflexivity|]. split; [|exact I].
      now intros s [[= <-] | [=]].
    + intros (_ & H & _). apply H. now left.
  - rewrite date_rejection_none. split.
    + intros H. split; [reflexivity|]. split; [|exact I].
      now intros s [[=] | [= <-]].
    + intros (_ & H & _). apply H. now right.
  - split; [|reflexivity]. intros _. split; [reflexivity|].
    split; [|exact I]. now intros s [[=] | [=]].
Qed.

(** The errors a request can be rejected with. *)
Lemma rejection_messages (wallet : string) (from_date to_date : option string)
    (e : string) :
  rejection wallet from_date to_date = Some e ->
  In e ["Wallet address is required";
        "Invalid wallet address format";
        "Invalid from_date format. Use DD.MM.YYYY";
        "Invalid from_date: Invalid day";
        "Invalid from_date: Invalid month";
        "Invalid from_date: Invalid year";
        "Invalid to_date format. Use DD.MM.YYYY";
        "Invalid to_date: Invalid day";
        "Invalid to_date: Invalid month";
        "Invalid to_date: Invalid year";
        "from_date must be earlier than to_date"].
Proof.
  assert (D : forall name s x,
             date_rejection name s = Some x ->
             In x ["Invalid " ++ name ++ " format. Use DD.MM.YYYY";
                   "Invalid " ++ name ++ ": Invalid day";
                   "Invalid " ++ name ++ ": Invalid month";
                   "Invalid " ++ name ++ ": Invalid year"]).
  { intros name s x. unfold date_rejection.
    destruct (negb (AppRouter.validateDateFormat s));
      [intros [= <-]; simpl; tauto|].
    destruct (fields s) as [|[|d] [|[|m] [|[|y] [|? ?]]]]; try discriminate.
    destruct ((d <? 1) || (31 <? d))%Z; [intros [= <-]; simpl; tauto|].
    destruct ((m <? 1) || (12 <? m))%Z; [intros [= <-]; simpl; tauto|].
    destruct ((y <? 2020) || (2030 <? y))%Z; [intros [= <-]; simpl; tauto|].
    discriminate. }
  unfold rejection.
  destruct (truthy wallet); cbn [negb]; [|intros [= <-]; simpl; tauto].
  destruct (Base58.is_address wallet); cbn [negb];
    [|intros [= <-]; simpl; tauto].
  destruct (supplied from_date) as [f|], (supplied to_date) as [t|].
  - destruct (date_rejection "from_date" f) as [x|] eqn:Rf.
    { intros [= <-]. apply D in Rf. simpl in Rf |- *. tauto. }
    destruct (date_rejection "to_date" t) as [x|] eqn:Rt.
    { intros [= <-]. apply D in Rt. simpl in Rt |- *. tauto. }
    destruct (day_of t <=? day_of f)%Z; [|discriminate].
    intros [= <-]. simpl. tauto.
  - intros Rf. apply D in Rf. simpl in Rf |- *. tauto.
  - intros Rt. apply D in Rt. simpl in Rt |- *. tauto.
  - discriminate.
Qed.

End RejectionFacts.

(* ================================================================== *)
(** * The front end *)
(* ================================================================== *)

Section EncodingFacts.

Import JS Client Outcome.
Local Open Scope string_scope.

Lemma form_encode_byte_safe (c : ascii) :
  form_safe c = true -> form_encode_byte c = String c "".
Proof.
  unfold form_encode_byte. intros S.
  destruct (Ascii.eqb_spec c " ") as [->|_]; [discriminate S|].
  now rewrite S.
Qed.

(** The serializer leaves a string of safe bytes as it is. *)
Lemma form_encode_safe (s : string) :
  every form_safe s = true -> form_encode s = s.
Proof.
  induction s as [|c s IH]; [reflexivity|]. cbn [every form_encode].
  intros H. apply andb_true_iff in H as [Hc Hs].
  now rewrite (form_encode_byte_safe _ Hc), (IH Hs).
Qed.

Lemma form_encode_length (s : string) :
  String.length s <= String.length (form_encode s).
Proof.
  induction s as [|c s IH]; [reflexivity|]. cbn [form_encode].
  rewrite length_append. unfold form_encode_byte, percent_encode.
  destruct (Ascii.eqb c " "); [simpl; lia|].
  destruct (form_safe c); simpl; lia.
Qed.

(** Only a string of safe bytes is left as it is. *)
Lemma form_encode_fixed (s : string) :
  form_encode s = s -> every form_safe s = true.
Proof.
  induction s as [|c s IH]; [reflexivity|]. cbn [every form_encode].
  unfold form_encode_byte, percent_encode.
  destruct (Ascii.eqb_spec c " ") as [->|_]; [discriminate|].
  destruct (form_safe c) eqn:S.
  - intros E. injection E as E. now rewrite (IH E).
  - intros E. injection E as _ E. exfalso.
    pose proof (form_encode_length s) as L.
    apply (f_equal String.length) in E. simpl in E. lia.
Qed.

(** Whatever the byte, the serializer writes safe bytes, [+] or [%]. *)
Lemma form_encode_byte_output (c : ascii) :
  every form_output (form_encode_byte c) = true.
Proof. destruct c as [[] [] [] [] [] [] [] []]; reflexivity. Qed.

Lemma form_encode_output (s : string) :
  every form_output (form_encode s) = true.
Proof.
  induction s as [|c s IH]; [reflexivity|]. cbn [form_encode].
  now rewrite every_append, form_encode_byte_output, IH.
Qed.

Lemma digit_is_form_safe (c : ascii) :
  is_digit c = true -> form_safe c = true.
Proof.
  destruct c as [[] [] [] [] [] [] [] []]; intros H; now try reflexivity.
Qed.

(** A string of the date format consists of safe bytes. *)
Lemma date_format_safe (date : string) :
  AppRouter.validateDateFormat date = true -> every form_safe date = true.
Proof.
  intros F. apply validateDateFormat_shape in F
    as (a & b & c & -> & [_ Ea] & [_ Eb] & [_ Ec]).
  apply (every_impl _ _ _ digit_is_form_safe) in Ea, Eb, Ec.
  rewrite !every_append, Ea, Eb, Ec. reflexivity.
Qed.

Lemma occurrences_append (c : ascii) (a b : string) :
  occurrences c (a ++ b) = occurrences c a + occurrences c b.
Proof.
  unfold occurrences. induction a as [|x a IH]; [reflexivity|].
  cbn [String.append list_ascii_of_string filter].
  destruct (Ascii.eqb c x); cbn [List.length]; now rewrite IH.
Qed.

(** A byte the serializer cannot write does not occur in what it writes. *)
Lemma occurrences_form_encode (c : ascii) (s : string) :
  form_output c = false -> occurrences c (form_encode s) = 0.
Proof.
  intros O. pose proof (form_encode_output s) as E. revert E.
  generalize (form_encode s). intros x. unfold occurrences.
  induction x as [|b x IH]; [reflexivity|].
  cbn [every list_ascii_of_string filter]. intros E.
  apply andb_true_iff in E as [Eb Ex].
  destruct (Ascii.eqb_spec c b) as [->|_]; [congruence | now apply IH].
Qed.

(** The URL of the hook, with its query written out. *)
Lemma request_url_query (walletAddress : string)
    (fromDate toDate : option string) :
  request_url walletAddress fromDate toDate
  = "/api/trades/" ++ walletAddress
    ++ match supplied fromDate, supplied toDate with
       | None, None => ""
       | Some f, None => "?from_date=" ++ form_encode f
       | None, Some t => "?to_date=" ++ form_encode t
       | Some f, Some t =>
           "?from_date=" ++ form_encode f ++ "&to_date=" ++ form_encode t
       end.
Proof.
  unfold request_url, supplied, append. cbv zeta.
  destruct fromDate as [f|]; [destruct (truthy f)|];
    (destruct toDate as [t|]; [destruct (truthy t)|]); reflexivity.
Qed.

End EncodingFacts.

Section HookFacts.

Import JS Http Client Outcome.
Local Open Scope string_scope.

Variable A : Type.

Lemma after_app (s : state A) (es1 es2 : list (event A)) :
  after s (es1 ++ es2) = after (after s es1) es2.
Proof. apply fold_left_app. Qed.

(** A success touches neither [error] nor anything but [data] and
    [loading]. *)
Lemma successes_keep_error (s : state A) (es : list (event A)) :
  Forall (@success A) es -> error (after s es) = error s.
Proof.
  revert s. induction es as [|e es IH]; intros s H; [reflexivity|].
  inversion H as [|? ? He Hes]; subst. cbn [after fold_left].
  change (fold_left (@react A) es (react s e)) with (after (react s e) es).
  rewrite (IH _ Hes). destruct e as [|outcome]; [destruct He|].
  destruct He as [d R]. unfold react, finished. now rewrite R.
Qed.

End HookFacts.

(* ================================================================== *)
(** * The retry loop and the batch *)
(* ================================================================== *)

Section FetcherFacts.

Import RateLimitedFetcher.

Variables Request Data Provider : Type.
Variable send : Provider -> Request -> (Data + Failure) * Provider.

Local Abbreviation World := (World Provider).
Local Abbreviation attempt := (attempt send).
Local Abbreviation fetch := (fetch send).
Local Abbreviation execute := (execute send).

Lemma attempt_answer (policy : RetryPolicy) (n : nat) (delay : Z)
    (r : Request) (w : World) :
  attempt policy n delay r w =
  let (answer, p) := send (provider w) r in
  let w1 := mkWorld p (S (sent w)) (pauses w) in
  match answer with
  | inl d => (Fetched d, w1)
  | inr f =>
      match n with
      | S k =>
          if retriable policy f
          then attempt policy k (delay * backoff_factor policy) r
                 (mkWorld p (S (sent w)) (pauses w ++ [Backoff delay]))
          else (Failed f, w1)
      | O => (Failed f, w1)
      end
  end.
Proof.
  destruct n; simpl; unfold bind, call, sleep, ret;
    destruct (send (provider w) r) as [[d|f] p]; try reflexivity.
  destruct (retriable policy f); reflexivity.
Qed.

(** An attempt with [n] retries left makes [k + 1] calls for some [k <= n]
    and pauses [k] times, each pause the previous one times the factor; it
    gives up on a retriable failure only when no retry is left. *)
Lemma attempt_shape (policy : RetryPolicy) (n : nat) :
  forall (delay : Z) (r : Request) (w : World),
  exists k,
    k <= n
    /\ sent (snd (attempt policy n delay r w)) = sent w + S k
    /\ pauses (snd (attempt policy n delay r w))
       = pauses w ++ map Backoff (geometric delay (backoff_factor policy) k)
    /\ (forall f, fst (attempt policy n delay r w) = Failed f ->
                  retriable policy f = true -> k = n).
Proof.
  induction n as [|n IH]; intros delay r w; rewrite attempt_answer.
  - exists 0. destruct (send (provider w) r) as [[d|f] p]; simpl;
      rewrite app_nil_r, Nat.add_1_r; repeat split; auto.
  - destruct (send (provider w) r) as [[d|f] p] eqn:S0.
    + exists 0. simpl. rewrite app_nil_r, Nat.add_1_r.
      repeat split; auto with arith. discriminate.
    + destruct (retriable policy f) eqn:Rf.
      * destruct (IH (delay * backoff_factor policy)%Z r
                    (mkWorld p (S (sent w)) (pauses w ++ [Backoff delay])))
          as (k & Hk & Hs & Hp & Hf).
        exists (S k). cbv beta iota zeta. cbn [sent pauses] in Hs, Hp.
        split; [lia|]. split; [rewrite Hs; lia|].
        split; [rewrite Hp; simpl; now rewrite <- app_assoc|].
        intros f' E R'. f_equal. eauto.
      * exists 0. simpl. rewrite app_nil_r, Nat.add_1_r.
        repeat split; auto with arith.
        intros f' [= <-] R'. congruence.
Qed.

(** Every request of a batch gets a result, and that result is the one of
    its own fetch. *)
Lemma execute_results (policy : RetryPolicy) (min_delay : Z)
    (batch : list Request) :
  forall w : World,
    Forall2 (fun r x => exists w', x = fst (fetch policy r w'))
            batch (fst (execute policy min_delay batch w)).
Proof.
  induction batch as [|r rest IH]; intros w; simpl.
  - constructor.
  - unfold bind at 1.
    destruct (fetch policy r w) as [x w1] eqn:F.
    unfold bind at 1.
    destruct (match rest with
              | [] => ret tt
              | _ :: _ => sleep (Spacing min_delay)
              end w1) as [u w2].
    unfold bind at 1.
    specialize (IH w2).
    destruct (execute policy min_delay rest w2) as [xs w3].
    simpl in *. constructor; [|assumption].
    exists w. now rewrite F.
Qed.

(** A request the provider always rate-limits ends as a rate-limit
    failure, however many retries are allowed. *)
Lemma attempt_always_limited (policy : RetryPolicy) (r : Request) (n : nat) :
  (forall p, fst (send p r) = inr RateLimited) ->
  retriable policy RateLimited = true ->
  forall (delay : Z) (w : World),
    fst (attempt policy n delay r w) = Failed RateLimited.
Proof.
  intros L R. induction n as [|n IH]; intros delay w;
    rewrite attempt_answer; specialize (L (provider w));
    destruct (send (provider w) r) as [a p]; simpl in L; subst a.
  - reflexivity.
  - rewrite R. apply IH.
Qed.

Lemma execute_length (policy : RetryPolicy) (min_delay : Z)
    (batch : list Request) (w : World) :
  List.length (fst (execute policy min_delay batch w)) = List.length batch.
Proof.
  symmetry. eapply Forall2_length. apply execute_results.
Qed.

End FetcherFacts.

(* ================================================================== *)
(** * Sorting and deduplication *)
(* ================================================================== *)

Section SortFacts.

Variable A : Type.
Variable le : A -> A -> bool.

Local Abbreviation insert := (ListOps.insert le).
Local Abbreviation sort := (ListOps.sort le).

Lemma insert_perm (x : A) (l : list A) : Permutation (insert x l) (x :: l).
Proof.
  induction l as [|y l IH]; simpl; [apply Permutation_refl|].
  destruct (le y x); [|apply Permutation_refl].
  eapply Permutation_trans; [apply perm_skip, IH | apply perm_swap].
Qed.

Lemma sort_from_perm (l acc : list A) :
  Permutation (fold_left (fun sorted x => insert x sorted) l acc) (acc ++ l).
Proof.
  revert acc. induction l as [|x l IH]; intros acc; simpl.
  - rewrite app_nil_r. apply Permutation_refl.
  - eapply Permutation_trans; [apply IH|].
    eapply Permutation_trans;
      [apply Permutation_app_tail, insert_perm|].
    simpl. apply Permutation_middle.
Qed.

(** Sorting rearranges its input. *)
Lemma sort_perm (l : list A) : Permutation (sort l) l.
Proof. exact (sort_from_perm l []). Qed.

Lemma sort_In (l : list A) (x : A) : In x (sort l) <-> In x l.
Proof.
  split; apply Permutation_in;
    [apply sort_perm | apply Permutation_sym, sort_perm].
Qed.

Hypothesis le_total : forall a b, le a b = true \/ le b a = true.

Lemma insert_sorted (x : A) (l : list A) :
  Sorted (fun a b => le a b = true) l ->
  Sorted (fun a b => le a b = true) (insert x l).
Proof.
  induction l as [|y l IH]; simpl; intros S.
  - repeat constructor.
  - inversion S as [|? ? Sl Hd]; subst.
    destruct (le y x) eqn:Lyx.
    + constructor; [auto|].
      destruct l as [|z l]; simpl.
      * now constructor.
      * inversion Hd; subst. destruct (le z x); now constructor.
    + constructor; [assumption|]. constructor.
      destruct (le_total x y) as [H|H]; [assumption | congruence].
Qed.

Lemma sort_from_sorted (l acc : list A) :
  Sorted (fun a b => le a b = true) acc ->
  Sorted (fun a b => le a b = true)
         (fold_left (fun sorted x => insert x sorted) l acc).
Proof.
  revert acc. induction l as [|x l IH]; intros acc S; simpl; [assumption|].
  apply IH, insert_sorted, S.
Qed.

(** Sorting by a total order puts neighbours in order. *)
Lemma sort_sorted (l : list A) : Sorted (fun a b => le a b = true) (sort l).
Proof. apply sort_from_sorted. constructor. Qed.

End SortFacts.

Section DedupFacts.

Variable A : Type.
Variable key : A -> string.

Local Abbreviation dedup := (ListOps.dedup key).

Lemma seen_spec (k : string) (seen : list string) :
  existsb (String.eqb k) seen = true <-> In k seen.
Proof.
  rewrite existsb_exists. split.
  - intros (x & I & E). apply String.eqb_eq in E. now subst.
  - intros I. exists k. split; [assumption | apply String.eqb_refl].
Qed.

(** What deduplication keeps comes from the input and was not seen. *)
Lemma dedup_sound (l : list A) :
  forall (seen : list string) (x : A),
    In x (dedup seen l) -> In x l /\ ~ In (key x) seen.
Proof.
  induction l as [|y l IH]; intros seen x; simpl; [tauto|].
  destruct (existsb (String.eqb (key y)) seen) eqn:E.
  - intros I. apply IH in I as [I N]. auto.
  - intros [<- | I].
    + split; [auto|]. rewrite <- seen_spec. congruence.
    + apply IH in I as [I N]. split; [auto|].
      intros S. apply N. now right.
Qed.

(** No key is kept twice. *)
Lemma dedup_NoDup (l : list A) :
  forall seen : list string, NoDup (map key (dedup seen l)).
Proof.
  induction l as [|y l IH]; intros seen; simpl; [constructor|].
  destruct (existsb (String.eqb (key y)) seen); [apply IH|].
  simpl. constructor; [|apply IH].
  intros I. apply in_map_iff in I as (x & E & I).
  apply dedup_sound in I as [_ N]. apply N. left. now symmetry.
Qed.

(** Every key of the input that was not seen is kept. *)
Lemma dedup_complete (l : list A) :
  forall (seen : list string) (x : A),
    In x l -> ~ In (key x) seen -> In (key x) (map key (dedup seen l)).
Proof.
  induction l as [|y l IH]; intros seen x; simpl; [tauto|].
  intros I N.
  destruct (existsb (String.eqb (key y)) seen) eqn:E.
  - destruct I as [<- | I]; [|now apply IH].
    apply seen_spec in E. contradiction.
  - simpl. destruct (String.eqb_spec (key y) (key x)) as [K|K];
      [now left | right].
    destruct I as [<- | I]; [congruence|].
    apply IH; [assumption|]. intros [S|S]; [congruence | contradiction].
Qed.

End DedupFacts.

(* ================================================================== *)
(** * The merge of the per-address signature sequences *)
(* ================================================================== *)

Section MergeFacts.

Import Rpc Pipeline.

Lemma block_time_total (a b : SignatureInfo) :
  (block_time a <=? block_time b)%Z = true
  \/ (block_time b <=? block_time a)%Z = true.
Proof. rewrite !Z.leb_le. lia. Qed.

Lemma merge_perm (per_address : list (list SignatureInfo)) :
  Permutation (merge per_address)
              (ListOps.dedup sig [] (List.concat per_address)).
Proof. apply sort_perm. Qed.

Lemma merge_NoDup (per_address : list (list SignatureInfo)) :
  NoDup (map sig (merge per_address)).
Proof.
  eapply Permutation_NoDup.
  - apply Permutation_sym, Permutation_map, merge_perm.
  - apply dedup_NoDup.
Qed.

Lemma merge_sorted (per_address : list (list SignatureInfo)) :
  StronglySorted by_block_time (merge per_address).
Proof.
  apply Sorted_StronglySorted.
  - intros a b c. unfold by_block_time. lia.
  - pose proof (sort_sorted _ _ block_time_total
                  (ListOps.dedup sig [] (List.concat per_address))) as S.
    unfold merge.
    induction S as [|x l S IH Hd]; constructor; [assumption|].
    destruct Hd as [|y l' H]; constructor.
    unfold by_block_time. now apply Z.leb_le.
Qed.

Lemma merge_sound (per_address : list (list SignatureInfo))
    (x : SignatureInfo) :
  In x (merge per_address) -> In x (List.concat per_address).
Proof.
  intros I. apply (Permutation_in _ (merge_perm per_address)) in I.
  now apply dedup_sound in I as [I _].
Qed.

Lemma merge_complete (per_address : list (list SignatureInfo))
    (x : SignatureInfo) :
  In x (List.concat per_address) -> In (sig x) (map sig (merge per_address)).
Proof.
  intros I.
  apply (Permutation_in _
           (Permutation_sym (Permutation_map sig (merge_perm per_address)))).
  apply dedup_complete; auto.
Qed.

Lemma filter_keys_NoDup (keep : SignatureInfo -> bool)
    (l : list SignatureInfo) :
  NoDup (map sig l) -> NoDup (map sig (filter keep l)).
Proof.
  induction l as [|x l IH]; simpl; intros N; [constructor|].
  inversion N as [|? ? Nx Nl]; subst.
  destruct (keep x); [|auto]. simpl. constructor; [|auto].
  intros I. apply Nx. apply in_map_iff in I as (y & E & I).
  apply filter_In in I as [I _]. apply in_map_iff. now exists y.
Qed.

Lemma filter_sorted (keep : SignatureInfo -> bool) (l : list SignatureInfo) :
  StronglySorted by_block_time l ->
  StronglySorted by_block_time (filter keep l).
Proof.
  induction 1 as [|x l S IH F]; simpl; [constructor|].
  destruct (keep x); [|assumption]. constructor; [assumption|].
  rewrite Forall_forall in *. intros y I.
  apply filter_In in I as [I _]. auto.
Qed.

End MergeFacts.

(* ================================================================== *)
(** * The pagination behind [retrieve] *)
(* ================================================================== *)

Section RetrieveFacts.

Import Rpc Pipeline RateLimitedFetcher.

Variable Provider : Type.
Variable send : Provider -> Request -> (Response + Failure) * Provider.
Variable policy : RetryPolicy.
Variable min_delay : Z.
Variables page_size max_pages : nat.

Local Abbreviation paginated :=
  (Pipeline.paginated send policy min_delay page_size max_pages).

(** [for_each] runs the pagination of every address, in order. *)
Lemma for_each_paginated (from : option Z) (w w' : World Provider)
    (addresses : list Model.Address)
    (per_address : list (list SignatureInfo)) :
  paginated from w addresses per_address w' ->
  for_each (fun a => paginate send policy min_delay page_size max_pages
                       from a None)
    addresses w
  = (per_address, w').
Proof.
  induction 1 as [w | w a items w1 rest per_address w2 P R IH];
    [reflexivity|].
  cbn [for_each]. unfold bind at 1. rewrite P.
  unfold bind at 1. rewrite IH. reflexivity.
Qed.

(** Every address of the list gets its pagination. *)
Lemma paginated_exists (from : option Z) (addresses : list Model.Address) :
  forall w, exists per_address w', paginated from w addresses per_address w'.
Proof.
  induction addresses as [|a rest IH]; intros w.
  - exists [], w. constructor.
  - destruct (paginate send policy min_delay page_size max_pages
                from a None w) as [items w1] eqn:P.
    destruct (IH w1) as (per_address & w2 & R).
    exists (items :: per_address), w2. econstructor; eassumption.
Qed.

(** One sequence for each address. *)
Lemma paginated_length (from : option Z) (w w' : World Provider)
    (addresses : list Model.Address)
    (per_address : list (list SignatureInfo)) :
  paginated from w addresses per_address w' ->
  List.length per_address = List.length addresses.
Proof. induction 1; simpl; congruence. Qed.

(** Without a to-date nothing is cut off. *)
Lemma not_newer_None (l : list SignatureInfo) :
  filter (not_newer None) l = l.
Proof.
  induction l as [|x l IH]; [reflexivity|]. simpl. now rewrite IH.
Qed.

End RetrieveFacts.

(* ================================================================== *)
(** * The lifecycle state machine *)
(* ================================================================== *)

Section ReconstructorFacts.

Import Model Pipeline.

(** [step] takes the transition of the state machine, when there is one. *)
Lemma step_transition (state : option PositionLifecycle) (e : RawEvent)
    (lc : PositionLifecycle) :
  step state e = Some lc <-> transition state e lc.
Proof.
  split.
  - unfold step. destruct state as [l|].
    + destruct (lc_status l) eqn:St; try discriminate.
      destruct (increases e) eqn:I.
      { destruct (Z.eqb_spec (lc_size l + size_delta e) 0);
          [discriminate|].
        intros [= <-]. now constructor. }
      destruct (decreases e) eqn:D.
      { destruct (Z.eqb_spec (lc_size l - size_delta e) 0).
        - destruct (flagged_liquidation e) eqn:F; intros [= <-].
          + now apply transition_forced_close.
          + now apply transition_close.
        - intros [= <-]. now apply transition_decrease. }
      destruct (liquidates e) eqn:L; [|discriminate].
      intros [= <-]. now apply transition_liquidate.
    + destruct (opens e) eqn:O; [|discriminate].
      intros [= <-]. now constructor.
  - intros T. destruct T as [e O | l e St I N | l e St D N | l e St D Z F
                             | l e St D Z F | l e St L];
      unfold step; try rewrite St.
    + now rewrite O.
    + rewrite I. now destruct (Z.eqb_spec (lc_size l + size_delta e) 0).
    + replace (increases e) with false by (by_kind e).
      rewrite D. now destruct (Z.eqb_spec (lc_size l - size_delta e) 0).
    + replace (increases e) with false by (by_kind e).
      rewrite D, F. now destruct (Z.eqb_spec (lc_size l - size_delta e) 0).
    + replace (increases e) with false by (by_kind e).
      rewrite D, F. now destruct (Z.eqb_spec (lc_size l - size_delta e) 0).
    + replace (increases e) with false by (by_kind e).
      replace (decreases e) with false by (by_kind e).
      now rewrite L.
Qed.

(** ** The running size *)

Lemma sum_deltas_app (es : list RawEvent) (e : RawEvent) :
  sum_deltas (es ++ [e]) = (sum_deltas es + signed_delta e)%Z.
Proof.
  induction es as [|x es IH]; simpl; [lia|]. rewrite IH. lia.
Qed.

Lemma signed_delta_increase (e : RawEvent) :
  increases e = true -> signed_delta e = size_delta e.
Proof. unfold signed_delta. by_kind e. Qed.

Lemma signed_delta_decrease (e : RawEvent) :
  decreases e = true -> signed_delta e = (- size_delta e)%Z.
Proof. unfold signed_delta. by_kind e. Qed.

Lemma enter_accounted (e : RawEvent) :
  opens e = true -> running_size_accounted (enter e).
Proof.
  intros O. split; [reflexivity|]. exists e, []. simpl.
  repeat split; [assumption | lia].
Qed.

Lemma increase_accounted (lc : PositionLifecycle) (e : RawEvent) :
  running_size_accounted lc -> increases e = true ->
  running_size_accounted (increase lc e).
Proof.
  intros (_ & entry & later & E & O & S) I. split; [reflexivity|].
  exists entry, (later ++ [e]). cbn [increase lc_events lc_size].
  rewrite E, sum_deltas_app, (signed_delta_increase _ I), S.
  repeat split; [assumption | lia].
Qed.

Lemma decrease_accounted (lc : PositionLifecycle) (e : RawEvent) :
  running_size_accounted lc -> decreases e = true ->
  running_size_accounted (reduce Active lc e).
Proof.
  intros (_ & entry & later & E & O & S) D. split; [reflexivity|].
  exists entry, (later ++ [e]). cbn [reduce lc_events lc_size].
  rewrite E, sum_deltas_app, (signed_delta_decrease _ D), S.
  repeat split; [assumption | lia].
Qed.

Lemma liquidated_invariant (lc : PositionLifecycle) (e : RawEvent) :
  running_size_accounted lc -> size_invariant (reduce Liquidated lc e).
Proof.
  intros A. unfold size_invariant. cbn [reduce lc_status].
  exists lc, e. split; [assumption|]. split; [reflexivity|].
  split; [reflexivity|].
  unfold reduce. cbn [lc_size lc_warnings andb]. intros N.
  destruct (Z.eqb_spec (lc_size lc - size_delta e) 0); [contradiction|].
  cbn [negb]. apply in_or_app. right. now left.
Qed.

Lemma closed_invariant (lc : PositionLifecycle) (e : RawEvent) :
  running_size_accounted lc -> decreases e = true ->
  (lc_size lc - size_delta e)%Z = 0%Z ->
  size_invariant (reduce Closed lc e).
Proof.
  intros A D Z. unfold size_invariant. cbn [reduce lc_status].
  exists lc, e. split; [assumption|]. split; [reflexivity|].
  split; assumption.
Qed.

(** Folding an event keeps the size invariant of a group. *)
Lemma feed_sizes_hold (g : Group) (e : RawEvent) :
  sizes_hold g -> sizes_hold (feed g e).
Proof.
  intros [F C]. unfold feed.
  destruct (step (current g) e) as [lc|] eqn:S; [|now split].
  apply step_transition in S.
  destruct S as [e O | l e St I N | l e St D N | l e St D Z Fl
                 | l e St D Z Fl | l e St L]; cbn [terminal reduce increase
                                                   enter lc_status].
  - split; [assumption|]. intros lc [= <-]. now apply enter_accounted.
  - split; [assumption|]. intros lc [= <-]. apply increase_accounted; auto.
  - split; [assumption|]. intros lc [= <-]. apply decrease_accounted; auto.
  - split; [|discriminate]. apply Forall_app. split; [assumption|].
    constructor; [|constructor]. apply closed_invariant; auto.
  - split; [|discriminate]. apply Forall_app. split; [assumption|].
    constructor; [|constructor]. apply liquidated_invariant; auto.
  - split; [|discriminate]. apply Forall_app. split; [assumption|].
    constructor; [|constructor]. apply liquidated_invariant; auto.
Qed.

Lemma fold_sizes_hold (es : list RawEvent) :
  forall g, sizes_hold g -> sizes_hold (fold_left feed es g).
Proof.
  induction es as [|e es IH]; intros g H; simpl; [assumption|].
  apply IH, feed_sizes_hold, H.
Qed.

Lemma lifecycles_sizes_hold (g : Group) (lc : PositionLifecycle) :
  sizes_hold g -> In lc (lifecycles g) -> size_invariant lc.
Proof.
  intros [F C] I. unfold lifecycles in I. apply in_app_or in I as [I|I].
  - rewrite Forall_forall in F. auto.
  - destruct (current g) as [l|]; [|contradiction].
    destruct I as [<-|[]]. specialize (C l eq_refl).
    unfold size_invariant. destruct C as [St R]. rewrite St. now split.
Qed.

End ReconstructorFacts.

(* ================================================================== *)
(** * Properties of the request validation *)
(* ================================================================== *)

Section RouteClaims.

Import JS Http Outcome Samples.
Import PagesRouter.
Local Open Scope string_scope.

(** C1. A request whose wallet path parameter is not a base58 string of 32
    to 44 characters fails the wallet pattern, and [GET] answers it with
    status 400 without calling [analyzeTradeHistoryJson]. *)
Theorem GET_rejects_invalid_wallet
    (LocalTZA : Z) (wallet : string) (from_date to_date : option string) :
  Base58.is_address wallet = false ->
  AppRouter.validateWalletAddress wallet = false
  /\ rejected (AppRouter.GET LocalTZA wallet from_date to_date).
Proof.
  intros H. split; [now rewrite validateWalletAddress_spec|].
  apply GET_rejected. intros fd td V.
  pose proof (validate_cases LocalTZA wallet from_date to_date) as C.
  rewrite V in C. destruct C as [C _]. congruence.
Qed.

Lemma GET_rejects_invalid_wallet_witness :
  Base58.is_address "0xdeadbeef" = false
  /\ AppRouter.validateWalletAddress "0xdeadbeef" = false
  /\ rejected (AppRouter.GET 0 "0xdeadbeef" (Some "01.06.2025") None).
Proof.
  split; [reflexivity|].
  apply (GET_rejects_invalid_wallet 0 "0xdeadbeef" (Some "01.06.2025") None).
  reflexivity.
Defined.

(** C2 does not hold as stated: February 2025 has 28 days, yet [31.02.2025]
    has the date format and its fields are within the bounds, so [GET] calls
    [analyzeTradeHistoryJson] with it; and an empty [from_date] is not
    rejected either, it is treated as absent. *)
Lemma nonexistent_day_reaches_analyze :
  DaysInMonth 2025 1 = 28%Z
  /\ calls (AppRouter.GET 0 example_wallet (Some "31.02.2025") None)
     = [(Some "31.02.2025", example_wallet, None)]
  /\ ~ rejected (AppRouter.GET 0 example_wallet (Some "31.02.2025") None)
  /\ calls (AppRouter.GET 0 example_wallet (Some "") None)
     = [(None, example_wallet, None)].
Proof.
  split; [reflexivity|]. split; [vm_compute; reflexivity|].
  split; [|vm_compute; reflexivity].
  intros (r & E & _). vm_compute in E. discriminate E.
Qed.

(** C2, amended. A supplied, non-empty [from_date] or [to_date] that lacks
    the date format, or has a day outside 1..31, a month outside 1..12 or a
    year outside 2020..2030, makes [GET] answer with status 400 without
    calling [analyzeTradeHistoryJson]; and when [GET] does call it, every
    supplied non-empty date has the format and its fields within those
    bounds. *)
Theorem GET_enforces_date_bounds
    (LocalTZA : Z) (wallet : string) (from_date to_date : option string)
    (s : string) :
  from_date = Some s \/ to_date = Some s ->
  s <> "" ->
  ((AppRouter.validateDateFormat s = false
    \/ exists d m y, fields s = [Num d; Num m; Num y] /\ ~ in_bounds d m y) ->
   rejected (AppRouter.GET LocalTZA wallet from_date to_date))
  /\ (calls (AppRouter.GET LocalTZA wallet from_date to_date) <> [] ->
      AppRouter.validateDateFormat s = true
      /\ exists d m y, fields s = [Num d; Num m; Num y] /\ in_bounds d m y).
Proof.
  intros S Ne. split.
  - intros Bad. apply GET_rejected. intros fd td V.
    destruct (validate_next_date LocalTZA _ _ _ _ _ _ V S Ne) as [F [D P]].
    destruct Bad as [Bad | (d & m & y & Fs & Out)]; [congruence|].
    apply Out. exact (parse_returns_in_bounds LocalTZA _ _ _ _ _ Fs P).
  - intros C. rewrite GET_calls in C.
    destruct (AppRouter.validate LocalTZA wallet from_date to_date)
      as [[fd td]|r|e] eqn:V; try (now destruct C).
    destruct (validate_next_date LocalTZA _ _ _ _ _ _ V S Ne) as [F [D P]].
    split; [assumption|].
    destruct (date_fields _ F) as (d & m & y & Fs & _).
    exists d, m, y. split; [assumption|].
    exact (parse_returns_in_bounds LocalTZA _ _ _ _ _ Fs P).
Qed.

Lemma GET_enforces_date_bounds_witness :
  (Some "32.01.2025" = Some "32.01.2025" \/ None = Some "32.01.2025")
  /\ "32.01.2025" <> ""
  /\ ((AppRouter.validateDateFormat "32.01.2025" = false
       \/ exists d m y,
            fields "32.01.2025" = [Num d; Num m; Num y]
            /\ ~ in_bounds d m y) ->
      rejected (AppRouter.GET 0 example_wallet (Some "32.01.2025") None))
  /\ (calls (AppRouter.GET 0 example_wallet (Some "32.01.2025") None) <> [] ->
      AppRouter.validateDateFormat "32.01.2025" = true
      /\ exists d m y,
           fields "32.01.2025" = [Num d; Num m; Num y] /\ in_bounds d m y).
Proof.
  split; [left; reflexivity|]. split; [discriminate|].
  apply (GET_enforces_date_bounds 0 example_wallet
           (Some "32.01.2025") None "32.01.2025").
  - left; reflexivity.
  - discriminate.
Defined.

(** C8. When both dates are supplied, have the date format and parse, and
    the from-date is not before the to-date, equal dates included, [GET] and
    [handler] answer with status 400 without calling
    [analyzeTradeHistoryJson]; for a valid wallet the error is
    'from_date must be earlier than to_date'. *)
Theorem range_must_be_strict
    (LocalTZA : Z) (wallet from_date to_date : string) (from to : Date) :
  AppRouter.validateDateFormat from_date = true ->
  AppRouter.validateDateFormat to_date = true ->
  AppRouter.parseAndValidateDate LocalTZA from_date = Return from ->
  AppRouter.parseAndValidateDate LocalTZA to_date = Return to ->
  Date_ge from to = true \/ getTime from = getTime to ->
  let app := AppRouter.GET LocalTZA wallet (Some from_date) (Some to_date) in
  let pages :=
    PagesRouter.handler LocalTZA (Some "GET") (Some (QString wallet))
      (Some (QString from_date)) (Some (QString to_date)) in
  rejected app /\ rejected pages
  /\ (Base58.is_address wallet = true ->
      rejected_with "from_date must be earlier than to_date" app
      /\ rejected_with "from_date must be earlier than to_date" pages).
Proof.
  intros Ff Ft Pf Pt G app pages.
  assert (E : pages = app)
    by exact (handler_as_GET LocalTZA wallet (Some from_date) (Some to_date)).
  rewrite E. clear E pages.
  assert (G' : Date_ge from to = true).
  { destruct G as [G|G]; [assumption|].
    destruct (parse_returns_time LocalTZA _ _ Pt) as [v Tv].
    unfold Date_ge. rewrite G, Tv. simpl. apply Z.leb_refl. }
  assert (Tf : truthy from_date = true).
  { destruct from_date; [discriminate Ff | reflexivity]. }
  assert (Tt : truthy to_date = true).
  { destruct to_date; [discriminate Ft | reflexivity]. }
  assert (R : rejected app).
  { apply GET_rejected. intros fd td V.
    pose proof (validate_cases LocalTZA wallet (Some from_date)
                  (Some to_date)) as C.
    rewrite V in C. destruct C as (_ & Cf & Ct & Cr).
    unfold taken_over in Cf, Ct. rewrite Tf in Cf. rewrite Tt in Ct.
    destruct Cf as [-> _], Ct as [-> _].
    rewrite (Cr _ _ _ _ eq_refl eq_refl Pf Pt) in G'. discriminate. }
  split; [exact R|]. split; [exact R|]. intros W.
  assert (M : rejected_with "from_date must be earlier than to_date" app).
  { unfold rejected_with, app, AppRouter.GET, AppRouter.validate, bind, call_.
    rewrite validateWalletAddress_spec, W.
    replace (truthy wallet) with true
      by (destruct wallet; [discriminate W | reflexivity]).
    cbn [negb]. rewrite Tf, Tt, Ff, Ft. cbn [negb].
    rewrite Pf, Pt, Tf, Tt. cbn [andb]. rewrite Pf, Pt, G'. reflexivity. }
  split; exact M.
Qed.

Lemma range_must_be_strict_witness :
  AppRouter.validateDateFormat "01.06.2025" = true
  /\ AppRouter.validateDateFormat "1.6.2025" = true
  /\ AppRouter.parseAndValidateDate 0 "01.06.2025"
     = Return (mkDate (Num 1748736000000))
  /\ AppRouter.parseAndValidateDate 0 "1.6.2025"
     = Return (mkDate (Num 1748736000000))
  /\ rejected_with "from_date must be earlier than to_date"
       (AppRouter.GET 0 example_wallet (Some "01.06.2025") (Some "1.6.2025"))
  /\ rejected_with "from_date must be earlier than to_date"
       (PagesRouter.handler 0 (Some "GET") (Some (QString example_wallet))
          (Some (QString "01.06.2025")) (Some (QString "1.6.2025"))).
Proof.
  assert (Ff : AppRouter.validateDateFormat "01.06.2025" = true)
    by (vm_compute; reflexivity).
  assert (Ft : AppRouter.validateDateFormat "1.6.2025" = true)
    by (vm_compute; reflexivity).
  assert (Pf : AppRouter.parseAndValidateDate 0 "01.06.2025"
               = Return (mkDate (Num 1748736000000)))
    by (vm_compute; reflexivity).
  assert (Pt : AppRouter.parseAndValidateDate 0 "1.6.2025"
               = Return (mkDate (Num 1748736000000)))
    by (vm_compute; reflexivity).
  repeat (split; [assumption|]).
  apply (range_must_be_strict 0 example_wallet "01.06.2025" "1.6.2025"
           _ _ Ff Ft Pf Pt (or_intror eq_refl)).
  vm_compute. reflexivity.
Defined.



(** C10 does not hold as stated: on a request that gives [from_date]
    twice, the App Router reads the first value and calls
    [analyzeTradeHistoryJson], while the Pages Router reads an array and
    answers with status 400. *)
Lemma repeated_date_splits_the_routes :
  calls (AppRouter.GET 0 example_wallet
           (Query.get [("from_date", "01.06.2025");
                       ("from_date", "02.06.2025")] "from_date")
           (Query.get [("from_date", "01.06.2025");
                       ("from_date", "02.06.2025")] "to_date"))
  = [(Some "01.06.2025", example_wallet, None)]
  /\ rejected_with "Invalid from_date format. Use DD.MM.YYYY"
       (PagesRouter.handler 0 (Some "GET") (Some (QString example_wallet))
          (Query.query_entry [("from_date", "01.06.2025");
                              ("from_date", "02.06.2025")] "from_date")
          (Query.query_entry [("from_date", "01.06.2025");
                              ("from_date", "02.06.2025")] "to_date"))
  /\ calls (PagesRouter.handler 0 (Some "GET")
              (Some (QString example_wallet))
              (Query.query_entry [("from_date", "01.06.2025");
                                  ("from_date", "02.06.2025")] "from_date")
              (Query.query_entry [("from_date", "01.06.2025");
                                  ("from_date", "02.06.2025")] "to_date"))
     = [].
Proof.
  split; [vm_compute; reflexivity|]. split; vm_compute; reflexivity.
Qed.

(** C10, amended. The two routes validate with the same wallet pattern,
    date pattern and [parseAndValidateDate], and on a GET request that
    gives [from_date] and [to_date] at most once each, [handler] does
    exactly what [GET] does: the same rejection, or the same call of
    [analyzeTradeHistoryJson] answered the same way. They part on a request
    that gives a date more than once, which [handler] answers with status
    400 without a call whatever the values are, while [GET] reads the first
    of the values; and any other method is answered 405 by [handler]
    alone. *)
Theorem routes_validate_alike
    (LocalTZA : Z) (wallet : string) (from_date to_date : option string)
    (q : Query.pairs) :
  let app :=
    AppRouter.GET LocalTZA wallet (Query.get q "from_date")
      (Query.get q "to_date") in
  let pages :=
    PagesRouter.handler LocalTZA (Some "GET") (Some (QString wallet))
      (Query.query_entry q "from_date") (Query.query_entry q "to_date") in
  (forall s,
     PagesRouter.validateWalletAddress s = AppRouter.validateWalletAddress s)
  /\ (forall s,
        PagesRouter.validateDateFormat s = AppRouter.validateDateFormat s)
  /\ (forall s,
        PagesRouter.parseAndValidateDate LocalTZA s
        = AppRouter.parseAndValidateDate LocalTZA s)
  /\ PagesRouter.handler LocalTZA (Some "GET") (Some (QString wallet))
       (option_map QString from_date) (option_map QString to_date)
     = AppRouter.GET LocalTZA wallet from_date to_date
  /\ (List.length (Query.getAll q "from_date") <= 1 ->
      List.length (Query.getAll q "to_date") <= 1 ->
      pages = app)
  /\ (forall name, Query.get q name = hd_error (Query.getAll q name))
  /\ (1 < List.length (Query.getAll q "from_date")
      \/ 1 < List.length (Query.getAll q "to_date") ->
      rejected pages)
  /\ (forall method w f t,
        method <> Some "GET" ->
        PagesRouter.handler LocalTZA method w f t
        = Respond (mkResponse 405 (ErrorJson "Method not allowed") [])).
Proof.
  intros app pages. subst app pages.
  split; [exact pages_validateWalletAddress|].
  split; [exact pages_validateDateFormat|].
  split; [exact (pages_parseAndValidateDate LocalTZA)|].
  split; [exact (handler_as_GET LocalTZA wallet from_date to_date)|].
  split; [|split; [exact (get_first q)|split]].
  - intros Lf Lt. rewrite (entry_single _ _ Lf), (entry_single _ _ Lt).
    apply handler_as_GET.
  - intros [L|L]; destruct (entry_repeated _ _ L) as (v & vs & E & _);
      apply (handler_rejects_array_date LocalTZA _ _ _ (v :: vs)); auto.
  - intros method w f t N. unfold PagesRouter.handler.
    destruct method as [m|]; [|reflexivity].
    destruct (String.eqb_spec m "GET") as [->|]; [congruence | reflexivity].
Qed.

Lemma routes_validate_alike_witness :
  Some "POST" <> Some "GET"
  /\ PagesRouter.handler 0 (Some "GET") (Some (QString example_wallet))
       (Query.query_entry [("to_date", "27.06.2025");
                           ("from_date", "01.06.2025")] "from_date")
       (Query.query_entry [("to_date", "27.06.2025");
                           ("from_date", "01.06.2025")] "to_date")
     = AppRouter.GET 0 example_wallet (Some "01.06.2025") (Some "27.06.2025")
  /\ rejected
       (PagesRouter.handler 0 (Some "GET") (Some (QString example_wallet))
          (Query.query_entry [("to_date", "27.06.2025");
                              ("to_date", "27.06.2025")] "from_date")
          (Query.query_entry [("to_date", "27.06.2025");
                              ("to_date", "27.06.2025")] "to_date"))
  /\ PagesRouter.handler 0 (Some "POST") (Some (QString example_wallet))
       None None
     = Respond (mkResponse 405 (ErrorJson "Method not allowed") []).
Proof.
  assert (N : Some "POST" <> Some "GET") by discriminate.
  split; [exact N|].
  destruct (routes_validate_alike 0 example_wallet None None
              [("to_date", "27.06.2025"); ("from_date", "01.06.2025")])
    as (_ & _ & _ & _ & E & _ & _ & M).
  split; [exact (E (le_n 1) (le_n 1))|].
  destruct (routes_validate_alike 0 example_wallet None None
              [("to_date", "27.06.2025"); ("to_date", "27.06.2025")])
    as (_ & _ & _ & _ & _ & _ & R & _).
  split; [exact (R (or_intror (le_n 2)))|].
  exact (M (Some "POST") (Some (QString example_wallet)) None None N).
Defined.

End RouteClaims.

(* ================================================================== *)
(** * Properties of the fetcher *)
(* ================================================================== *)

Section FetcherClaims.

Import RateLimitedFetcher.

Variables Request Data Provider : Type.
Variable send : Provider -> Request -> (Data + Failure) * Provider.

(** C7. Under a retry policy, one request makes at most [max_attempts]
    attempts, three by default, pausing before each retry for the base delay
    multiplied by the factor once per earlier retry, and it gives up on a
    retriable failure only when the attempts are used up. A request that is
    rate-limited on attempts 1 and 2 and answered on attempt 3 is fetched
    with the data of that answer after two backoff pauses. A request that is
    rate-limited on every attempt fails as [RateLimited] at its own place in
    the results, and every request of the batch still has the result of its
    own fetch. *)
Theorem retries_are_bounded_and_failures_stay_local
    (policy : RetryPolicy) (min_delay : Z) :
  max_attempts (default_policy (base_delay policy) (backoff_factor policy))
  = 3
  /\ (forall (r : Request) (w : World Provider),
        exists k,
          S k <= Nat.max 1 (max_attempts policy)
          /\ sent (snd (fetch send policy r w)) = sent w + S k
          /\ pauses (snd (fetch send policy r w))
             = pauses w ++ backoff_schedule policy k
          /\ (forall f,
                fst (fetch send policy r w) = Failed f ->
                retriable policy f = true ->
                S k = Nat.max 1 (max_attempts policy)))
  /\ (forall (r : Request) (d : Data) (p0 p1 p2 p3 : Provider)
             (n : nat) (ps : list Pause),
        max_attempts policy = 3 ->
        retriable policy RateLimited = true ->
        send p0 r = (inr RateLimited, p1) ->
        send p1 r = (inr RateLimited, p2) ->
        send p2 r = (inl d, p3) ->
        fetch send policy r (mkWorld p0 n ps)
        = (Fetched d,
           mkWorld p3 (S (S (S n)))
             (ps ++ [Backoff (base_delay policy);
                     Backoff (base_delay policy * backoff_factor policy)])))
  /\ (forall (pre post : list Request) (r : Request) (w : World Provider),
        retriable policy RateLimited = true ->
        (forall p, fst (send p r) = inr RateLimited) ->
        let results :=
          fst (execute send policy min_delay (pre ++ r :: post) w) in
        List.length results = List.length (pre ++ r :: post)
        /\ nth_error results (List.length pre) = Some (Failed RateLimited)
        /\ Forall2 (fun q x => exists w', x = fst (fetch send policy q w'))
                   (pre ++ r :: post) results).
Proof.
  split; [reflexivity|]. split; [|split].
  - intros r w. unfold fetch, backoff_schedule.
    destruct (attempt_shape _ _ _ send policy (max_attempts policy - 1)
                (base_delay policy) r w) as (k & Hk & Hs & Hp & Hf).
    exists k. split; [lia|]. split; [exact Hs|]. split; [exact Hp|].
    intros f E R. rewrite (Hf f E R). lia.
  - intros r d p0 p1 p2 p3 n ps M R S0 S1 S2. unfold fetch. rewrite M.
    cbn [Nat.sub].
    rewrite attempt_answer. cbn [provider sent pauses]. rewrite S0, R.
    rewrite attempt_answer. cbn [provider sent pauses]. rewrite S1, R.
    rewrite attempt_answer. cbn [provider sent pauses]. rewrite S2.
    now rewrite <- app_assoc.
  - intros pre post r w R L results.
    pose proof (execute_results _ _ _ send policy min_delay
                  (pre ++ r :: post) w) as F. fold results in F.
    split; [symmetry; exact (Forall2_length F)|]. split; [|exact F].
    apply Forall2_app_inv_l in F as (xs & ys & Fpre & Fpost & E).
    rewrite E. inversion Fpost as [|? x ? ys' [w' Hx] _]; subst.
    rewrite nth_error_app2 by (rewrite (Forall2_length Fpre); lia).
    rewrite (Forall2_length Fpre), Nat.sub_diag. simpl. f_equal.
    apply attempt_always_limited; assumption.
Qed.

End FetcherClaims.

Lemma retries_are_bounded_and_failures_stay_local_witness :
  RateLimitedFetcher.max_attempts (RateLimitedFetcher.default_policy 100 2)
  = 3
  /\ RateLimitedFetcher.retriable (RateLimitedFetcher.default_policy 100 2)
       RateLimitedFetcher.RateLimited = true
  /\ Samples.flaky_send 0 7 = (inr RateLimitedFetcher.RateLimited, 1)
  /\ Samples.flaky_send 1 7 = (inr RateLimitedFetcher.RateLimited, 2)
  /\ Samples.flaky_send 2 7 = (inl 1007, 3)
  /\ RateLimitedFetcher.fetch Samples.flaky_send
       (RateLimitedFetcher.default_policy 100 2) 7
       (RateLimitedFetcher.mkWorld 0 0 [])
     = (RateLimitedFetcher.Fetched 1007,
        RateLimitedFetcher.mkWorld 3 3
          [RateLimitedFetcher.Backoff 100; RateLimitedFetcher.Backoff 200]).
Proof.
  repeat (split; [reflexivity|]).
  destruct (retries_are_bounded_and_failures_stay_local _ _ _
              Samples.flaky_send (RateLimitedFetcher.default_policy 100 2) 30)
    as (_ & _ & D & _).
  exact (D 7 1007 0 1 2 3 0 [] eq_refl eq_refl eq_refl eq_refl eq_refl).
Defined.

(* ================================================================== *)
(** * Properties of the signature retrieval *)
(* ================================================================== *)

Section RetrieverClaims.

Import Rpc Pipeline RateLimitedFetcher.

Variable Provider : Type.
Variable send : Provider -> Request -> (Response + Failure) * Provider.
Variable policy : RetryPolicy.
Variable min_delay : Z.
Variables page_size max_pages : nat.

(** C6. Whatever the per-address sequences are, overlapping or not, their
    merge holds each of their signatures exactly once and nothing else, in
    ascending block time. And for every list of addresses [retrieve] runs
    the pagination of each address, one after the other, and yields that
    merge of what the paginations returned: every signature paginated for
    one of the addresses is in the output exactly once, the output holds
    nothing else and is in ascending block time; with a to-date the output
    is that sequence cut at the to-date. *)
Theorem retrieve_has_each_signature_once
    (addresses : list Model.Address) (from to : option Z)
    (w : World Provider) :
  (forall per_address : list (list SignatureInfo),
     NoDup (map sig (merge per_address))
     /\ StronglySorted by_block_time (merge per_address)
     /\ (forall x, In x (List.concat per_address) ->
                   count_occ string_dec (map sig (merge per_address)) (sig x)
                   = 1)
     /\ (forall y, In y (merge per_address) ->
                   In y (List.concat per_address)))
  /\ (exists per_address w',
        paginated send policy min_delay page_size max_pages from
          w addresses per_address w')
  /\ (forall per_address w',
        paginated send policy min_delay page_size max_pages from
          w addresses per_address w' ->
        let all :=
          fst (retrieve send policy min_delay page_size max_pages
                 addresses from None w) in
        let out :=
          fst (retrieve send policy min_delay page_size max_pages
                 addresses from to w) in
        List.length per_address = List.length addresses
        /\ all = merge per_address
        /\ (forall items x,
              In items per_address -> In x items ->
              count_occ string_dec (map sig all) (sig x) = 1)
        /\ (forall y, In y all ->
                      exists items, In items per_address /\ In y items)
        /\ StronglySorted by_block_time all
        /\ out = filter (not_newer to) all
        /\ NoDup (map sig out)
        /\ StronglySorted by_block_time out
        /\ snd (retrieve send policy min_delay page_size max_pages
                  addresses from to w) = w').
Proof.
  split; [|split].
  - intros per_address.
    split; [apply merge_NoDup|]. split; [apply merge_sorted|].
    split; [|apply merge_sound].
    intros x I. apply NoDup_count_occ'; [apply merge_NoDup|].
    now apply merge_complete.
  - apply paginated_exists.
  - intros per_address w' P. cbv zeta. unfold retrieve, bind, ret.
    rewrite (for_each_paginated _ _ _ _ _ _ _ _ _ _ _ P). cbn [fst snd].
    rewrite not_newer_None.
    split; [exact (paginated_length _ _ _ _ _ _ _ _ _ _ _ P)|].
    split; [reflexivity|]. split; [|split; [|split; [|split; [|split]]]].
    + intros items x Ii Ix.
      apply NoDup_count_occ'; [apply merge_NoDup|].
      apply merge_complete. apply in_concat. now exists items.
    + intros y I. apply merge_sound, in_concat in I as (items & Ii & Iy).
      now exists items.
    + apply merge_sorted.
    + reflexivity.
    + apply filter_keys_NoDup, merge_NoDup.
    + split; [apply filter_sorted, merge_sorted | reflexivity].
Qed.

End RetrieverClaims.

Lemma retrieve_has_each_signature_once_witness :
  Pipeline.paginated Samples.two_accounts
    (RateLimitedFetcher.default_policy 100 2) 30 300 10 None
    (RateLimitedFetcher.mkWorld tt 0 [])
    ["position"%string; "request"%string]
    [[Rpc.mkSignatureInfo "shared"%string 20;
      Rpc.mkSignatureInfo "first"%string 10];
     [Rpc.mkSignatureInfo "second"%string 30;
      Rpc.mkSignatureInfo "shared"%string 20]]
    (RateLimitedFetcher.mkWorld tt 4
       [RateLimitedFetcher.Spacing 30; RateLimitedFetcher.Spacing 30])
  /\ fst (Pipeline.retrieve Samples.two_accounts
            (RateLimitedFetcher.default_policy 100 2) 30 300 10
            ["position"%string; "request"%string] None None
            (RateLimitedFetcher.mkWorld tt 0 []))
     = [Rpc.mkSignatureInfo "first"%string 10;
        Rpc.mkSignatureInfo "shared"%string 20;
        Rpc.mkSignatureInfo "second"%string 30]
  /\ count_occ string_dec
       (map Rpc.sig
          (fst (Pipeline.retrieve Samples.two_accounts
                  (RateLimitedFetcher.default_policy 100 2) 30 300 10
                  ["position"%string; "request"%string] None None
                  (RateLimitedFetcher.mkWorld tt 0 []))))
       "shared"%string = 1.
Proof.
  assert (P : Pipeline.paginated Samples.two_accounts
                (RateLimitedFetcher.default_policy 100 2) 30 300 10 None
                (RateLimitedFetcher.mkWorld tt 0 [])
                ["position"%string; "request"%string]
                [[Rpc.mkSignatureInfo "shared"%string 20;
                  Rpc.mkSignatureInfo "first"%string 10];
                 [Rpc.mkSignatureInfo "second"%string 30;
                  Rpc.mkSignatureInfo "shared"%string 20]]
                (RateLimitedFetcher.mkWorld tt 4
                   [RateLimitedFetcher.Spacing 30;
                    RateLimitedFetcher.Spacing 30])).
  { eapply Pipeline.paginated_cons; [vm_compute; reflexivity|].
    eapply Pipeline.paginated_cons; [vm_compute; reflexivity|].
    apply Pipeline.paginated_nil. }
  split; [exact P|].
  destruct (retrieve_has_each_signature_once unit Samples.two_accounts
              (RateLimitedFetcher.default_policy 100 2) 30 300 10
              ["position"%string; "request"%string] None None
              (RateLimitedFetcher.mkWorld tt 0 []))
    as (_ & _ & R).
  destruct (R _ _ P) as (_ & E & C & _).
  split; [exact E|].
  apply (C [Rpc.mkSignatureInfo "second"%string 30;
            Rpc.mkSignatureInfo "shared"%string 20]
           (Rpc.mkSignatureInfo "shared"%string 20)).
  - right. left. reflexivity.
  - right. left. reflexivity.
Defined.

(* ================================================================== *)
(** * Properties of the reconstruction *)
(* ================================================================== *)

Section ReconstructorClaims.

Import Model Pipeline Samples.

(** C5 does not hold as stated: a position opened with size 100 and
    liquidated by an event of size 40 is reconstructed as one liquidated
    lifecycle of size 60, flagged inconsistent. *)
Lemma liquidation_can_leave_size :
  exists lc,
    reconstruct [example_event Open 1 "a" 100;
                 example_event Liquidate 2 "b" 40] = [lc]
    /\ lc_status lc = Liquidated
    /\ lc_size lc = 60%Z
    /\ lc_size lc <> 0%Z
    /\ lc_warnings lc = [InconsistentLifecycle].
Proof.
  eexists. split; [vm_compute; reflexivity|].
  repeat split. discriminate.
Qed.

(** C5, amended. Every lifecycle the reconstructor produces satisfies the
    size invariant: while it is active, its running size is the size at
    entry plus the signed deltas of the events folded since; a close leaves
    exactly zero; a liquidation takes the delta of its event off the running
    size, and a remainder other than zero is reported by the
    [InconsistentLifecycle] warning. *)
Theorem reconstructed_sizes_add_up
    (events : list RawEvent) (lc : PositionLifecycle) :
  In lc (reconstruct events) -> size_invariant lc.
Proof.
  unfold reconstruct. intros I.
  apply in_flat_map in I as (key & _ & I).
  eapply lifecycles_sizes_hold; [|exact I].
  apply fold_sizes_hold. split; [constructor | discriminate].
Qed.

End ReconstructorClaims.

Lemma reconstructed_sizes_add_up_witness :
  In (Pipeline.reduce Model.Closed
        (Pipeline.enter (Samples.example_event Model.Open 1 "a" 100))
        (Samples.example_event Model.Decrease 2 "b" 100))
     (Pipeline.reconstruct
        [Samples.example_event Model.Open 1 "a" 100;
         Samples.example_event Model.Decrease 2 "b" 100])
  /\ Pipeline.size_invariant
       (Pipeline.reduce Model.Closed
          (Pipeline.enter (Samples.example_event Model.Open 1 "a" 100))
          (Samples.example_event Model.Decrease 2 "b" 100)).
Proof.
  assert (I : In (Pipeline.reduce Model.Closed
                    (Pipeline.enter
                       (Samples.example_event Model.Open 1 "a" 100))
                    (Samples.example_event Model.Decrease 2 "b" 100))
                 (Pipeline.reconstruct
                    [Samples.example_event Model.Open 1 "a" 100;
                     Samples.example_event Model.Decrease 2 "b" 100]))
    by (left; reflexivity).
  split; [exact I|].
  exact (reconstructed_sizes_add_up _ _ I).
Defined.

(* ================================================================== *)
(** * Further properties of the two routes *)
(* ================================================================== *)

Section RouteProperties.

Import JS Http Outcome Samples.
Import PagesRouter.
Local Open Scope string_scope.

(** X1. [GET] calls [analyzeTradeHistoryJson] exactly for the requests with
    a base58 wallet of 32 to 44 characters whose supplied dates are well
    formed (date format, day 1..31, month 1..12, year 2020..2030) and, when
    both are supplied, stand for day numbers in strict order. The call gets
    the wallet and the date strings as they were sent, an absent or empty
    date as undefined. *)
Theorem GET_calls_exactly
    (LocalTZA : Z) (wallet : string)
    (from_date to_date fromDate toDate : option string) :
  plausible_offset LocalTZA ->
  calls (AppRouter.GET LocalTZA wallet from_date to_date)
  = [(fromDate, wallet, toDate)]
  <-> Base58.is_address wallet = true
      /\ fromDate = supplied from_date
      /\ toDate = supplied to_date
      /\ (forall s, fromDate = Some s \/ toDate = Some s -> well_formed s)
      /\ in_order fromDate toDate.
Proof.
  intros Hz. rewrite (GET_verdict _ Hz). unfold verdict.
  pose proof (rejection_none wallet from_date to_date) as R.
  destruct (rejection wallet from_date to_date) as [e|]; cbn [calls].
  - split; [discriminate|]. intros (W & -> & -> & H & O).
    destruct R as [_ R]. now discriminate R.
  - destruct R as [R _]. destruct (R eq_refl) as (W & H & O). split.
    + intros [= <- <-]. split; [exact W|]. split; [reflexivity|].
      split; [reflexivity|]. split; [exact H | exact O].
    + intros (_ & -> & -> & _). reflexivity.
Qed.

Lemma GET_calls_exactly_witness :
  plausible_offset 3600000
  /\ calls (AppRouter.GET 3600000 example_wallet (Some "01.06.2025")
              (Some ""))
     = [(Some "01.06.2025", example_wallet, None)]
  /\ Base58.is_address example_wallet = true
  /\ Some "01.06.2025" = supplied (Some "01.06.2025")
  /\ None = supplied (Some "")
  /\ (forall s, Some "01.06.2025" = Some s \/ None = Some s -> well_formed s)
  /\ in_order (Some "01.06.2025") None.
Proof.
  assert (Hz : plausible_offset 3600000) by reflexivity.
  assert (C : calls (AppRouter.GET 3600000 example_wallet
                       (Some "01.06.2025") (Some ""))
              = [(Some "01.06.2025", example_wallet, None)])
    by (vm_compute; reflexivity).
  split; [exact Hz|]. split; [exact C|].
  exact (proj1 (GET_calls_exactly 3600000 example_wallet (Some "01.06.2025")
                  (Some "") (Some "01.06.2025") None Hz) C).
Defined.

(** X2. The time zone of the server has no part in the decision: for any
    two offsets from UTC of less than a day, [GET] handles a request the
    same way, and so does [handler] on single-valued parameters. *)
Theorem GET_ignores_time_zone
    (LocalTZA LocalTZA' : Z) (wallet : string)
    (from_date to_date : option string) :
  plausible_offset LocalTZA -> plausible_offset LocalTZA' ->
  AppRouter.GET LocalTZA wallet from_date to_date
  = AppRouter.GET LocalTZA' wallet from_date to_date
  /\ PagesRouter.handler LocalTZA (Some "GET") (Some (QString wallet))
       (option_map QString from_date) (option_map QString to_date)
     = PagesRouter.handler LocalTZA' (Some "GET") (Some (QString wallet))
         (option_map QString from_date) (option_map QString to_date).
Proof.
  intros Hz Hz'. rewrite !handler_as_GET.
  rewrite (GET_verdict _ Hz), (GET_verdict _ Hz'). split; reflexivity.
Qed.

Lemma GET_ignores_time_zone_witness :
  plausible_offset (-39600000) /\ plausible_offset 50400000
  /\ AppRouter.GET (-39600000) example_wallet (Some "01.06.2025")
       (Some "02.06.2025")
     = AppRouter.GET 50400000 example_wallet (Some "01.06.2025")
         (Some "02.06.2025").
Proof.
  assert (Hz : plausible_offset (-39600000)) by reflexivity.
  assert (Hz' : plausible_offset 50400000) by reflexivity.
  split; [exact Hz|]. split; [exact Hz'|].
  exact (proj1 (GET_ignores_time_zone (-39600000) 50400000 example_wallet
                  (Some "01.06.2025") (Some "02.06.2025") Hz Hz')).
Defined.

(** X3. Whatever [analyzeTradeHistoryJson] does, the response of either
    handler has one of three shapes. Without a call, it is an error body
    with status 400 ([handler]: or 405) and no header. With a call that
    returns, it is the report with status 200 and the [Cache-Control]
    header. With a call that throws, it is what the [catch] block makes of
    the exception: an error body with status 429, 400 or 500 and no header.
    No request leads to more than one call. The validation itself never
    throws, so it never reaches the [catch] block: the answer to a GET
    request without a call is a response that the validation returned. *)
Theorem responses_have_three_shapes
    (LocalTZA : Z)
    (analyze : option string -> string -> option string
               -> completion Model.TradeReport)
    (wallet : string) (from_date to_date : option string)
    (method : option string) (w f t : option query_value) :
  let shaped (refusals : list Z) (h : handling) :=
    match calls h with
    | [] =>
        exists code e,
          In code refusals
          /\ run analyze h = mkResponse code (ErrorJson e) []
    | [(fromDate, wl, toDate)] =>
        match analyze fromDate wl toDate with
        | Return trades =>
            run analyze h
            = mkResponse 200 (TradesJson trades)
                [("Cache-Control",
                  "public, s-maxage=60, stale-while-revalidate=300")]
        | Throw error =>
            run analyze h = AppRouter.on_error error
            /\ exists code e,
                 In code [429; 400; 500]%Z
                 /\ run analyze h = mkResponse code (ErrorJson e) []
        end
    | _ :: _ :: _ => False
    end in
  shaped [400%Z] (AppRouter.GET LocalTZA wallet from_date to_date)
  /\ shaped [400%Z; 405%Z] (PagesRouter.handler LocalTZA method w f t)
  /\ (forall error,
        AppRouter.validate LocalTZA wallet from_date to_date <> Raise error)
  /\ (forall error, PagesRouter.validate LocalTZA w f t <> Raise error)
  /\ (calls (AppRouter.GET LocalTZA wallet from_date to_date) = [] ->
      exists r,
        AppRouter.validate LocalTZA wallet from_date to_date = Exit r
        /\ AppRouter.GET LocalTZA wallet from_date to_date = Respond r)
  /\ (calls (PagesRouter.handler LocalTZA (Some "GET") w f t) = [] ->
      exists r,
        PagesRouter.validate LocalTZA w f t = Exit r
        /\ PagesRouter.handler LocalTZA (Some "GET") w f t = Respond r).
Proof.
  intros shaped. subst shaped. cbv beta.
  assert (Va : forall error,
             AppRouter.validate LocalTZA wallet from_date to_date
             <> Raise error).
  { intros error V.
    pose proof (validate_exits LocalTZA wallet from_date to_date) as E.
    now rewrite V in E. }
  assert (Vp : forall error,
             PagesRouter.validate LocalTZA w f t <> Raise error).
  { intros error V.
    pose proof (pages_validate_cases LocalTZA w f t) as E.
    now rewrite V in E. }
  assert (Last : (calls (AppRouter.GET LocalTZA wallet from_date to_date)
                  = [] ->
                  exists r,
                    AppRouter.validate LocalTZA wallet from_date to_date
                    = Exit r
                    /\ AppRouter.GET LocalTZA wallet from_date to_date
                       = Respond r)
                 /\ (calls (PagesRouter.handler LocalTZA (Some "GET") w f t)
                     = [] ->
                     exists r,
                       PagesRouter.validate LocalTZA w f t = Exit r
                       /\ PagesRouter.handler LocalTZA (Some "GET") w f t
                          = Respond r)).
  { split.
    - unfold AppRouter.GET.
      destruct (AppRouter.validate LocalTZA wallet from_date to_date)
        as [[fd td]|r|e] eqn:V; cbn [calls]; [discriminate | eauto |].
      now destruct (Va e).
    - unfold PagesRouter.handler. change (("GET" =? "GET")%string) with true.
      cbn [negb].
      destruct (PagesRouter.validate LocalTZA w f t)
        as [[[wl fd] td]|r|e] eqn:V; cbn [calls]; [discriminate | eauto |].
      now destruct (Vp e). }
  assert (C : forall error,
             exists code e,
               In code [429; 400; 500]%Z
               /\ AppRouter.on_error error = mkResponse code (ErrorJson e) []).
  { intros error. destruct (on_error_cases error) as [e [E | [E | E]]];
      rewrite E; [exists 429%Z, e | exists 400%Z, e | exists 500%Z, e];
      (split; [simpl; tauto | reflexivity]). }
  split; [|split; [|split; [exact Va | split; [exact Vp | exact Last]]]].
  - unfold AppRouter.GET.
    pose proof (validate_exits LocalTZA wallet from_date to_date) as E.
    destruct (AppRouter.validate LocalTZA wallet from_date to_date)
      as [[fd td]|r|e]; cbn [calls run].
    + destruct (analyze fd wallet td) as [trades|error]; [reflexivity|].
      split; [reflexivity | apply C].
    + destruct E as [e ->]. exists 400%Z, e.
      split; [simpl; tauto | reflexivity].
    + destruct E.
  - unfold PagesRouter.handler.
    destruct (negb match method with
                   | Some m => (m =? "GET")%string
                   | None => false
                   end); cbn [calls run].
    { exists 405%Z, "Method not allowed".
      split; [simpl; tauto | reflexivity]. }
    pose proof (pages_validate_cases LocalTZA w f t) as E.
    destruct (PagesRouter.validate LocalTZA w f t)
      as [[[wl fd] td]|r|e]; cbn [calls run].
    + destruct (analyze fd wl td) as [trades|error]; [reflexivity|].
      change (PagesRouter.on_error error) with (AppRouter.on_error error).
      split; [reflexivity | apply C].
    + destruct E as [e ->]. exists 400%Z, e.
      split; [simpl; tauto | reflexivity].
    + destruct E.
Qed.

(** X4. The [catch] block of both routes reads the message of the error by
    substring, case-sensitively. A message that mentions [rate limit] or
    [429] is answered 429 with a fixed text, whether or not it also
    mentions [Invalid]; any other message that mentions [Invalid] is
    answered 400 and sent to the client as it is; every other message is
    answered 500 with a fixed text. *)
Theorem catch_reads_the_message (message : string) :
  let r := AppRouter.on_error (ErrorObject message) in
  let limited := mentions message "rate limit" \/ mentions message "429" in
  PagesRouter.on_error (ErrorObject message) = r
  /\ (limited <->
      r = mkResponse 429 (ErrorJson "Rate limited. Please try again later.")
            [])
  /\ (~ limited /\ mentions message "Invalid" <->
      r = mkResponse 400 (ErrorJson message) [])
  /\ (~ limited /\ ~ mentions message "Invalid" <->
      r = mkResponse 500 (ErrorJson "Internal server error") []).
Proof.
  intros r limited. subst r limited. split; [reflexivity|].
  unfold AppRouter.on_error, AppRouter.error_response.
  rewrite <- !includes_mentions.
  destruct (includes message "rate limit"), (includes message "429"),
    (includes message "Invalid"); cbn [orb]; intuition congruence.
Qed.

(** X5. A request that [GET] answers without calling
    [analyzeTradeHistoryJson] gets status 400 and one of eleven error texts;
    so does a GET request that [handler] answers without a call. The text
    [Invalid date], the last error of [parseAndValidateDate], is not among
    them: after the format check it cannot occur. *)
Theorem rejections_use_eleven_messages
    (LocalTZA : Z) (wallet : string) (from_date to_date : option string)
    (w f t : option query_value) (r : response) :
  plausible_offset LocalTZA ->
  AppRouter.GET LocalTZA wallet from_date to_date = Respond r
  \/ PagesRouter.handler LocalTZA (Some "GET") w f t = Respond r ->
  exists e,
    r = mkResponse 400 (ErrorJson e) []
    /\ In e ["Wallet address is required";
             "Invalid wallet address format";
             "Invalid from_date format. Use DD.MM.YYYY";
             "Invalid from_date: Invalid day";
             "Invalid from_date: Invalid month";
             "Invalid from_date: Invalid year";
             "Invalid to_date format. Use DD.MM.YYYY";
             "Invalid to_date: Invalid day";
             "Invalid to_date: Invalid month";
             "Invalid to_date: Invalid year";
             "from_date must be earlier than to_date"].
Proof.
  intros Hz H.
  assert (G : exists a b c, AppRouter.GET LocalTZA a b c = Respond r).
  { destruct H as [H|H]; [now exists wallet, from_date, to_date|].
    rewrite handler_as_GET_any in H. eauto. }
  destruct G as (a & b & c & G).
  rewrite (GET_verdict _ Hz) in G. unfold verdict in G.
  destruct (rejection a b c) as [e|] eqn:R; [|discriminate].
  injection G as <-. exists e. split; [reflexivity|].
  exact (rejection_messages _ _ _ _ R).
Qed.

Lemma rejections_use_eleven_messages_witness :
  plausible_offset 0
  /\ exists e,
        mkResponse 400 (ErrorJson "Invalid to_date: Invalid month") []
        = mkResponse 400 (ErrorJson e) []
        /\ In e ["Wallet address is required";
                 "Invalid wallet address format";
                 "Invalid from_date format. Use DD.MM.YYYY";
                 "Invalid from_date: Invalid day";
                 "Invalid from_date: Invalid month";
                 "Invalid from_date: Invalid year";
                 "Invalid to_date format. Use DD.MM.YYYY";
                 "Invalid to_date: Invalid day";
                 "Invalid to_date: Invalid month";
                 "Invalid to_date: Invalid year";
                 "from_date must be earlier than to_date"].
Proof.
  assert (Hz : plausible_offset 0) by reflexivity.
  split; [exact Hz|].
  apply (rejections_use_eleven_messages 0 example_wallet
           (Some "01.06.2025") (Some "01.13.2025") None None None _ Hz).
  left. vm_compute. reflexivity.
Defined.

(** X6. The checks of [GET] come in a fixed order, and the first one that
    fails names the error. A wallet that is not an address hides every
    fault of the dates; a fault of [from_date] hides every fault of
    [to_date]; within a date the format comes before the day, the day
    before the month, the month before the year. *)
Theorem first_failed_check_names_the_error
    (LocalTZA : Z) (wallet : string) (from_date to_date : option string) :
  plausible_offset LocalTZA ->
  let h := AppRouter.GET LocalTZA wallet from_date to_date in
  (Base58.is_address wallet = false ->
   rejected_with (if truthy wallet then "Invalid wallet address format"
                  else "Wallet address is required") h)
  /\ (Base58.is_address wallet = true ->
      forall s fault,
        supplied from_date = Some s -> first_fault s fault ->
        rejected_with ("Invalid from_date" ++ fault) h)
  /\ (Base58.is_address wallet = true ->
      (forall s, supplied from_date = Some s -> well_formed s) ->
      forall s fault,
        supplied to_date = Some s -> first_fault s fault ->
        rejected_with ("Invalid to_date" ++ fault) h).
Proof.
  intros Hz h. subst h. rewrite (GET_verdict _ Hz).
  unfold rejected_with, verdict, rejection.
  split; [|split].
  - intros W. rewrite W. destruct (truthy wallet); reflexivity.
  - intros W s fault Sf Ff. rewrite W, (address_truthy _ W), Sf.
    cbn [negb].
    assert (R : date_rejection "from_date" s
                = Some ("Invalid from_date" ++ fault)).
    { apply date_rejection_fault. now exists fault. }
    rewrite R. destruct (supplied to_date); reflexivity.
  - intros W Hf s fault St Ft. rewrite W, (address_truthy _ W), St.
    cbn [negb].
    assert (R : date_rejection "to_date" s
                = Some ("Invalid to_date" ++ fault)).
    { apply date_rejection_fault. now exists fault. }
    rewrite R. destruct (supplied from_date) as [f|]; [|reflexivity].
    replace (date_rejection "from_date" f) with (@None string);
      [reflexivity|].
    symmetry. apply date_rejection_none, Hf. reflexivity.
Qed.

Lemma first_failed_check_names_the_error_witness :
  plausible_offset 0
  /\ rejected_with "Invalid from_date: Invalid day"
       (AppRouter.GET 0 example_wallet (Some "32.13.2019") (Some "1-6-2025")).
Proof.
  assert (Hz : plausible_offset 0) by reflexivity.
  split; [exact Hz|].
  destruct (first_failed_check_names_the_error 0 example_wallet
              (Some "32.13.2019") (Some "1-6-2025") Hz) as (_ & F & _).
  apply (F eq_refl "32.13.2019" ": Invalid day" eq_refl).
  right. split; [reflexivity|]. exists 32%Z, 13%Z, 2019%Z.
  split; [reflexivity|]. left. split; [lia | reflexivity].
Defined.

(** X7. [handler] lets no array through. On a GET request with any query
    values it does what [GET] does when a wallet that is undefined or an
    array is taken for the empty string and a date that is an array for a
    string without the date format; so it calls [analyzeTradeHistoryJson]
    only when the wallet and each supplied date are single strings. *)
Theorem handler_lets_no_array_through
    (LocalTZA : Z) (method : option string)
    (wallet from_date to_date : option query_value) :
  PagesRouter.handler LocalTZA (Some "GET") wallet from_date to_date
  = AppRouter.GET LocalTZA (as_wallet wallet) (as_date from_date)
      (as_date to_date)
  /\ (calls (PagesRouter.handler LocalTZA method wallet from_date to_date)
      <> [] ->
      method = Some "GET"
      /\ exists w fq tq,
           wallet = Some (QString w)
           /\ from_date = option_map QString fq
           /\ to_date = option_map QString tq).
Proof.
  split; [apply handler_as_GET_any|].
  unfold PagesRouter.handler.
  destruct method as [m|]; [|intros C; now destruct C].
  destruct (String.eqb_spec m "GET") as [->|N];
    [|intros C; now destruct C].
  cbn [negb].
  pose proof (pages_validate_cases LocalTZA wallet from_date to_date) as E.
  destruct (PagesRouter.validate LocalTZA wallet from_date to_date)
    as [[[w fd] td]|r|e]; cbn [calls]; try (intros C; now destruct C).
  intros _. split; [reflexivity|].
  destruct E as (-> & fq & tq & -> & -> & _). now exists w, fq, tq.
Qed.

Lemma handler_lets_no_array_through_witness :
  rejected_with "Invalid to_date format. Use DD.MM.YYYY"
    (PagesRouter.handler 0 (Some "GET") (Some (QString example_wallet))
       (Some (QString "01.06.2025"))
       (Some (QArray ["02.06.2025"; "03.06.2025"]))).
Proof.
  unfold rejected_with.
  rewrite (proj1 (handler_lets_no_array_through 0 None
                    (Some (QString example_wallet))
                    (Some (QString "01.06.2025"))
                    (Some (QArray ["02.06.2025"; "03.06.2025"])))).
  vm_compute. reflexivity.
Defined.

(** X8. On dates that exist in the calendar, the range check of [GET] is
    the order of the calendar: with a valid wallet and two dates of the
    years 2020 to 2030, the request is let through when the from-date is
    earlier by year, then month, then day, and is refused with the range
    error otherwise. *)
Theorem range_check_follows_the_calendar
    (LocalTZA : Z) (wallet from_date to_date : string)
    (d1 m1 y1 d2 m2 y2 : Z) :
  plausible_offset LocalTZA ->
  Base58.is_address wallet = true ->
  AppRouter.validateDateFormat from_date = true ->
  AppRouter.validateDateFormat to_date = true ->
  fields from_date = [Num d1; Num m1; Num y1] ->
  fields to_date = [Num d2; Num m2; Num y2] ->
  in_calendar d1 m1 y1 -> (2020 <= y1 <= 2030)%Z ->
  in_calendar d2 m2 y2 -> (2020 <= y2 <= 2030)%Z ->
  let h := AppRouter.GET LocalTZA wallet (Some from_date) (Some to_date) in
  (earlier d1 m1 y1 d2 m2 y2 ->
   calls h = [(Some from_date, wallet, Some to_date)])
  /\ (~ earlier d1 m1 y1 d2 m2 y2 ->
      rejected_with "from_date must be earlier than to_date" h).
Proof.
  intros Hz W Ff Ft F1 F2 C1 Y1 C2 Y2 h. subst h.
  rewrite (GET_verdict _ Hz). unfold verdict, rejection, rejected_with.
  rewrite W, (address_truthy _ W). cbn [negb supplied].
  replace (truthy from_date) with true
    by (destruct from_date; [discriminate Ff | reflexivity]).
  replace (truthy to_date) with true
    by (destruct to_date; [discriminate Ft | reflexivity]).
  replace (date_rejection "from_date" from_date) with (@None string).
  2:{ symmetry. apply date_rejection_none. split; [assumption|].
      exists d1, m1, y1. split; [assumption|].
      now apply in_calendar_in_bounds. }
  replace (date_rejection "to_date" to_date) with (@None string).
  2:{ symmetry. apply date_rejection_none. split; [assumption|].
      exists d2, m2, y2. split; [assumption|].
      now apply in_calendar_in_bounds. }
  rewrite (day_of_fields _ _ _ _ F1), (day_of_fields _ _ _ _ F2).
  pose proof (day_number_order _ _ _ _ _ _ C1 C2) as O.
  destruct (Z.leb_spec (day_number y2 m2 d2) (day_number y1 m1 d1)) as [L|L].
  - split; [|reflexivity]. intros E. apply O in E. lia.
  - split; [reflexivity|]. intros N. now destruct N; apply O.
Qed.

Lemma range_check_follows_the_calendar_witness :
  rejected_with "from_date must be earlier than to_date"
    (AppRouter.GET 0 example_wallet (Some "01.03.2024") (Some "29.02.2024"))
  /\ calls (AppRouter.GET 0 example_wallet (Some "29.02.2024")
              (Some "01.03.2024"))
     = [(Some "29.02.2024", example_wallet, Some "01.03.2024")].
Proof.
  assert (Hz : plausible_offset 0) by reflexivity.
  assert (C1 : in_calendar 1 3 2024) by (vm_compute; intuition discriminate).
  assert (C2 : in_calendar 29 2 2024) by (vm_compute; intuition discriminate).
  assert (Y : (2020 <= 2024 <= 2030)%Z) by lia.
  split.
  - apply (range_check_follows_the_calendar 0 example_wallet "01.03.2024"
             "29.02.2024" 1 3 2024 29 2 2024 Hz eq_refl eq_refl eq_refl
             eq_refl eq_refl C1 Y C2 Y).
    unfold earlier. lia.
  - apply (range_check_follows_the_calendar 0 example_wallet "29.02.2024"
             "01.03.2024" 29 2 2024 1 3 2024 Hz eq_refl eq_refl eq_refl
             eq_refl eq_refl C2 Y C1 Y).
    unfold earlier. lia.
Defined.

(** X9. A day past the end of its month counts as the day of the next
    month it runs over to: a range between such a date and that day is
    refused in both directions, the two being the same day for the range
    check. *)
Theorem day_past_month_end_is_the_day_it_runs_to
    (LocalTZA : Z) (wallet past target : string) (d m y : Z) :
  plausible_offset LocalTZA ->
  Base58.is_address wallet = true ->
  AppRouter.validateDateFormat past = true ->
  AppRouter.validateDateFormat target = true ->
  fields past = [Num d; Num m; Num y] ->
  fields target = [Num (d - DaysInMonth y (m - 1)); Num (m + 1); Num y] ->
  in_bounds d m y -> (DaysInMonth y (m - 1) < d)%Z ->
  day_of past = day_of target
  /\ rejected_with "from_date must be earlier than to_date"
       (AppRouter.GET LocalTZA wallet (Some past) (Some target))
  /\ rejected_with "from_date must be earlier than to_date"
       (AppRouter.GET LocalTZA wallet (Some target) (Some past)).
Proof.
  intros Hz W Fp Ft F1 F2 (Hd & Hm & Hy) L.
  assert (M : (m <= 11)%Z).
  { destruct (Z.eq_dec m 12) as [->|]; [|lia].
    change (DaysInMonth y (12 - 1)) with 31%Z in L. lia. }
  assert (Dim : (28 <= DaysInMonth y (m - 1))%Z).
  { destruct (leap_cases y) as [Leap _]. unfold DaysInMonth.
    repeat match goal with
           | |- context [match ?x with _ => _ end] => destruct x
           end; lia. }
  assert (E : day_of past = day_of target).
  { rewrite (day_of_fields _ _ _ _ F1), (day_of_fields _ _ _ _ F2).
    apply day_number_rolls_over. lia. }
  split; [exact E|].
  rewrite !(GET_verdict _ Hz). unfold verdict, rejection, rejected_with.
  rewrite W, (address_truthy _ W). cbn [negb supplied].
  replace (truthy past) with true
    by (destruct past; [discriminate Fp | reflexivity]).
  replace (truthy target) with true
    by (destruct target; [discriminate Ft | reflexivity]).
  assert (Wp : forall name, date_rejection name past = None).
  { intros name. apply date_rejection_none. split; [assumption|].
    exists d, m, y. split; [assumption|]. unfold in_bounds. lia. }
  assert (Wt : forall name, date_rejection name target = None).
  { intros name. apply date_rejection_none. split; [assumption|].
    exists (d - DaysInMonth y (m - 1))%Z, (m + 1)%Z, y.
    split; [assumption|]. unfold in_bounds. lia. }
  rewrite !Wp, !Wt, E, Z.leb_refl. split; reflexivity.
Qed.

Lemma day_past_month_end_is_the_day_it_runs_to_witness :
  day_of "31.04.2025" = day_of "1.5.2025"
  /\ rejected_with "from_date must be earlier than to_date"
       (AppRouter.GET 0 example_wallet (Some "31.04.2025") (Some "1.5.2025"))
  /\ rejected_with "from_date must be earlier than to_date"
       (AppRouter.GET 0 example_wallet (Some "1.5.2025") (Some "31.04.2025")).
Proof.
  assert (Hz : plausible_offset 0) by reflexivity.
  assert (B : in_bounds 31 4 2025) by (unfold in_bounds; lia).
  apply (day_past_month_end_is_the_day_it_runs_to 0 example_wallet
           "31.04.2025" "1.5.2025" 31 4 2025 Hz eq_refl eq_refl eq_refl
           eq_refl eq_refl B).
  reflexivity.
Defined.

(** X10. Behind the format check, [parseAndValidateDate] of either route
    sees three numbers, day and month below 100 and year below 10000. It
    throws for the first of day, month and year that is out of bounds, and
    otherwise returns the Date of local midnight of the day number; its
    fourth error, [Invalid date], does not occur. *)
Theorem parseAndValidateDate_behind_the_format_check
    (LocalTZA : Z) (date : string) :
  plausible_offset LocalTZA ->
  AppRouter.validateDateFormat date = true ->
  exists d m y,
    fields date = [Num d; Num m; Num y]
    /\ (0 <= d <= 99)%Z /\ (0 <= m <= 99)%Z /\ (0 <= y <= 9999)%Z
    /\ PagesRouter.parseAndValidateDate LocalTZA date
       = AppRouter.parseAndValidateDate LocalTZA date
    /\ AppRouter.parseAndValidateDate LocalTZA date
       = (if ((d <? 1) || (31 <? d))%Z
          then Throw (ErrorObject "Invalid day")
          else if ((m <? 1) || (12 <? m))%Z
          then Throw (ErrorObject "Invalid month")
          else if ((y <? 2020) || (2030 <? y))%Z
          then Throw (ErrorObject "Invalid year")
          else Return (mkDate (Num (day_number y m d * msPerDay
                                    - LocalTZA)))).
Proof.
  intros Hz F. destruct (date_fields_bounded _ F) as (d & m & y & Fs & B).
  exists d, m, y. split; [exact Fs|].
  destruct B as (Bd & Bm & By_). split; [exact Bd|]. split; [exact Bm|].
  split; [exact By_|]. split; [reflexivity|].
  rewrite (parse_of_fields LocalTZA _ _ _ _ Fs).
  destruct ((d <? 1) || (31 <? d))%Z eqn:Hd; [reflexivity|].
  destruct ((m <? 1) || (12 <? m))%Z eqn:Hm; [reflexivity|].
  destruct ((y <? 2020) || (2030 <? y))%Z eqn:Hy; [reflexivity|].
  assert (I : in_bounds d m y).
  { unfold in_bounds.
    apply orb_false_elim in Hd as [? ?], Hm as [? ?], Hy as [? ?]. lia. }
  now rewrite (new_Date_in_bounds LocalTZA _ _ _ Hz I).
Qed.

Lemma parseAndValidateDate_behind_the_format_check_witness :
  plausible_offset (-18000000)
  /\ AppRouter.validateDateFormat "31.12.2030" = true
  /\ exists d m y,
       fields "31.12.2030" = [Num d; Num m; Num y]
       /\ (0 <= d <= 99)%Z /\ (0 <= m <= 99)%Z /\ (0 <= y <= 9999)%Z
       /\ PagesRouter.parseAndValidateDate (-18000000) "31.12.2030"
          = AppRouter.parseAndValidateDate (-18000000) "31.12.2030"
       /\ AppRouter.parseAndValidateDate (-18000000) "31.12.2030"
          = (if ((d <? 1) || (31 <? d))%Z
             then Throw (ErrorObject "Invalid day")
             else if ((m <? 1) || (12 <? m))%Z
             then Throw (ErrorObject "Invalid month")
             else if ((y <? 2020) || (2030 <? y))%Z
             then Throw (ErrorObject "Invalid year")
             else Return (mkDate (Num (day_number y m d * msPerDay
                                       - -18000000)))).
Proof.
  assert (Hz : plausible_offset (-18000000)) by reflexivity.
  assert (F : AppRouter.validateDateFormat "31.12.2030" = true)
    by (vm_compute; reflexivity).
  split; [exact Hz|]. split; [exact F|].
  exact (parseAndValidateDate_behind_the_format_check (-18000000)
           "31.12.2030" Hz F).
Defined.

(** X11. The two patterns of the routes, as sets of strings. The wallet
    pattern accepts the strings of 32 to 44 characters, each of the base58
    alphabet; the date pattern accepts one or two digits, a dot, one or two
    digits, a dot and four digits, and nothing else: no sign, no blank, no
    other separator. *)
Theorem patterns_accept_exactly (s : string) :
  (AppRouter.validateWalletAddress s = true <->
   32 <= String.length s <= 44
   /\ Forall (fun c => In c (list_ascii_of_string Base58.alphabet))
        (list_ascii_of_string s))
  /\ (AppRouter.validateDateFormat s = true <->
      exists a b c,
        s = a ++ "." ++ b ++ "." ++ c
        /\ (1 <= String.length a <= 2 /\ every is_digit a = true)
        /\ (1 <= String.length b <= 2 /\ every is_digit b = true)
        /\ (String.length c = 4 /\ every is_digit c = true))
  /\ PagesRouter.validateWalletAddress s = AppRouter.validateWalletAddress s
  /\ PagesRouter.validateDateFormat s = AppRouter.validateDateFormat s.
Proof.
  split; [|split; [apply validateDateFormat_shape | split; reflexivity]].
  rewrite validateWalletAddress_spec. unfold Base58.is_address.
  rewrite !andb_true_iff, !Nat.leb_le.
  assert (E : every Base58.is_base58 s = true <->
              Forall (fun c => In c (list_ascii_of_string Base58.alphabet))
                (list_ascii_of_string s)).
  { induction s as [|c s IH]; cbn [every list_ascii_of_string].
    - split; [constructor | reflexivity].
    - rewrite andb_true_iff, IH. unfold Base58.is_base58 at 1.
      rewrite existsb_exists. split.
      + intros [(x & Hx & Ex) Hs]. apply Ascii.eqb_eq in Ex. subst x.
        now constructor.
      + intros H. inversion H as [|? ? Hc Hs]; subst. split; [|assumption].
        exists c. split; [assumption | apply Ascii.eqb_refl]. }
  rewrite E. tauto.
Qed.

End RouteProperties.

(* ================================================================== *)
(** * Properties of the front end *)
(* ================================================================== *)

Section ClientProperties.

Import JS Http Outcome.
Import Client.
Local Open Scope string_scope.

(** X12. The URL that [useTrades] requests is the path [/api/trades/]
    followed by the wallet address as it is, and by a query that holds the
    supplied dates only, [from_date] first; without a date there is no [?].
    A date of the format the routes accept is written into the query
    unchanged. *)
Theorem request_url_carries_the_dates
    (walletAddress : string) (fromDate toDate : option string) :
  request_url walletAddress fromDate toDate
  = "/api/trades/" ++ walletAddress
    ++ match supplied fromDate, supplied toDate with
       | None, None => ""
       | Some f, None => "?from_date=" ++ form_encode f
       | None, Some t => "?to_date=" ++ form_encode t
       | Some f, Some t =>
           "?from_date=" ++ form_encode f ++ "&to_date=" ++ form_encode t
       end
  /\ (forall f t,
        AppRouter.validateDateFormat f = true ->
        AppRouter.validateDateFormat t = true ->
        request_url walletAddress (Some f) (Some t)
        = "/api/trades/" ++ walletAddress
          ++ "?from_date=" ++ f ++ "&to_date=" ++ t).
Proof.
  split; [apply request_url_query|]. intros f t Ff Ft.
  rewrite request_url_query. unfold supplied.
  replace (truthy f) with true
    by (destruct f; [discriminate Ff | reflexivity]).
  replace (truthy t) with true
    by (destruct t; [discriminate Ft | reflexivity]).
  now rewrite !form_encode_safe by now apply date_format_safe.
Qed.

Lemma request_url_carries_the_dates_witness :
  request_url example_wallet (Some "15.06.2025") (Some "27.06.2025")
  = "/api/trades/GFexHU2EkUcmcKbj3GyiuNQoa7TreCxLkAxMb2xeLHgS"
    ++ "?from_date=15.06.2025&to_date=27.06.2025".
Proof.
  rewrite (proj2 (request_url_carries_the_dates example_wallet None None)
             "15.06.2025" "27.06.2025" eq_refl eq_refl).
  reflexivity.
Defined.

(** X13. The text of a date cannot reshape the query of that URL. The
    serializer behind [params.toString()] leaves a value unchanged exactly
    when it consists of alphanumerics and [*], [-], [.], [_], and encodes
    every other byte; so whatever the dates are, the query holds one [?]
    when a date is supplied, one [=] for each supplied date, one [&] when
    both are supplied, and neither [#] nor a blank. *)
Theorem dates_cannot_reshape_the_query
    (walletAddress : string) (fromDate toDate : option string) :
  (forall s, form_encode s = s <-> every form_safe s = true)
  /\ exists query,
       request_url walletAddress fromDate toDate
       = "/api/trades/" ++ walletAddress ++ query
       /\ occurrences "?" query = Nat.min 1 (dates_supplied fromDate toDate)
       /\ occurrences "=" query = dates_supplied fromDate toDate
       /\ occurrences "&" query = dates_supplied fromDate toDate - 1
       /\ occurrences "#" query = 0
       /\ occurrences " " query = 0.
Proof.
  split.
  { intros s. split; [apply form_encode_fixed | apply form_encode_safe]. }
  rewrite request_url_query. unfold dates_supplied.
  destruct (supplied fromDate) as [f|], (supplied toDate) as [t|];
    eexists; (split; [reflexivity|]);
    rewrite ?occurrences_append, ?occurrences_form_encode by reflexivity;
    (split; [reflexivity|]); (split; [reflexivity|]);
    (split; [reflexivity|]); split; reflexivity.
Qed.

(** X15. The error of [useTrades] over any sequence of its events, runs
    that overlap included. A run clears the error only when it starts: once
    a request has failed, the error stays through every later success,
    until the next run starts. So when a run starts before an earlier
    request fails, the error of the earlier request is shown beside the
    data of the later one. *)
Theorem error_outlives_later_successes
    (A : Type) (s : state A) (before later : list (event A)) :
  Forall (@success A) later ->
  error (after s (before ++ Started A :: later)) = None
  /\ (forall outcome e,
        received outcome = Throw e ->
        error (after s (before ++ Finished outcome :: later))
        = Some (message_or_unknown e))
  /\ (forall failure e answer d,
        received failure = Throw e -> received answer = Return d ->
        after s (before ++ [Started A; Started A; Finished failure;
                            Finished answer])
        = mkState (Some d) false (Some (message_or_unknown e))).
Proof.
  intros L. split; [|split].
  - rewrite after_app. cbn [after fold_left].
    change (fold_left (@react A) later ?x) with (after x later).
    now rewrite (successes_keep_error A _ _ L).
  - intros outcome e R. rewrite after_app. cbn [after fold_left].
    change (fold_left (@react A) later ?x) with (after x later).
    rewrite (successes_keep_error A _ _ L).
    unfold react, finished. now rewrite R.
  - intros failure e answer d Rf Ra. rewrite after_app.
    cbn [after fold_left react]. unfold finished. now rewrite Rf, Ra.
Qed.

Lemma error_outlives_later_successes_witness :
  after (initial TradeData)
    [Started TradeData; Started TradeData;
     Finished (Return (mkResponse 500 "Internal Server Error"
                         (Throw NotAnError)));
     Finished (Return (mkResponse 200 "OK"
                         (Return (mkTradeData example_wallet
                                    "2025-06-27T12:00:00.000Z" []))))]
  = mkState
      (Some (mkTradeData example_wallet "2025-06-27T12:00:00.000Z" []))
      false (Some "HTTP 500: Internal Server Error").
Proof.
  destruct (error_outlives_later_successes TradeData (initial TradeData)
              [] [] (Forall_nil _)) as (_ & _ & H).
  exact (H (Return (mkResponse 500 "Internal Server Error"
                      (Throw NotAnError)))
           (ErrorObject "HTTP 500: Internal Server Error")
           (Return (mkResponse 200 "OK"
                      (Return (mkTradeData example_wallet
                                 "2025-06-27T12:00:00.000Z" []))))
           (mkTradeData example_wallet "2025-06-27T12:00:00.000Z" [])
           eq_refl eq_refl).
Defined.




(** X18. The hook behind the route. Whatever request [GET] is given and
    whatever [analyzeTradeHistoryJson] does, the response leaves the hook
    in one of two states: with the report as data after a response of
    status 200, or with the error [HTTP 400], [HTTP 429] or [HTTP 500] and
    the status text. The error text that the route chose, which says what
    was wrong with the request, does not reach the state of the hook. *)
Theorem route_errors_reach_the_hook_as_a_status
    (LocalTZA : Z)
    (analyze : option string -> string -> option string
               -> completion Model.TradeReport)
    (wallet : string) (from_date to_date : option string)
    (statusText : string) (s : state Http.json) :
  let r := run analyze (AppRouter.GET LocalTZA wallet from_date to_date) in
  let s' :=
    after s [Started Http.json; Finished (Return (over_http statusText r))]
  in
  (exists trades,
     Http.status r = 200%Z
     /\ s' = mkState (Some (TradesJson trades)) false None)
  \/ (exists code,
        In code ["400"; "429"; "500"]
        /\ s' = mkState (data s) false
                  (Some ("HTTP " ++ code ++ ": " ++ statusText))).
Proof.
  intros r s'. subst s'.
  destruct (GET_run_cases LocalTZA analyze wallet from_date to_date)
    as [[trades E] | [e [E | [E | E]]]]; fold r in E; rewrite E.
  - left. exists trades. split; reflexivity.
  - right. exists "429". split; [simpl; tauto | reflexivity].
  - right. exists "400". split; [simpl; tauto | reflexivity].
  - right. exists "500". split; [simpl; tauto | reflexivity].
Qed.

(** X19. [TradesPage] asks for a wallet and validates nothing else: with a
    wallet that is not empty it calls [analyzeTradeHistoryJson] with the
    three search parameters as they are, and an exception of that call is
    the exception of the page. The call is the one [GET] makes exactly when
    [GET] lets the request through and no date is the empty string, which
    [GET] turns into undefined. *)
Theorem TradesPage_validates_nothing
    (LocalTZA : Z) (w : string) (f t : option string) :
  plausible_offset LocalTZA ->
  truthy w = true ->
  let page := TradesPage (mkSearchParams (Some w) f t) in
  page_calls page = [(f, w, t)]
  /\ (forall (A : Type) analyze (e : thrown),
        analyze f w t = Throw e ->
        @page_result A analyze page = Throw e)
  /\ (page_calls page = calls (AppRouter.GET LocalTZA w f t)
      <-> Base58.is_address w = true
          /\ f = supplied f /\ t = supplied t
          /\ (forall x, f = Some x \/ t = Some x -> well_formed x)
          /\ in_order f t).
Proof.
  intros Hz T page. subst page. unfold TradesPage.
  cbn [wallet from_date to_date]. rewrite T. cbn [negb page_calls].
  split; [reflexivity|]. split.
  - intros A analyze e E. cbn [page_result]. now rewrite E.
  - rewrite (GET_verdict _ Hz). unfold verdict.
    pose proof (rejection_none w f t) as R.
    destruct (rejection w f t) as [e|]; cbn [calls].
    + split; [discriminate|]. intros (W & Ef & Et & H & O).
      destruct R as [_ R]. rewrite <- Ef, <- Et in R.
      now discriminate R.
    + destruct R as [R _]. destruct (R eq_refl) as (W & H & O). split.
      * intros [= Ef Et]. rewrite <- Ef, <- Et in H, O. auto.
      * intros (_ & <- & <- & _). reflexivity.
Qed.

Lemma TradesPage_validates_nothing_witness :
  plausible_offset 0
  /\ truthy "not-a-wallet" = true
  /\ page_calls (TradesPage (mkSearchParams (Some "not-a-wallet")
                               (Some "yesterday") None))
     = [(Some "yesterday", "not-a-wallet", None)]
  /\ calls (AppRouter.GET 0 "not-a-wallet" (Some "yesterday") None) = [].
Proof.
  assert (Hz : plausible_offset 0) by reflexivity.
  split; [exact Hz|]. split; [reflexivity|].
  split; [|vm_compute; reflexivity].
  exact (proj1 (TradesPage_validates_nothing 0 "not-a-wallet"
                  (Some "yesterday") None Hz eq_refl)).
Defined.

End ClientProperties.
